(** * Pac-Man typing test: the typing engine and the background animation

  A shallow embedding of [src/typingTest.js] (class [TypingTestManager])
  and of the Pac-Man and particle part of [src/animations.js] (class
  [AnimationManager]), with the properties the specification states
  about them.

  Conventions of the embedding.
  - A JavaScript string is a [list ascii], one element per code unit;
    [s.length] is [len s] and [s[i]] is [charAt s i], which is [None]
    where JavaScript yields [undefined].
  - Integer-valued numbers (counters, positions, milliseconds, seconds)
    are [Z]; the other numbers are exact rationals [Q], compared with
    [==].  IEEE rounding is not modelled.
  - [Date.now()] is an argument [now] of each method that reads the clock;
    one synchronous method run reads one clock value.
  - [Math.random()] is drawn from a [RandomSource], a sequence of values
    of [[0, 1)]; a method that draws takes the source and the draws are
    numbered from [0].
  - The callbacks [onStatsUpdate], [onComplete], [onCorrectKey] and
    [onIncorrectKey] are the [Event]s a method returns, in call order.
    The DOM writes ([updateTextDisplay], the input widget) and
    [console.log] leave the manager untouched and are left out. *)

From Stdlib Require Import ZArith QArith Qround List Bool String Ascii Lia.
From Stdlib Require Import Qminmax Permutation.
Import ListNotations.

Open Scope Z_scope.

(** ** JavaScript values *)

Module JS.

Definition jsstring := list ascii.

Definition lit (s : string) : jsstring := list_ascii_of_string s.

(** [s.length], of a string and of an array. *)
Definition len {A} (s : list A) : Z := Z.of_nat (List.length s).

(** [s[i]]: [undefined] below [0] and from [s.length] on. *)
Definition charAt (s : jsstring) (i : Z) : option ascii :=
  if i <? 0 then None else nth_error s (Z.to_nat i).

(** [a === b] on values that are a one-unit string or [undefined]. *)
Definition strictEq (a b : option ascii) : bool :=
  match a, b with
  | Some c, Some d => Ascii.eqb c d
  | None, None => true
  | _, _ => false
  end.

(** [parts.join(sep)]. *)
Fixpoint join (sep : jsstring) (parts : list jsstring) : jsstring :=
  match parts with
  | [] => []
  | [p] => p
  | p :: rest => p ++ sep ++ join sep rest
  end.

(** [a.splice(i, 1)] seen from the array: the element at [i] goes. *)
Definition removeAt {A} (i : nat) (l : list A) : list A :=
  firstn i l ++ skipn (S i) l.

Definition Qltb (a b : Q) : bool := negb (Qle_bool b a).

Definition Math_max (a b : Q) : Q := if Qle_bool a b then b else a.
Definition Math_min (a b : Q) : Q := if Qle_bool a b then a else b.

(** The result of a division whose divisor may be [0]. *)
Inductive jsnum : Type :=
| Finite (q : Q)
| PosInfinity
| NegInfinity
| NaN.

Definition js_div (a b : Q) : jsnum :=
  if Qeq_bool b 0 then
    if Qeq_bool a 0 then NaN
    else if Qle_bool 0 a then PosInfinity else NegInfinity
  else Finite (a / b).

(** [v * k] for a positive finite [k]. *)
Definition js_scale (v : jsnum) (k : Q) : jsnum :=
  match v with
  | Finite q => Finite (q * k)
  | other => other
  end.

(** A value of [Math.random()]: a number of [[0, 1)]. *)
Record Random01 : Type := mkRandom01 {
  rval : Q;
  rval_range : Qle_bool 0 rval && Qltb rval 1 = true
}.

Definition RandomSource := nat -> Random01.

(** [Math.floor(Math.random() * n)]. *)
Definition randomIndex (r : Random01) (n : nat) : nat :=
  Z.to_nat (Qfloor (rval r * inject_Z (Z.of_nat n))).

Definition zeroRandom : Random01 := mkRandom01 0 eq_refl.
Definition halfRandom : Random01 := mkRandom01 (1 # 2) eq_refl.

End JS.

Import JS.

(** ** The typing test manager *)

Module TypingTest.

Record Config : Type := mkConfig {
  difficulty : string;
  mode : string;
  language : string;
  time : Z  (* minutes, an integer: [parseInt] of the select's value *)
}.

Record Pool : Type := mkPool {
  words : list jsstring;
  sentences : list jsstring
}.

Record State : Type := mkState {
  isActive : bool;
  isPaused : bool;
  startTime : option Z;
  endTime : option Z;
  timeRemaining : Z;
  currentText : jsstring;
  typedText : jsstring;
  currentPosition : Z;
  errors : Z;
  totalChars : Z;
  correctChars : Z
}.

(** [timer] is [true] while an interval is registered, that is while
    [this.timer] holds its handle. *)
Record Manager : Type := mkManager {
  config : Config;
  state : State;
  timer : bool
}.

Record Stats : Type := mkStats {
  wpm : Q;
  accuracy : Q;
  statTimeRemaining : Z;
  timeElapsed : Q;
  charactersTyped : Z;
  statCorrectChars : Z;
  statErrors : Z;
  statTotalChars : Z;
  progress : jsnum
}.

Inductive Event : Type :=
| CorrectKey
| IncorrectKey
| StatsUpdate (s : Stats)
| Complete (results : Stats).

(** *** Content data *)

Definition nl : jsstring := [ascii_of_nat 10].
Definition dq : jsstring := [ascii_of_nat 34].

Definition easy : Pool := {|
  words := map lit ["cat"; "dog"; "run"; "fun"; "sun"; "hat"; "bat"; "mat";
    "car"; "bar"; "toy"; "boy"; "joy"; "day"; "way"; "say"; "may"; "ray";
    "key"; "see"]%string;
  sentences := map lit ["The cat runs fast."; "Dogs like to play.";
    "Sun is very bright."; "I love to read books.";
    "Birds fly in the sky."]%string
|}.

Definition normal : Pool := {|
  words := map lit ["keyboard"; "typing"; "practice"; "accuracy"; "speed";
    "computer"; "pacman"; "arcade"; "challenge"; "improve"; "exercise";
    "rhythm"; "finger"; "position"]%string;
  sentences := map lit ["Practice makes perfect typing.";
    "Arcade games are really fun."; "Typing speed improves with time.";
    "Focus on accuracy first, then speed."]%string
|}.

Definition hard : Pool := {|
  words := map lit ["algorithm"; "efficiency"; "performance"; "optimization";
    "sophisticated"; "implementation"; "architecture"; "methodology";
    "comprehensive"; "fundamental"]%string;
  sentences := map lit
    ["Algorithm efficiency determines program performance.";
     "Sophisticated implementations require careful optimization.";
     "Comprehensive testing ensures reliable software architecture."]%string
|}.

Definition expert : Pool := {|
  words := map lit ["asynchronous"; "polymorphism"; "encapsulation";
    "abstraction"; "inheritance"; "composition"; "instantiation";
    "serialization"; "multithreading"; "concurrency"]%string;
  sentences := map lit
    ["Asynchronous programming improves application responsiveness.";
     "Polymorphism enables flexible object-oriented design patterns.";
     "Encapsulation provides data security and code maintainability."]%string
|}.

Definition advanced : Pool := {|
  words := map lit ["metaprogramming"; "concurrency"; "serialization";
    "deserialization"; "multithreading"; "parallelization";
    "synchronization"; "virtualization"; "containerization";
    "orchestration"]%string;
  sentences := map lit
    ["Metaprogramming techniques enable dynamic code generation.";
     "Concurrency management prevents race condition vulnerabilities.";
     "Containerization simplifies application deployment and scaling."]%string
|}.

Definition difficulties : list (string * Pool) :=
  [("easy", easy); ("normal", normal); ("hard", hard); ("expert", expert);
   ("advanced", advanced)]%string.

Definition python_snippets : list jsstring :=
  [ lit "def calculate_wpm(chars, time):" ++ nl
      ++ lit "    return (chars / 5) / (time / 60)";
    lit "for i in range(10):" ++ nl ++ lit "    print(f'Number: {i}')";
    lit "class PacMan:" ++ nl ++ lit "    def __init__(self, x, y):" ++ nl
      ++ lit "        self.x = x" ++ nl ++ lit "        self.y = y";
    lit "import pygame" ++ nl ++ lit "from typing import List, Tuple";
    lit "result = [x**2 for x in range(5) if x % 2 == 0]" ].

Definition javascript_snippets : list jsstring :=
  [ lit "function calculateWPM(chars, time) {" ++ nl
      ++ lit "  return (chars / 5) / (time / 60);" ++ nl ++ lit "}";
    lit "const pacman = { x: 0, y: 0, direction: 'right' };";
    lit "for (let i = 0; i < 10; i++) {" ++ nl
      ++ lit "  console.log(`Number: ${i}`);" ++ nl ++ lit "}";
    lit "const canvas = document.getElementById('gameCanvas');" ++ nl
      ++ lit "const ctx = canvas.getContext('2d');";
    lit "setTimeout(() => {" ++ nl ++ lit "  console.log('Game started!');"
      ++ nl ++ lit "}, 1000);" ].

Definition cpp_snippets : list jsstring :=
  [ lit "#include <iostream>" ++ nl ++ lit "#include <vector>" ++ nl
      ++ lit "using namespace std;";
    lit "class PacMan {" ++ nl ++ lit "private:" ++ nl ++ lit "  int x, y;"
      ++ nl ++ lit "public:" ++ nl
      ++ lit "  PacMan(int startX, int startY);" ++ nl ++ lit "};";
    lit "for (int i = 0; i < 10; ++i) {" ++ nl ++ lit "  cout << " ++ dq
      ++ lit "Number: " ++ dq ++ lit " << i << endl;" ++ nl ++ lit "}";
    lit "vector<int> scores = {100, 200, 300};" ++ nl
      ++ lit "sort(scores.begin(), scores.end());";
    lit "auto lambda = [](int a, int b) { return a + b; };" ].

Definition java_snippets : list jsstring :=
  [ lit "public class PacMan {" ++ nl ++ lit "  private int x, y;" ++ nl
      ++ lit "  public PacMan(int x, int y) {" ++ nl
      ++ lit "    this.x = x; this.y = y;" ++ nl ++ lit "  }" ++ nl
      ++ lit "}";
    lit "List<Integer> scores = new ArrayList<>();" ++ nl
      ++ lit "scores.add(100);";
    lit "for (int i = 0; i < 10; i++) {" ++ nl
      ++ lit "  System.out.println(" ++ dq ++ lit "Number: " ++ dq
      ++ lit " + i);" ++ nl ++ lit "}";
    lit "Map<String, Integer> gameStats = new HashMap<>();";
    lit "try {" ++ nl ++ lit "  // Game logic here" ++ nl
      ++ lit "} catch (Exception e) {" ++ nl ++ lit "  e.printStackTrace();"
      ++ nl ++ lit "}" ].

Definition code_snippets : list (string * list jsstring) :=
  [("python", python_snippets); ("javascript", javascript_snippets);
   ("cpp", cpp_snippets); ("java", java_snippets)]%string.

(** The property names every JavaScript object inherits from
    [Object.prototype].  Under these [table[key]] finds a function (an
    object for [__proto__]) though the table has no such key. *)
Definition objectPrototypeNames : list string :=
  ["constructor"; "__defineGetter__"; "__defineSetter__";
   "hasOwnProperty"; "__lookupGetter__"; "__lookupSetter__";
   "isPrototypeOf"; "propertyIsEnumerable"; "toString"; "valueOf";
   "__proto__"; "toLocaleString"]%string.

Definition inherited (key : string) : bool :=
  existsb (String.eqb key) objectPrototypeNames.

(** [table[key]] for a key that is not [inherited]: [None] stands for
    [undefined], the value of a key the object does not have.  The keys
    looked up are the values the page's select elements offer.  For an
    [inherited] key the code finds the inherited value instead, which
    is truthy, so that [table[key] || fallback] does not fall back:
    the words branch of [generateTestText] then throws a [TypeError]
    and the code branch leaves the text [undefined].  What is proved
    of the generated text is proved for keys that are not
    [inherited]. *)
Fixpoint lookup {A} (key : string) (table : list (string * A)) : option A :=
  match table with
  | [] => None
  | (k, v) :: rest => if String.eqb key k then Some v else lookup key rest
  end.

(** [contentData.difficulties[d] || contentData.difficulties.normal]. *)
Definition difficultyPool (d : string) : Pool :=
  match lookup d difficulties with
  | Some p => p
  | None => normal
  end.

(** [contentData.code_snippets[l] || contentData.code_snippets.javascript]. *)
Definition snippetSet (l : string) : list jsstring :=
  match lookup l code_snippets with
  | Some s => s
  | None => javascript_snippets
  end.

(** *** State updates *)

Definition withState (m : Manager) (s : State) : Manager :=
  {| config := config m; state := s; timer := timer m |}.

Definition set_isActive (b : bool) (s : State) : State :=
  mkState b (isPaused s) (startTime s) (endTime s) (timeRemaining s)
    (currentText s) (typedText s) (currentPosition s) (errors s)
    (totalChars s) (correctChars s).

Definition set_isPaused (b : bool) (s : State) : State :=
  mkState (isActive s) b (startTime s) (endTime s) (timeRemaining s)
    (currentText s) (typedText s) (currentPosition s) (errors s)
    (totalChars s) (correctChars s).

Definition set_startTime (t : option Z) (s : State) : State :=
  mkState (isActive s) (isPaused s) t (endTime s) (timeRemaining s)
    (currentText s) (typedText s) (currentPosition s) (errors s)
    (totalChars s) (correctChars s).

Definition set_endTime (t : option Z) (s : State) : State :=
  mkState (isActive s) (isPaused s) (startTime s) t (timeRemaining s)
    (currentText s) (typedText s) (currentPosition s) (errors s)
    (totalChars s) (correctChars s).

Definition set_timeRemaining (r : Z) (s : State) : State :=
  mkState (isActive s) (isPaused s) (startTime s) (endTime s) r
    (currentText s) (typedText s) (currentPosition s) (errors s)
    (totalChars s) (correctChars s).

Definition set_currentText (t : jsstring) (s : State) : State :=
  mkState (isActive s) (isPaused s) (startTime s) (endTime s)
    (timeRemaining s) t (typedText s) (currentPosition s) (errors s)
    (totalChars s) (correctChars s).

(** [typedText = v; currentPosition = v.length], always written together. *)
Definition set_typed (v : jsstring) (s : State) : State :=
  mkState (isActive s) (isPaused s) (startTime s) (endTime s)
    (timeRemaining s) (currentText s) v (len v) (errors s)
    (totalChars s) (correctChars s).

Definition incr_errors (s : State) : State :=
  mkState (isActive s) (isPaused s) (startTime s) (endTime s)
    (timeRemaining s) (currentText s) (typedText s) (currentPosition s)
    (errors s + 1) (totalChars s) (correctChars s).

Definition incr_totalChars (s : State) : State :=
  mkState (isActive s) (isPaused s) (startTime s) (endTime s)
    (timeRemaining s) (currentText s) (typedText s) (currentPosition s)
    (errors s) (totalChars s + 1) (correctChars s).

Definition incr_correctChars (s : State) : State :=
  mkState (isActive s) (isPaused s) (startTime s) (endTime s)
    (timeRemaining s) (currentText s) (typedText s) (currentPosition s)
    (errors s) (totalChars s) (correctChars s + 1).

(** The constructor. *)
Definition initialManager : Manager := {|
  config := mkConfig "normal" "words" "javascript" 3;
  state := mkState false false None None 0 [] [] 0 0 0 0;
  timer := false
|}.

(** *** Text generation *)

(** The variables of the two loops of [generateTestText]: the number of
    [Math.random()] calls made so far, the pool still to draw from, and
    [currentLength] and [textParts]. *)
Record GenState : Type := mkGenState {
  draws : nat;
  poolLeft : list jsstring;
  currentLength : Z;
  textParts : list jsstring
}.

Definition targetWPM : Z := 40.

(** [targetWords * 5] with [targetWords = targetWPM * config.time]. *)
Definition targetChars (c : Config) : Z := (targetWPM * time c) * 5.

(** [while (currentLength < targetChars * 0.6 && sentences.length > 0)]:
    a sentence is spliced out of [sentences] at a random index and pushed.
    Each turn shortens [sentences], so [fuel = sentences.length] turns
    are all the loop can make. *)
Fixpoint sentenceLoop (fuel : nat) (rs : RandomSource) (limit : Q)
    (g : GenState) : GenState :=
  match fuel with
  | O => g
  | S fuel' =>
      if Qltb (inject_Z (currentLength g)) limit
         && (0 <? len (poolLeft g)) then
        let i := randomIndex (rs (draws g)) (List.length (poolLeft g)) in
        let sentence := nth i (poolLeft g) [] in
        sentenceLoop fuel' rs limit
          {| draws := S (draws g);
             poolLeft := removeAt i (poolLeft g);
             currentLength := currentLength g + (len sentence + 1);
             textParts := textParts g ++ [sentence] |}
      else g
  end.

(** [while (currentLength < targetChars && words.length > 0)]: a word is
    read at a random index (the array keeps it) and pushed.  Each turn
    adds at least [1] to [currentLength], so
    [fuel = targetChars - currentLength] turns are all the loop can make. *)
Fixpoint wordLoop (fuel : nat) (rs : RandomSource) (target : Z)
    (g : GenState) : GenState :=
  match fuel with
  | O => g
  | S fuel' =>
      if (currentLength g <? target) && (0 <? len (poolLeft g)) then
        let i := randomIndex (rs (draws g)) (List.length (poolLeft g)) in
        let word := nth i (poolLeft g) [] in
        wordLoop fuel' rs target
          {| draws := S (draws g);
             poolLeft := poolLeft g;
             currentLength := currentLength g + (len word + 1);
             textParts := textParts g ++ [word] |}
      else g
  end.

(** The state in which the sentence loop leaves. *)
Definition afterSentences (rs : RandomSource) (c : Config) : GenState :=
  let difficulty := difficultyPool (difficulty c) in
  sentenceLoop (List.length (sentences difficulty)) rs
    (inject_Z (targetChars c) * (6 # 10))
    {| draws := 0; poolLeft := sentences difficulty;
       currentLength := 0; textParts := [] |}.

(** The state in which the word loop leaves. *)
Definition afterWords (rs : RandomSource) (c : Config) : GenState :=
  let difficulty := difficultyPool (difficulty c) in
  let g := afterSentences rs c in
  wordLoop (Z.to_nat (targetChars c - currentLength g)) rs (targetChars c)
    {| draws := draws g; poolLeft := words difficulty;
       currentLength := currentLength g; textParts := textParts g |}.

Definition generatedText (rs : RandomSource) (c : Config) : jsstring :=
  if String.eqb (mode c) "code" then
    let snippets := snippetSet (language c) in
    nth (randomIndex (rs O) (List.length snippets)) snippets []
  else
    join (lit " ") (textParts (afterWords rs c)).

Definition generateTestText (rs : RandomSource) (m : Manager) : Manager :=
  withState m (set_currentText (generatedText rs (config m)) (state m)).

(** *** Timer and lifecycle *)

Definition clearTimer (m : Manager) : Manager :=
  if timer m then {| config := config m; state := state m; timer := false |}
  else m.

Definition startTimer (m : Manager) : Manager :=
  let m := clearTimer m in
  {| config := config m; state := state m; timer := true |}.

Definition resetState (m : Manager) : Manager :=
  let s := state m in
  clearTimer (withState m
    {| isActive := false; isPaused := false; startTime := None;
       endTime := None; timeRemaining := time (config m) * 60;
       currentText := currentText s; typedText := [];
       currentPosition := 0; errors := 0; totalChars := 0;
       correctChars := 0 |}).

(** [config] carries the four keys, as [startGame] passes them, so the
    merge [{...this.config, ...config}] is [config]. *)
Definition configure (c : Config) (rs : RandomSource) (m : Manager)
    : Manager :=
  let m := {| config := c; state := state m; timer := timer m |} in
  resetState (generateTestText rs m).

Definition calculateStats (now : Z) (m : Manager) : Stats :=
  let s := state m in
  let timeElapsed :=
    match startTime s with
    | Some t => if t =? 0 then 0%Q else (inject_Z (now - t) / 1000)%Q
    | None => 0%Q
    end in
  let minutes := Math_max (timeElapsed / 60) (1 / 60) in
  let wpm := ((inject_Z (correctChars s) / 5) / minutes)%Q in
  let accuracy :=
    if totalChars s >? 0
    then ((inject_Z (correctChars s) / inject_Z (totalChars s)) * 100)%Q
    else 100%Q in
  {| wpm := Math_max 0 wpm;
     accuracy := Math_max 0 (Math_min 100 accuracy);
     statTimeRemaining := Z.max 0 (timeRemaining s);
     timeElapsed := timeElapsed;
     charactersTyped := currentPosition s;
     statCorrectChars := correctChars s;
     statErrors := errors s;
     statTotalChars := totalChars s;
     progress :=
       js_scale (js_div (inject_Z (currentPosition s))
                        (inject_Z (len (currentText s)))) 100 |}.

Definition updateStats (now : Z) (m : Manager) : list Event :=
  [StatsUpdate (calculateStats now m)].

Definition start (now : Z) (m : Manager) : Manager * list Event :=
  let s := set_startTime (Some now)
             (set_isPaused false (set_isActive true (state m))) in
  let m := startTimer (withState m s) in
  (m, updateStats now m).

Definition pause (m : Manager) : Manager :=
  clearTimer (withState m (set_isPaused true (state m))).

Definition resume (m : Manager) : Manager :=
  startTimer (withState m (set_isPaused false (state m))).

Definition stop (now : Z) (m : Manager) : Manager :=
  clearTimer
    (withState m (set_endTime (Some now) (set_isActive false (state m)))).

Definition reset (now : Z) (rs : RandomSource) (m : Manager) : Manager :=
  generateTestText rs (resetState (stop now m)).

Definition completeTest (now : Z) (m : Manager) : Manager * list Event :=
  let m := stop now m in
  (m, [Complete (calculateStats now m)]).

(** The body of the [setInterval] callback of [startTimer]. *)
Definition timerCallback (now : Z) (m : Manager) : Manager * list Event :=
  if negb (isPaused (state m)) && isActive (state m) then
    let m := withState m
               (set_timeRemaining (timeRemaining (state m) - 1) (state m)) in
    if timeRemaining (state m) <=? 0 then completeTest now m
    else (m, updateStats now m)
  else (m, []).

(** One second passes: the callback runs when an interval is registered. *)
Definition tick (now : Z) (m : Manager) : Manager * list Event :=
  if timer m then timerCallback now m else (m, []).

(** *** Input *)

(** [handleInput(e)] with [inputValue = e.target.value]. *)
Definition handleInput (now : Z) (inputValue : jsstring) (m : Manager)
    : Manager * list Event :=
  let s := state m in
  if negb (isActive s) || isPaused s then (m, [])
  else
    let inputLength := len inputValue in
    if inputLength <? len (typedText s) then
      let m := withState m (set_typed inputValue s) in
      (m, updateStats now m)
    else
      let newChar := charAt inputValue (inputLength - 1) in
      let expectedChar := charAt (currentText s) (currentPosition s) in
      let s := incr_totalChars s in
      if strictEq newChar expectedChar then
        let s := set_typed inputValue (incr_correctChars s) in
        let m := withState m s in
        if currentPosition s >=? len (currentText s) then
          let (m', evs) := completeTest now m in
          (m', CorrectKey :: evs)
        else (m, CorrectKey :: updateStats now m)
      else
        let s := set_typed inputValue (incr_errors s) in
        let m := withState m s in
        (m, IncorrectKey :: updateStats now m).

Definition isRunning (m : Manager) : bool :=
  isActive (state m) && negb (isPaused (state m)).

Definition getProgress (m : Manager) : jsnum :=
  js_scale (js_div (inject_Z (currentPosition (state m)))
                   (inject_Z (len (currentText (state m))))) 100.

(** What [handleInput] does past its two early returns. *)
Definition insertion (now : Z) (v : jsstring) (m : Manager)
    : Manager * list Event :=
  let s := state m in
  if strictEq (charAt v (len v - 1))
              (charAt (currentText s) (currentPosition s)) then
    let m1 :=
      withState m (set_typed v (incr_correctChars (incr_totalChars s))) in
    if len v >=? len (currentText s) then
      (stop now m1, [CorrectKey; Complete (calculateStats now (stop now m1))])
    else (m1, [CorrectKey; StatsUpdate (calculateStats now m1)])
  else
    let m1 :=
      withState m (set_typed v (incr_errors (incr_totalChars s))) in
    (m1, [IncorrectKey; StatsUpdate (calculateStats now m1)]).

(** *** Traces of operations *)

Inductive Op : Type :=
| OpConfigure (c : Config) (rs : RandomSource)
| OpStart (now : Z)
| OpPause
| OpResume
| OpStop (now : Z)
| OpReset (now : Z) (rs : RandomSource)
| OpInput (now : Z) (inputValue : jsstring)
| OpTick (now : Z).

Definition apply (o : Op) (m : Manager) : Manager * list Event :=
  match o with
  | OpConfigure c rs => (configure c rs m, [])
  | OpStart now => start now m
  | OpPause => (pause m, [])
  | OpResume => (resume m, [])
  | OpStop now => (stop now m, [])
  | OpReset now rs => (reset now rs m, [])
  | OpInput now v => handleInput now v m
  | OpTick now => tick now m
  end.

Fixpoint run (ops : list Op) (m : Manager) : Manager * list Event :=
  match ops with
  | [] => (m, [])
  | o :: rest =>
      let (m1, e1) := apply o m in
      let (m2, e2) := run rest m1 in
      (m2, e1 ++ e2)
  end.

(** *** Vocabulary of the properties *)

(** The user types on: one input event per character, for the characters
    of the target text at the positions [currentPosition] to [k - 1]; the
    widget holds what was typed before followed by these characters.
    [clock j] is the time of the event that brings the position to [j]. *)
Definition typeThrough (clock : nat -> Z) (m : Manager) (k : nat)
    : list Op :=
  let p := Z.to_nat (currentPosition (state m)) in
  map (fun j => OpInput (clock j)
                  (typedText (state m)
                     ++ skipn p (firstn j (currentText (state m)))))
      (seq (S p) (k - p)).

Definition isComplete (e : Event) : bool :=
  match e with
  | Complete _ => true
  | _ => false
  end.

(** The invariant of the session data. *)
Definition Invariant (m : Manager) : Prop :=
  currentPosition (state m) = len (typedText (state m))
  /\ correctChars (state m) <= totalChars (state m)
  /\ 0 <= errors (state m).

(** The managers a program can hold: the constructor's, and what the
    methods and the timer make of it. *)
Inductive Reachable : Manager -> Prop :=
| reach_init : Reachable initialManager
| reach_apply (o : Op) (m : Manager) :
    Reachable m -> Reachable (fst (apply o m)).

(** [configure] and [reset] go through [resetState]. *)
Definition resetsState (o : Op) : bool :=
  match o with
  | OpConfigure _ _ | OpReset _ _ => true
  | _ => false
  end.

(** [configure], [reset] and [start]: the operations that write
    [timeRemaining] anew or make a stopped session active again. *)
Definition restarts (o : Op) : bool :=
  match o with
  | OpConfigure _ _ | OpReset _ _ | OpStart _ => true
  | _ => false
  end.

Definition countersLe (a b : State) : Prop :=
  correctChars a <= correctChars b
  /\ totalChars a <= totalChars b
  /\ errors a <= errors b.

Definition countersEq (a b : State) : Prop :=
  correctChars a = correctChars b
  /\ totalChars a = totalChars b
  /\ errors a = errors b.

(** The part of the state the typing invariant and the counters read. *)
Definition typingData (s : State) : jsstring * Z * (Z * Z * Z) :=
  (typedText s, currentPosition s, (correctChars s, totalChars s, errors s)).

(** [currentLength] as the loops of [generateTestText] count it: the
    length of every part pushed, plus one for its space. *)
Definition accumulated (parts : list jsstring) : Z :=
  fold_right (fun p a => len p + 1 + a) 0 parts.

(** The parts in their order with one space between two neighbours, as
    the specification words the joining. *)
Definition spaceSeparated (parts : list jsstring) : jsstring :=
  match parts with
  | [] => []
  | first :: rest => first ++ List.concat (map (cons " "%char) rest)
  end.

(** Drawing at random without replacement, as the specification words
    it, with the draws of [Math.random()] numbered from [k]: the draw
    [r] takes, of [n] elements, the one at position [floor (r * n)];
    the element leaves the pool, and the next draw is made from the
    rest.  [DrawnWithout rs k pool drawn left]: the draws [k],
    [k + 1], ... took [drawn] from [pool], in this order, and [left]
    is what stayed. *)
Inductive DrawnWithout (rs : RandomSource)
    : nat -> list jsstring -> list jsstring -> list jsstring -> Prop :=
| drawn_none (k : nat) (pool : list jsstring) :
    DrawnWithout rs k pool [] pool
| drawn_one (k : nat) (before after drawn left : list jsstring)
    (x : jsstring) :
    Qfloor (rval (rs k) * inject_Z (len (before ++ x :: after)))
    = len before ->
    DrawnWithout rs (S k) (before ++ after) drawn left ->
    DrawnWithout rs k (before ++ x :: after) (x :: drawn) left.

(** Drawing at random with replacement: the same, but the pool stays
    as it is. *)
Inductive DrawnWith (rs : RandomSource)
    : nat -> list jsstring -> list jsstring -> Prop :=
| replaced_none (k : nat) (pool : list jsstring) :
    DrawnWith rs k pool []
| replaced_one (k : nat) (before after drawn : list jsstring)
    (x : jsstring) :
    Qfloor (rval (rs k) * inject_Z (len (before ++ x :: after)))
    = len before ->
    DrawnWith rs (S k) (before ++ x :: after) drawn ->
    DrawnWith rs k (before ++ x :: after) (x :: drawn).

(** The elapsed minutes and the words per minute as the specification
    words them, with a floor of [1/3600] minute. *)
Definition specMinutes (elapsedSeconds : Q) : Q :=
  Math_max (elapsedSeconds / 60) (1 / 3600).

Definition specWpm (correctCharCount : Z) (elapsedSeconds : Q) : Q :=
  Math_max 0 ((inject_Z correctCharCount / 5) / specMinutes elapsedSeconds).

(** The elapsed seconds [calculateStats] works from. *)
Definition elapsedSeconds (now : Z) (m : Manager) : Q :=
  timeElapsed (calculateStats now m).

(** The manager with its [endTime] stamp blanked. *)
Definition withoutEndTime (m : Manager) : Manager :=
  withState m (set_endTime None (state m)).

End TypingTest.

(** ** The background animation: Pac-Man characters and particles

  Ghosts, dots, collisions and rendering are left out: they read the
  position of a character and write none of its fields.  [speed] is
  written by [createPacmanCharacters] and [addCompletionEffect] only. *)

Module Pacman.

Record t : Type := mk {
  x : Q;
  y : Q;
  vx : Q;
  vy : Q;
  color : string;
  colorIndex : nat;
  size : Q;
  speed : Q;
  direction : Q;
  mouthAngle : Q;
  mouthSpeed : Q
}.

End Pacman.

Module Particle.

Record t : Type := mk {
  x : Q;
  y : Q;
  vx : Q;
  vy : Q;
  size : Q;
  color : string;
  life : Q;
  maxLife : Q;
  alpha : Q
}.

End Particle.

Module Animation.

(** A callback handed to [setTimeout].  The callback of
    [addPacmanMovement] closes over one Pac-Man object, named here by its
    index in [pacmanCharacters] (the array is filled once, by
    [createPacmanCharacters]); the one of [addCompletionEffect] walks the
    whole array. *)
Inductive Callback : Type :=
| MovementRevert (i : nat) (boost : Q)
| CompletionRevert.

(** [timeouts] holds the callbacks registered and not yet run, with their
    delays in milliseconds. *)
Record Manager : Type := mkManager {
  width : Q;
  height : Q;
  pacmanCharacters : list Pacman.t;
  particles : list Particle.t;
  timeouts : list (Z * Callback)
}.

Definition set_velocity (vx vy : Q) (p : Pacman.t) : Pacman.t :=
  Pacman.mk (Pacman.x p) (Pacman.y p) vx vy (Pacman.color p)
    (Pacman.colorIndex p) (Pacman.size p) (Pacman.speed p)
    (Pacman.direction p) (Pacman.mouthAngle p) (Pacman.mouthSpeed p).

Definition set_speed (speed : Q) (p : Pacman.t) : Pacman.t :=
  Pacman.mk (Pacman.x p) (Pacman.y p) (Pacman.vx p) (Pacman.vy p)
    (Pacman.color p) (Pacman.colorIndex p) (Pacman.size p) speed
    (Pacman.direction p) (Pacman.mouthAngle p) (Pacman.mouthSpeed p).

Definition withPacmen (s : Manager) (ps : list Pacman.t) : Manager :=
  mkManager (width s) (height s) ps (particles s) (timeouts s).

(** [createPacmanCharacters]: four characters with the speeds
    [2, 2.2, 1.8, 2.1]; position, velocity and direction are random.
    [twoPi] stands for [Math.PI * 2]. *)
Definition pacmanColors : list string :=
  ["yellow"; "red"; "blue"; "green"]%string.
Definition pacmanSpeeds : list Q := [2; 22 # 10; 18 # 10; 21 # 10]%Q.

Definition createPacman (twoPi w h : Q) (rs : RandomSource) (i : nat)
    : Pacman.t :=
  let r j := rval (rs (5 * i + j)%nat) in
  let sp := nth i pacmanSpeeds 0%Q in
  {| Pacman.x := r 0%nat * (w - 60) + 30;
     Pacman.y := r 1%nat * (h - 60) + 30;
     Pacman.vx := (r 2%nat - (1 # 2)) * sp;
     Pacman.vy := (r 3%nat - (1 # 2)) * sp;
     Pacman.color := nth i pacmanColors ""%string;
     Pacman.colorIndex := i;
     Pacman.size := 30;
     Pacman.speed := sp;
     Pacman.direction := r 4%nat * twoPi;
     Pacman.mouthAngle := 0;
     Pacman.mouthSpeed := 2 # 10 |}%Q.

Definition pacmanCount : nat := 4.

Definition createPacmanCharacters (twoPi : Q) (rs : RandomSource)
    (s : Manager) : Manager :=
  withPacmen s
    (map (createPacman twoPi (width s) (height s) rs) (seq 0 pacmanCount)).

(** [updatePacmanCharacters(deltaTime)], for one character; [atan2] is
    [Math.atan2]. *)
Definition updatePacman (atan2 : Q -> Q -> Q) (w h deltaTime : Q)
    (p : Pacman.t) : Pacman.t :=
  let mouthAngle :=
    (Pacman.mouthAngle p + Pacman.mouthSpeed p * deltaTime * (1 # 100))%Q in
  let x := (Pacman.x p + Pacman.vx p)%Q in
  let y := (Pacman.y p + Pacman.vy p)%Q in
  let bounceX := Qltb x 15 || Qltb (w - 15) x in
  let vx := if bounceX then (Pacman.vx p * -1)%Q else Pacman.vx p in
  let direction :=
    if bounceX then atan2 (Pacman.vy p) vx else Pacman.direction p in
  let bounceY := Qltb y 15 || Qltb (h - 15) y in
  let vy := if bounceY then (Pacman.vy p * -1)%Q else Pacman.vy p in
  let direction := if bounceY then atan2 vy vx else direction in
  {| Pacman.x := Math_max 15 (Math_min (w - 15) x);
     Pacman.y := Math_max 15 (Math_min (h - 15) y);
     Pacman.vx := vx;
     Pacman.vy := vy;
     Pacman.color := Pacman.color p;
     Pacman.colorIndex := Pacman.colorIndex p;
     Pacman.size := Pacman.size p;
     Pacman.speed := Pacman.speed p;
     Pacman.direction := direction;
     Pacman.mouthAngle := mouthAngle;
     Pacman.mouthSpeed := Pacman.mouthSpeed p |}.

Definition updatePacmanCharacters (atan2 : Q -> Q -> Q) (deltaTime : Q)
    (s : Manager) : Manager :=
  withPacmen s
    (map (updatePacman atan2 (width s) (height s) deltaTime)
         (pacmanCharacters s)).

(** [addPacmanMovement]: every character is sped up by [1.2] and a
    callback that undoes it is registered for [200] ms later. *)
Definition movementBoost : Q := 12 # 10.

Definition addPacmanMovement (s : Manager) : Manager :=
  mkManager (width s) (height s)
    (map (fun p => set_velocity (Pacman.vx p * movementBoost)
                                (Pacman.vy p * movementBoost) p)
         (pacmanCharacters s))
    (particles s)
    (timeouts s
       ++ map (fun i => (200, MovementRevert i movementBoost))
              (seq 0 (List.length (pacmanCharacters s)))).

(** [addCompletionEffect]. *)
Definition celebrationColors : list string :=
  ["#FFE800"; "#FF2667"; "#0080FF"; "#00FF80"; "#FF69B4"]%string.

(** The [i]-th celebration particle; its six [Math.random()] calls are
    the draws [6 i] to [6 i + 5], in the order of the object literal. *)
Definition celebrationParticle (w h : Q) (rs : RandomSource) (i : nat)
    : Particle.t :=
  let r j := rval (rs (6 * i + j)%nat) in
  {| Particle.x := w / 2 + (r 0%nat - (1 # 2)) * 200;
     Particle.y := h / 2 + (r 1%nat - (1 # 2)) * 200;
     Particle.vx := (r 2%nat - (1 # 2)) * 10;
     Particle.vy := (r 3%nat - (1 # 2)) * 10;
     Particle.size := r 4%nat * 6 + 2;
     Particle.color :=
       nth (randomIndex (rs (6 * i + 5)%nat)
              (List.length celebrationColors))
           celebrationColors ""%string;
     Particle.life := 3000;
     Particle.maxLife := 3000;
     Particle.alpha := 1 |}%Q.

Definition celebrationBurst : nat := 50.
Definition celebrationDuration : Z := 3000.

Definition completionBoost (p : Pacman.t) : Pacman.t :=
  set_velocity (Pacman.vx p * 2) (Pacman.vy p * 2)
    (set_speed (Pacman.speed p * 2) p).

Definition addCompletionEffect (rs : RandomSource) (s : Manager) : Manager :=
  mkManager (width s) (height s)
    (map completionBoost (pacmanCharacters s))
    (particles s
       ++ map (celebrationParticle (width s) (height s) rs)
              (seq 0 celebrationBurst))
    (timeouts s ++ [(celebrationDuration, CompletionRevert)]).

Definition completionRevert (p : Pacman.t) : Pacman.t :=
  set_velocity (Pacman.vx p / 2) (Pacman.vy p / 2)
    (set_speed (Pacman.speed p / 2) p).

(** [l[i] = f(l[i])] where [l] has an index [i]. *)
Fixpoint updateAt {A} (i : nat) (f : A -> A) (l : list A) : list A :=
  match l, i with
  | [], _ => []
  | a :: rest, O => f a :: rest
  | a :: rest, S j => a :: updateAt j f rest
  end.

(** The body of a registered callback. *)
Definition runCallback (c : Callback) (s : Manager) : Manager :=
  match c with
  | MovementRevert i boost =>
      withPacmen s
        (updateAt i (fun p => set_velocity (Pacman.vx p / boost)
                                           (Pacman.vy p / boost) p)
                  (pacmanCharacters s))
  | CompletionRevert =>
      withPacmen s (map completionRevert (pacmanCharacters s))
  end.

(** What can happen to the characters between two events of interest:
    a frame (of [update], the part that moves the characters; the rest
    moves ghosts, dots and particles and writes no character), a correct
    keystroke, a completed test, a callback that comes due. *)
Inductive Action : Type :=
| Frame (atan2 : Q -> Q -> Q) (deltaTime : Q)
| CorrectKeystroke
| Completion (rs : RandomSource)
| Due (c : Callback).

Definition act (a : Action) (s : Manager) : Manager :=
  match a with
  | Frame atan2 deltaTime => updatePacmanCharacters atan2 deltaTime s
  | CorrectKeystroke => addPacmanMovement s
  | Completion rs => addCompletionEffect rs s
  | Due c => runCallback c s
  end.

Definition acts (l : list Action) (s : Manager) : Manager :=
  fold_left (fun s a => act a s) l s.

(** The actions of another completion boost: its start and its
    reversion. *)
Definition overlapping (a : Action) : bool :=
  match a with
  | Completion _ | Due CompletionRevert => true
  | _ => false
  end.

(** A simulation of an 800 by 600 canvas with its four characters and
    no particle. *)
Definition exampleManager : Manager :=
  createPacmanCharacters (6283 # 1000) (fun _ => halfRandom)
    (mkManager 800 600 [] [] []).

End Animation.

(** ** Scenarios used to run the model *)

Module Scenario.

Import TypingTest.

Definition constantSource (r : Random01) : RandomSource := fun _ => r.

(** Code mode, Java: with every draw at [0.7] the snippet is the fourth
    one, [Map<String, Integer> gameStats = new HashMap<>();]. *)
Definition codeConfig : Config := mkConfig "normal" "code" "java" 3.

Definition sevenTenths : Random01 := mkRandom01 (7 # 10) eq_refl.

Definition wordsConfig : Config := mkConfig "easy" "words" "javascript" 1.

Definition clock (j : nat) : Z := 1000 + 200 * Z.of_nat j.

(** A session configured and started at time [1000]. *)
Definition started : Manager :=
  fst (run [OpConfigure codeConfig (constantSource sevenTenths);
            OpStart 1000] initialManager).

(** The same session with all of the snippet typed but its last
    character. *)
Definition oneToGo : Manager :=
  fst (run (typeThrough clock started 48) started).

(** The same session with the first three characters typed, then
    paused, and then stopped. *)
Definition threeTyped : Manager :=
  fst (run (typeThrough clock started 3) started).

Definition pausedSession : Manager := pause threeTyped.

Definition stoppedSession : Manager := stop 5000 threeTyped.

(** A words session on the easy pool, one minute, started at [1000],
    and the same with its first fifty characters typed. *)
Definition wordsStarted : Manager :=
  fst (run [OpConfigure wordsConfig (constantSource zeroRandom);
            OpStart 1000] initialManager).

Definition fiftyTyped : Manager :=
  fst (run (typeThrough clock wordsStarted 50) wordsStarted).

(** A session on the target text [cat], running, nothing typed. *)
Definition catSession : Manager :=
  {| config := mkConfig "easy" "words" "javascript" 3;
     state := mkState true false (Some 1000) None 180 (lit "cat") [] 0 0 0 0;
     timer := true |}.

End Scenario.


From Stdlib Require Import DecimalString DecimalZ DecimalPos.

(** ** More of the typing test manager: vocabulary *)

Module TypingMore.

Import TypingTest.

(** The counters account for every keystroke counted. *)
Definition Accounting (s : State) : Prop :=
  totalChars s = correctChars s + errors s
  /\ 0 <= correctChars s
  /\ 0 <= errors s.

(** [n] seconds pass: the interval comes due [n] times, at the clock
    readings [clock 1] to [clock n]. *)
Definition ticks (clock : nat -> Z) (n : nat) : list Op :=
  map (fun j => OpTick (clock j)) (seq 1 n).

(** Input events and ticks: what the page and the timer send on their
    own, no method of the manager being called. *)
Definition fromOutside (o : Op) : bool :=
  match o with
  | OpInput _ _ | OpTick _ => true
  | _ => false
  end.

(** The manager [resetState] leaves, for a configuration and a text. *)
Definition idleManager (c : Config) (text : jsstring) : Manager :=
  {| config := c;
     state := {| isActive := false; isPaused := false; startTime := None;
                 endTime := None; timeRemaining := time c * 60;
                 currentText := text; typedText := [];
                 currentPosition := 0; errors := 0; totalChars := 0;
                 correctChars := 0 |};
     timer := false |}.

Definition tab : ascii := ascii_of_nat 9.

Definition allSnippets : list jsstring :=
  python_snippets ++ javascript_snippets ++ cpp_snippets ++ java_snippets.

Definition allPools : list Pool := [easy; normal; hard; expert; advanced].

(** The longest part a pool holds. *)
Definition longestPart (p : Pool) : Z :=
  fold_right Z.max 0 (map len (sentences p ++ words p)).

End TypingMore.

(** ** The text display

  [updateTextDisplay] writes the target text into the display element,
  one [span] per character.  The string it assigns to [innerHTML] is
  modelled; the element is taken to be there. *)

Module Display.

Import TypingTest TypingMore.

(** The lines [371] to [385]: how a character of the target is
    written. *)
Definition displayChar (char : ascii) : jsstring :=
  if Ascii.eqb char " " then lit "&nbsp;"
  else if Ascii.eqb char (ascii_of_nat 10) then lit "<br>"
  else if Ascii.eqb char tab then lit "&nbsp;&nbsp;&nbsp;&nbsp;"
  else if Ascii.eqb char "<" then lit "&lt;"
  else if Ascii.eqb char ">" then lit "&gt;"
  else if Ascii.eqb char "&" then lit "&amp;"
  else [char].

(** The class of the character [char] at the index [i] of the target. *)
Definition className (s : State) (i : Z) (char : ascii) : jsstring :=
  let typedLength := currentPosition s in
  if i <? typedLength then
    if strictEq (charAt (typedText s) i) (Some char) then lit "correct"
    else lit "incorrect"
  else if i =? typedLength then lit "current"
  else lit "untyped".

(** The class and the character of every turn of the loop, from the
    index [i] on. *)
Fixpoint classifiedFrom (s : State) (i : Z) (text : jsstring)
    : list (jsstring * ascii) :=
  match text with
  | [] => []
  | char :: rest => (className s i char, char) :: classifiedFrom s (i + 1) rest
  end.

Definition classified (s : State) : list (jsstring * ascii) :=
  classifiedFrom s 0 (currentText s).

Definition span (cls : jsstring) (displayed : jsstring) : jsstring :=
  lit "<span class=" ++ dq ++ cls ++ dq ++ lit ">" ++ displayed
    ++ lit "</span>".

(** The value of [html] when the loop is left. *)
Definition updateTextDisplay (s : State) : jsstring :=
  List.concat (map (fun p => span (fst p) (displayChar (snd p))) (classified s)).

Definition classes (s : State) : list jsstring := map fst (classified s).

(** How many characters are shown with the class [name]. *)
Definition shownAs (name : string) (s : State) : nat :=
  List.length
    (filter (fun cls => String.eqb (string_of_list_ascii cls) name)
            (classes s)).

Definition allAscii : list ascii := map ascii_of_nat (seq 0 256).

Definition jsstring_eqb (a b : jsstring) : bool :=
  String.eqb (string_of_list_ascii a) (string_of_list_ascii b).

End Display.

(** ** The Tab key

  [handleKeyDown] works on the input widget: its value and its selection,
  which the browser keeps within the value and in order. *)

Module Keys.

Import TypingTest TypingMore.

Record Input : Type := mkInput {
  value : jsstring;
  selectionStart : nat;
  selectionEnd : nat
}.

(** [s.substring(a, b)]: the bounds are clamped to the string and put in
    order. *)
Definition substring (s : jsstring) (a b : nat) : jsstring :=
  firstn (Nat.max a b - Nat.min a b) (skipn (Nat.min a b) s).

(** [handleKeyDown(e)] with [e.key = key] and [e.target = input]; the
    input event it dispatches runs [handleInput] before it returns. *)
Definition handleKeyDown (now : Z) (key : string) (input : Input)
    (m : Manager) : Input * (Manager * list Event) :=
  if String.eqb key "Tab" then
    if String.eqb (mode (config m)) "code" then
      let start := selectionStart input in
      let v := substring (value input) 0 start ++ [tab]
                 ++ skipn (selectionEnd input) (value input) in
      ({| value := v; selectionStart := start + 1;
          selectionEnd := start + 1 |},
       handleInput now v m)
    else (input, (m, []))
  else (input, (m, [])).

End Keys.

(** ** The time display of the application ([src/app.js]) *)

Module AppDisplay.

(** [Number.MAX_SAFE_INTEGER]: up to it every integer is a number of
    the language, and is written with all its digits. *)
Definition maxSafeInteger : Z := 2 ^ 53 - 1.

Definition safeInteger (n : Z) : bool := Z.abs n <=? maxSafeInteger.

(** An integer in decimal digits, with its sign when it is negative. *)
Definition decimal (n : Z) : jsstring :=
  list_ascii_of_string (NilZero.string_of_int (Z.to_int n)).

(** [n.toString()] for a safe integer [n].  [None] marks a number the
    model does not cover: beyond the safe integers not every integer is
    a number of the language, and from [1e21] on the code writes
    exponent form. *)
Definition toString (n : Z) : option jsstring :=
  if safeInteger n then Some (decimal n) else None.

(** [s.padStart(targetLength, pad)] for a one-character [pad]. *)
Definition padStart (targetLength : nat) (pad : ascii) (s : jsstring)
    : jsstring :=
  repeat pad (targetLength - List.length s) ++ s.

(** [formatTime(seconds)] for a safe integer number of seconds, as
    [calculateStats] reports [timeRemaining]; [None] as for
    [toString]. *)
Definition formatTime (seconds : Z) : option jsstring :=
  if safeInteger seconds then
    let minutes := seconds / 60 in
    let remainingSeconds := Z.rem seconds 60 in
    match toString minutes, toString remainingSeconds with
    | Some m, Some r => Some (m ++ lit ":" ++ padStart 2 "0" r)
    | _, _ => None
    end
  else None.

(** The value of a decimal digit. *)
Definition digitValue (c : ascii) : Z := Z.of_nat (nat_of_ascii c) - 48.

Definition isDigit (c : ascii) : bool :=
  (48 <=? nat_of_ascii c)%nat && (nat_of_ascii c <=? 57)%nat.

End AppDisplay.

(** ** The whole simulation of [src/animations.js]

  Ghosts and dots, the frame ([update]) and the frame loop ([animate]),
  on top of the characters and particles above.  [Math.cos], [Math.sin],
  [Math.atan2] and [Math.PI * 2] are taken as parameters ([Trig]).
  [Math.sqrt(d) < 20] is read as [d < 400].  Rendering draws and writes
  nothing back.  A function that calls [Math.random()] takes the source
  and the number of the next draw, and returns the number after its
  last. *)

Module Ghost.

Record t : Type := mk {
  x : Q;
  y : Q;
  vx : Q;
  vy : Q;
  color : string;
  colorIndex : nat;
  size : Q;
  speed : Q;
  direction : Q;
  changeDirectionTimer : Q
}.

End Ghost.

Module Dot.

Record t : Type := mk {
  x : Q;
  y : Q;
  size : Q;
  eaten : bool;
  pulseTime : Q
}.

End Dot.

Module Simulation.

(** What the model leaves open of the numbers of the language:
    [Math.cos], [Math.sin], [Math.atan2], the double of [Math.PI], and
    [round], the rounding of the exact result of an operation to a
    double.  The rounding is written out in [updateGhost] and in
    [ageParticle], where a sum kept from frame to frame is compared
    with a constant and decides what the frame does. *)
Record Trig : Type := mkTrig {
  cos : Q -> Q;
  sin : Q -> Q;
  atan2 : Q -> Q -> Q;
  twoPi : Q;
  round : Q -> Q
}.

(** What is assumed of the rounding where it is assumed at all, and
    holds of the rounding of doubles in every rounding mode: it keeps
    the order, and it keeps the integers up to [2 ^ 53], which are
    doubles. *)
Definition rounding (f : Q -> Q) : Prop :=
  (forall x y : Q, (x <= y)%Q -> (f x <= f y)%Q)
  /\ (forall z : Z, Z.abs z <= 2 ^ 53 -> (f (inject_Z z) == inject_Z z)%Q).

(** [animationId] is [true] while a frame is requested. *)
Record World : Type := mkWorld {
  width : Q;
  height : Q;
  pacmanCharacters : list Pacman.t;
  ghosts : list Ghost.t;
  dots : list Dot.t;
  particles : list Particle.t;
  isRunning : bool;
  animationId : bool;
  lastFrameTime : Q
}.

Definition dotCount : nat := 50.
Definition ghostCount : nat := 4.
Definition frameInterval : Q := 1000 / 60.

Definition ghostColors : list string :=
  ["pink"; "cyan"; "orange"; "red"]%string.
Definition ghostSpeeds : list Q := [15 # 10; 16 # 10; 14 # 10; 17 # 10]%Q.

(** The [i]-th ghost of [createGhosts]; its five draws are the draws
    [k + 5 i] to [k + 5 i + 4]. *)
Definition createGhost (tr : Trig) (w h : Q) (rs : RandomSource)
    (k i : nat) : Ghost.t :=
  let r j := rval (rs (k + 5 * i + j)%nat) in
  let sp := nth i ghostSpeeds 0%Q in
  {| Ghost.x := r 0%nat * (w - 60) + 30;
     Ghost.y := r 1%nat * (h - 60) + 30;
     Ghost.vx := (r 2%nat - (1 # 2)) * sp;
     Ghost.vy := (r 3%nat - (1 # 2)) * sp;
     Ghost.color := nth i ghostColors ""%string;
     Ghost.colorIndex := i;
     Ghost.size := 28;
     Ghost.speed := sp;
     Ghost.direction := r 4%nat * twoPi tr;
     Ghost.changeDirectionTimer := 0 |}%Q.

(** The dot [addRandomDot] pushes, from the draws [k] to [k + 2]. *)
Definition randomDot (tr : Trig) (w h : Q) (rs : RandomSource) (k : nat)
    : Dot.t :=
  {| Dot.x := rval (rs k) * (w - 20) + 10;
     Dot.y := rval (rs (k + 1)%nat) * (h - 20) + 10;
     Dot.size := 4;
     Dot.eaten := false;
     Dot.pulseTime := rval (rs (k + 2)%nat) * twoPi tr |}%Q.

(** [while (this.dots.length < this.config.dotCount) this.addRandomDot()],
    with the fuel of the dots that are missing. *)
Fixpoint refillDots (fuel : nat) (tr : Trig) (w h : Q) (rs : RandomSource)
    (k : nat) (ds : list Dot.t) : list Dot.t * nat :=
  match fuel with
  | O => (ds, k)
  | S fuel' =>
      if (List.length ds <? dotCount)%nat then
        refillDots fuel' tr w h rs (k + 3) (ds ++ [randomDot tr w h rs k])
      else (ds, k)
  end.

(** One ghost of [updateGhosts(deltaTime)]: the result and the number
    of the next draw.  Every sum and product is rounded; [Math.PI] is
    half of [twoPi]. *)
Definition updateGhost (tr : Trig) (w h deltaTime : Q) (rs : RandomSource)
    (k : nat) (g : Ghost.t) : Ghost.t * nat :=
  let timer := round tr (Ghost.changeDirectionTimer g + deltaTime) in
  let turn := Qltb (round tr (2000 + round tr (rval (rs k) * 3000))) timer in
  let direction :=
    if turn then round tr (round tr (rval (rs (S k)) * (twoPi tr / 2)) * 2)
    else Ghost.direction g in
  let vx := if turn then round tr (cos tr direction * Ghost.speed g)
            else Ghost.vx g in
  let vy := if turn then round tr (sin tr direction * Ghost.speed g)
            else Ghost.vy g in
  let timer := if turn then 0%Q else timer in
  let x := round tr (Ghost.x g + vx) in
  let y := round tr (Ghost.y g + vy) in
  let x := if Qltb x (-14) then round tr (w + 14) else x in
  let x := if Qltb (round tr (w + 14)) x then (-14)%Q else x in
  let y := if Qltb y (-14) then round tr (h + 14) else y in
  let y := if Qltb (round tr (h + 14)) y then (-14)%Q else y in
  ({| Ghost.x := x; Ghost.y := y; Ghost.vx := vx; Ghost.vy := vy;
      Ghost.color := Ghost.color g; Ghost.colorIndex := Ghost.colorIndex g;
      Ghost.size := Ghost.size g; Ghost.speed := Ghost.speed g;
      Ghost.direction := direction;
      Ghost.changeDirectionTimer := timer |},
   if turn then S (S k) else S k).

Fixpoint updateGhostList (tr : Trig) (w h deltaTime : Q)
    (rs : RandomSource) (k : nat) (gs : list Ghost.t)
    : list Ghost.t * nat :=
  match gs with
  | [] => ([], k)
  | g :: rest =>
      let (g', k1) := updateGhost tr w h deltaTime rs k g in
      let (rest', k2) := updateGhostList tr w h deltaTime rs k1 rest in
      (g' :: rest', k2)
  end.

Definition pulse (deltaTime : Q) (d : Dot.t) : Dot.t :=
  if Dot.eaten d then d
  else Dot.mk (Dot.x d) (Dot.y d) (Dot.size d) (Dot.eaten d)
         (Dot.pulseTime d + deltaTime * (5 # 1000)).

(** [updateDots(deltaTime)]: the dots and the number of the next draw. *)
Definition updateDots (tr : Trig) (w h deltaTime : Q) (rs : RandomSource)
    (k : nat) (ds : list Dot.t) : list Dot.t * nat :=
  let left := filter (fun d => negb (Dot.eaten d)) (map (pulse deltaTime) ds) in
  refillDots (dotCount - List.length left) tr w h rs k left.

(** One particle of the first loop of [updateParticles(deltaTime)],
    every sum, difference and quotient rounded. *)
Definition ageParticle (tr : Trig) (deltaTime : Q) (p : Particle.t)
    : Particle.t :=
  let life := round tr (Particle.life p - deltaTime) in
  {| Particle.x := round tr (Particle.x p + Particle.vx p);
     Particle.y := round tr (Particle.y p + Particle.vy p);
     Particle.vx := Particle.vx p;
     Particle.vy := Particle.vy p;
     Particle.size := Particle.size p;
     Particle.color := Particle.color p;
     Particle.life := life;
     Particle.maxLife := Particle.maxLife p;
     Particle.alpha :=
       Math_max 0 (round tr (life / Particle.maxLife p)) |}.

(** [updateParticles(deltaTime)]. *)
Definition updateParticles (tr : Trig) (deltaTime : Q)
    (ps : list Particle.t) : list Particle.t :=
  filter (fun p => Qltb 0 (Particle.life p))
         (map (ageParticle tr deltaTime) ps).

(** The [i]-th particle of [addEatingParticle(x, y)], from the draws
    [k + 5 i] to [k + 5 i + 4]. *)
Definition eatingParticle (x y : Q) (rs : RandomSource) (k i : nat)
    : Particle.t :=
  let r j := rval (rs (k + 5 * i + j)%nat) in
  {| Particle.x := x + (r 0%nat - (1 # 2)) * 10;
     Particle.y := y + (r 1%nat - (1 # 2)) * 10;
     Particle.vx := (r 2%nat - (1 # 2)) * 4;
     Particle.vy := (r 3%nat - (1 # 2)) * 4;
     Particle.size := r 4%nat * 3 + 1;
     Particle.color := "#FFE800"%string;
     Particle.life := 1000;
     Particle.maxLife := 1000;
     Particle.alpha := 1 |}%Q.

Definition addEatingParticle (x y : Q) (rs : RandomSource) (k : nat)
    : list Particle.t :=
  map (eatingParticle x y rs k) (seq 0 5).

(** [distance < 20] for a character and a dot. *)
Definition near (p : Pacman.t) (d : Dot.t) : bool :=
  let dx := (Pacman.x p - Dot.x d)%Q in
  let dy := (Pacman.y p - Dot.y d)%Q in
  Qltb (dx * dx + dy * dy) 400.

Definition eat (d : Dot.t) : Dot.t :=
  Dot.mk (Dot.x d) (Dot.y d) (Dot.size d) true (Dot.pulseTime d).

(** The inner loop of [checkCollisions], for one character: the dots,
    the particles pushed, and the number of the next draw. *)
Fixpoint eatDots (p : Pacman.t) (rs : RandomSource) (k : nat)
    (ds : list Dot.t) : list Dot.t * list Particle.t * nat :=
  match ds with
  | [] => ([], [], k)
  | d :: rest =>
      if negb (Dot.eaten d) && near p d then
        let '(rest', ps, k') := eatDots p rs (k + 25) rest in
        (eat d :: rest',
         addEatingParticle (Dot.x d) (Dot.y d) rs k ++ ps, k')
      else
        let '(rest', ps, k') := eatDots p rs k rest in
        (d :: rest', ps, k')
  end.

(** [checkCollisions()], the outer loop over the characters. *)
Fixpoint checkCollisions (pacmen : list Pacman.t) (rs : RandomSource)
    (k : nat) (ds : list Dot.t) (ps : list Particle.t)
    : list Dot.t * list Particle.t * nat :=
  match pacmen with
  | [] => (ds, ps, k)
  | p :: rest =>
      let '(ds', new, k') := eatDots p rs k ds in
      checkCollisions rest rs k' ds' (ps ++ new)
  end.

(** [update(deltaTime)]: the world and the number of draws made. *)
Definition update (tr : Trig) (deltaTime : Q) (rs : RandomSource)
    (s : World) : World * nat :=
  let pacmen :=
    map (Animation.updatePacman (atan2 tr) (width s) (height s) deltaTime)
        (pacmanCharacters s) in
  let (gs, k1) :=
    updateGhostList tr (width s) (height s) deltaTime rs 0 (ghosts s) in
  let (ds, k2) :=
    updateDots tr (width s) (height s) deltaTime rs k1 (dots s) in
  let ps := updateParticles tr deltaTime (particles s) in
  let '(ds', ps', k3) := checkCollisions pacmen rs k2 ds ps in
  ({| width := width s; height := height s; pacmanCharacters := pacmen;
      ghosts := gs; dots := ds'; particles := ps';
      isRunning := isRunning s; animationId := animationId s;
      lastFrameTime := lastFrameTime s |}, k3).

(** [animate()] when [performance.now()] reads [currentTime]; [true]
    comes with the world when the frame was computed and drawn. *)
Definition animate (tr : Trig) (currentTime : Q) (rs : RandomSource)
    (s : World) : World * bool :=
  if negb (isRunning s) then (s, false)
  else
    let deltaTime := (currentTime - lastFrameTime s)%Q in
    if Qle_bool frameInterval deltaTime then
      let s1 := fst (update tr deltaTime rs s) in
      ({| width := width s1; height := height s1;
          pacmanCharacters := pacmanCharacters s1; ghosts := ghosts s1;
          dots := dots s1; particles := particles s1;
          isRunning := isRunning s1; animationId := true;
          lastFrameTime := currentTime |}, true)
    else
      ({| width := width s; height := height s;
          pacmanCharacters := pacmanCharacters s; ghosts := ghosts s;
          dots := dots s; particles := particles s;
          isRunning := isRunning s; animationId := true;
          lastFrameTime := lastFrameTime s |}, false).

(** [start()]: [performance.now()] reads [now], and [later] in the call
    of [animate()] that follows. *)
Definition start (tr : Trig) (now later : Q) (rs : RandomSource)
    (s : World) : World :=
  if isRunning s then s
  else
    fst (animate tr later rs
           {| width := width s; height := height s;
              pacmanCharacters := pacmanCharacters s; ghosts := ghosts s;
              dots := dots s; particles := particles s;
              isRunning := true; animationId := animationId s;
              lastFrameTime := now |}).

Definition stop (s : World) : World :=
  {| width := width s; height := height s;
     pacmanCharacters := pacmanCharacters s; ghosts := ghosts s;
     dots := dots s; particles := particles s;
     isRunning := false; animationId := false;
     lastFrameTime := lastFrameTime s |}.

(** [createEntities()]: four characters, four ghosts, fifty dots. *)
Definition createEntities (tr : Trig) (rs : RandomSource) (s : World)
    : World :=
  {| width := width s; height := height s;
     pacmanCharacters :=
       map (Animation.createPacman (twoPi tr) (width s) (height s) rs)
           (seq 0 Animation.pacmanCount);
     ghosts := map (createGhost tr (width s) (height s) rs 20)
                   (seq 0 ghostCount);
     dots := fst (refillDots dotCount tr (width s) (height s) rs 40 []);
     particles := particles s;
     isRunning := isRunning s; animationId := animationId s;
     lastFrameTime := lastFrameTime s |}.

(** A sequence of frames: each with its [deltaTime] and its draws. *)
Fixpoint frames (tr : Trig) (l : list (Q * RandomSource)) (s : World)
    : World :=
  match l with
  | [] => s
  | (deltaTime, rs) :: rest => frames tr rest (fst (update tr deltaTime rs s))
  end.

(** The particles after the frames of the delta times [dts], as far as
    [updateParticles] goes. *)
Definition agedThrough (tr : Trig) (dts : list Q) (ps : list Particle.t)
    : list Particle.t :=
  fold_left (fun ps deltaTime => updateParticles tr deltaTime ps) dts ps.

Definition countEaten (ds : list Dot.t) : nat :=
  List.length (filter Dot.eaten ds).

(** The calls of [animate()] at the clock readings of [calls], one
    after the other: the world, and the readings at which a frame was
    computed. *)
Fixpoint animateAll (tr : Trig) (calls : list (Q * RandomSource))
    (s : World) : World * list Q :=
  match calls with
  | [] => (s, [])
  | (currentTime, rs) :: rest =>
      let (s1, computed) := animate tr currentTime rs s in
      let (s2, times) := animateAll tr rest s1 in
      (s2, if computed then currentTime :: times else times)
  end.

(** Every element of [l] is at least [gap] after the one before it,
    the first one after [from]. *)
Fixpoint spaced (gap from : Q) (l : list Q) : Prop :=
  match l with
  | [] => True
  | t :: rest => (from + gap <= t)%Q /\ spaced gap t rest
  end.

(** The characters of the claims' model in a world. *)
Definition inBox (w h : Q) (p : Pacman.t) : Prop :=
  (15 <= Pacman.x p)%Q /\ (15 <= Pacman.y p)%Q
  /\ (30 <= w -> Pacman.x p <= w - 15)%Q
  /\ (30 <= h -> Pacman.y p <= h - 15)%Q.

(** How often a completion boost starts, and how often one is
    reverted, in a list of actions. *)
Definition boosts (l : list Animation.Action) : nat :=
  List.length
    (filter (fun a => match a with
                      | Animation.Completion _ => true
                      | _ => false
                      end) l).

Definition reverts (l : list Animation.Action) : nat :=
  List.length
    (filter (fun a => match a with
                      | Animation.Due Animation.CompletionRevert => true
                      | _ => false
                      end) l).

Definition pow2 (n : nat) : Q := inject_Z (2 ^ Z.of_nat n).

(** The band [updateGhosts] keeps a ghost in: from [-14] to the
    width (height) plus 14, as the code computes that sum. *)
Definition inBand (tr : Trig) (w h : Q) (g : Ghost.t) : Prop :=
  (-14 <= Ghost.x g <= round tr (w + 14))%Q
  /\ (-14 <= Ghost.y g <= round tr (h + 14))%Q.

(** A parameter set to run the model with: no rotation at all, and
    exact arithmetic. *)
Definition flatTrig : Trig :=
  mkTrig (fun _ => 1%Q) (fun _ => 0%Q) (fun _ _ => 0%Q) (6283 # 1000)
         (fun q => q).

(** Rounding to the nearest multiple of [1 / 1024], halves upwards: a
    rounding that is not exact, to run the model with. *)
Definition toGrid (q : Q) : Q :=
  inject_Z (Qfloor (q * 1024 + (1 # 2))) / 1024.

Definition gridTrig : Trig :=
  mkTrig (fun _ => 1%Q) (fun _ => 0%Q) (fun _ _ => 0%Q) (6283 # 1000)
         toGrid.

Definition exampleWorld : World :=
  createEntities flatTrig (fun _ => halfRandom)
    (mkWorld 800 600 [] [] [] [] false false 0).

End Simulation.
(** ** Facts about the JavaScript values *)

Section JSFacts.

Lemma len_nonneg {A} (s : list A) : 0 <= len s.
Proof. unfold len. lia. Qed.

Lemma len_app {A} (s t : list A) : len (s ++ t) = len s + len t.
Proof. unfold len. rewrite length_app. lia. Qed.

Lemma Qltb_lt (a b : Q) : Qltb a b = true <-> (a < b)%Q.
Proof.
  unfold Qltb. rewrite negb_true_iff. split.
  - intros H. apply Qnot_le_lt. intros Hle.
    apply Qle_bool_iff in Hle. congruence.
  - intros H. destruct (Qle_bool b a) eqn:E; [|reflexivity].
    apply Qle_bool_iff in E. exfalso. exact (Qlt_not_le _ _ H E).
Qed.

Lemma Qltb_ge (a b : Q) : Qltb a b = false <-> (b <= a)%Q.
Proof.
  unfold Qltb. rewrite negb_false_iff. apply Qle_bool_iff.
Qed.

Lemma Math_max_Qmax (a b : Q) : (Math_max a b == Qmax a b)%Q.
Proof.
  unfold Math_max. destruct (Qle_bool a b) eqn:E.
  - apply Qle_bool_iff in E. symmetry. apply Q.max_r. exact E.
  - assert (H : (b <= a)%Q).
    { apply Qlt_le_weak. apply Qltb_lt. unfold Qltb. now rewrite E. }
    symmetry. apply Q.max_l. exact H.
Qed.

Lemma Math_min_Qmin (a b : Q) : (Math_min a b == Qmin a b)%Q.
Proof.
  unfold Math_min. destruct (Qle_bool a b) eqn:E.
  - apply Qle_bool_iff in E. symmetry. apply Q.min_l. exact E.
  - assert (H : (b <= a)%Q).
    { apply Qlt_le_weak. apply Qltb_lt. unfold Qltb. now rewrite E. }
    symmetry. apply Q.min_r. exact H.
Qed.

Lemma random_range (r : Random01) : (0 <= rval r)%Q /\ (rval r < 1)%Q.
Proof.
  destruct r as [q Hq]. simpl. apply andb_true_iff in Hq.
  destruct Hq as [H0 H1]. split.
  - now apply Qle_bool_iff.
  - now apply Qltb_lt.
Qed.

(** [Math.floor(Math.random() * n)] is an index of an array of [n > 0]
    elements. *)
Lemma randomIndex_lt (r : Random01) (n : nat) :
  (0 < n)%nat -> (randomIndex r n < n)%nat.
Proof.
  intros Hn. unfold randomIndex.
  destruct (random_range r) as [H0 H1].
  set (q := (rval r * inject_Z (Z.of_nat n))%Q).
  assert (Hn' : (0 < inject_Z (Z.of_nat n))%Q).
  { change 0%Q with (inject_Z 0). rewrite <- Zlt_Qlt. lia. }
  assert (Hlo : (0 <= q)%Q).
  { unfold q. apply Qmult_le_0_compat; [exact H0 | now apply Qlt_le_weak]. }
  assert (Hhi : (q < inject_Z (Z.of_nat n))%Q).
  { unfold q.
    setoid_replace (inject_Z (Z.of_nat n)) with (1 * inject_Z (Z.of_nat n))%Q
      at 2 by ring.
    apply Qmult_lt_compat_r; assumption. }
  assert (F0 : 0 <= Qfloor q).
  { change 0 with (Qfloor (inject_Z 0)) at 1.
    - apply Qfloor_resp_le. exact Hlo. }
  assert (F1 : Qfloor q < Z.of_nat n).
  { rewrite Zlt_Qlt. eapply Qle_lt_trans; [apply Qfloor_le | exact Hhi]. }
  lia.
Qed.

Lemma removeAt_perm {A} (d : A) (i : nat) (l : list A) :
  (i < List.length l)%nat -> Permutation (nth i l d :: removeAt i l) l.
Proof.
  revert l. induction i as [|i IH]; intros [|a l] Hi; simpl in Hi; try lia.
  - reflexivity.
  - unfold removeAt in *. simpl.
    rewrite perm_swap. constructor. apply IH. lia.
Qed.

Lemma removeAt_length {A} (i : nat) (l : list A) :
  (i < List.length l)%nat -> S (List.length (removeAt i l)) = List.length l.
Proof.
  intros Hi. unfold removeAt.
  rewrite length_app, length_firstn, length_skipn. lia.
Qed.

End JSFacts.

(** ** The input handler *)

Section InputFacts.

Import TypingTest.

Lemma isRunning_flags (m : Manager) :
  isRunning m = true <->
  isActive (state m) = true /\ isPaused (state m) = false.
Proof.
  unfold isRunning. rewrite andb_true_iff, negb_true_iff. tauto.
Qed.

Lemma handleInput_insertion (now : Z) (v : jsstring) (m : Manager) :
  isRunning m = true -> len (typedText (state m)) <= len v ->
  handleInput now v m = insertion now v m.
Proof.
  intros Hrun Hlen. apply isRunning_flags in Hrun. destruct Hrun as [Ha Hp].
  unfold handleInput, insertion. rewrite Ha, Hp. simpl negb. simpl orb.
  cbv iota.
  assert (E : (len v <? len (typedText (state m))) = false)
    by (apply Z.ltb_ge; exact Hlen).
  rewrite E. cbn [currentText currentPosition incr_totalChars
    incr_correctChars incr_errors set_typed].
  destruct (strictEq _ _); [|reflexivity].
  destruct (len v >=? len (currentText (state m))); reflexivity.
Qed.

Lemma handleInput_deletion (now : Z) (v : jsstring) (m : Manager) :
  isRunning m = true -> len v < len (typedText (state m)) ->
  handleInput now v m =
    (withState m (set_typed v (state m)),
     [StatsUpdate (calculateStats now (withState m (set_typed v (state m))))]).
Proof.
  intros Hrun Hlen. apply isRunning_flags in Hrun. destruct Hrun as [Ha Hp].
  unfold handleInput. rewrite Ha, Hp. simpl.
  apply Z.ltb_lt in Hlen. rewrite Hlen. reflexivity.
Qed.

Lemma handleInput_idle (now : Z) (v : jsstring) (m : Manager) :
  isRunning m = false -> handleInput now v m = (m, []).
Proof.
  unfold isRunning, handleInput. intros H.
  destruct (isActive (state m)), (isPaused (state m));
    simpl in *; try reflexivity; discriminate.
Qed.

(** The last code unit of a non-empty string is read, and is not
    [undefined]. *)
Lemma charAt_last (v : jsstring) :
  v <> [] -> exists c, charAt v (len v - 1) = Some c.
Proof.
  intros Hv. unfold charAt, len.
  destruct v as [|a v]; [congruence|].
  assert (E : (Z.of_nat (List.length (a :: v)) - 1 <? 0) = false)
    by (apply Z.ltb_ge; simpl List.length; lia).
  rewrite E.
  destruct (nth_error (a :: v) (Z.to_nat (Z.of_nat (List.length (a :: v)) - 1)))
    eqn:N; [eauto|].
  apply nth_error_None in N. simpl List.length in N. lia.
Qed.

Lemma charAt_past_end (s : jsstring) (i : Z) :
  len s <= i -> charAt s i = None.
Proof.
  intros H. unfold charAt, len in *.
  destruct (i <? 0) eqn:E; [reflexivity|].
  apply nth_error_None. lia.
Qed.

Lemma charAt_app_last (s : jsstring) (c : ascii) :
  charAt (s ++ [c]) (len (s ++ [c]) - 1) = Some c.
Proof.
  unfold charAt, len. rewrite length_app. simpl List.length.
  replace (Z.of_nat (List.length s + 1) - 1) with (Z.of_nat (List.length s))
    by lia.
  assert (E : (Z.of_nat (List.length s) <? 0) = false)
    by (apply Z.ltb_ge; lia).
  rewrite E, Nat2Z.id.
  rewrite nth_error_app2 by lia. now rewrite Nat.sub_diag.
Qed.

Lemma strictEq_refl (a : option ascii) : strictEq a a = true.
Proof. destruct a; simpl; [apply Ascii.eqb_refl | reflexivity]. Qed.

End InputFacts.

(** ** Keystrokes: one input event *)

Section KeystrokeFacts.

Import TypingTest.

Lemma insertion_typed (now : Z) (v : jsstring) (m : Manager) :
  typedText (state (fst (insertion now v m))) = v
  /\ currentPosition (state (fst (insertion now v m))) = len v
  /\ totalChars (state (fst (insertion now v m))) = totalChars (state m) + 1
  /\ currentText (state (fst (insertion now v m))) = currentText (state m)
  /\ config (fst (insertion now v m)) = config m.
Proof.
  unfold insertion. cbv zeta.
  destruct (strictEq _ _);
    [destruct (len v >=? len (currentText (state m)))|];
    unfold stop, clearTimer; simpl; try destruct (timer m); simpl; auto.
Qed.

Lemma insertion_counters (now : Z) (v : jsstring) (m : Manager) :
  let hit := strictEq (charAt v (len v - 1))
               (charAt (currentText (state m)) (currentPosition (state m))) in
  correctChars (state (fst (insertion now v m)))
    = correctChars (state m) + (if hit then 1 else 0)
  /\ errors (state (fst (insertion now v m)))
    = errors (state m) + (if hit then 0 else 1).
Proof.
  unfold insertion. cbv zeta.
  destruct (strictEq _ _);
    [destruct (len v >=? len (currentText (state m)))|];
    unfold stop, clearTimer; simpl; try destruct (timer m); simpl; lia.
Qed.

Lemma insertion_completes (now : Z) (v : jsstring) (m : Manager) :
  isRunning m = true ->
  let done := strictEq (charAt v (len v - 1))
                (charAt (currentText (state m)) (currentPosition (state m)))
              && (len v >=? len (currentText (state m))) in
  existsb isComplete (snd (insertion now v m)) = done
  /\ isRunning (fst (insertion now v m)) = negb done
  /\ (done = true ->
      isActive (state (fst (insertion now v m))) = false
      /\ timer (fst (insertion now v m)) = false
      /\ endTime (state (fst (insertion now v m))) = Some now)
  /\ (done = false -> timer (fst (insertion now v m)) = timer m).
Proof.
  intros Hrun. apply isRunning_flags in Hrun. destruct Hrun as [Ha Hp].
  unfold insertion, isRunning. cbv zeta.
  destruct (strictEq _ _);
    [destruct (len v >=? len (currentText (state m)))|];
    unfold stop, clearTimer; simpl; destruct (timer m) eqn:Et; simpl;
    rewrite ?Ha, ?Hp, ?Et;
    repeat match goal with
           | |- _ /\ _ => split
           | |- _ -> _ => intro
           end; auto; try discriminate.
Qed.

(** C7: while the session is paused or not active (stopped, completed or
    never started), [handleInput] returns at once: the manager is the one
    it was given, field for field, and no callback is called. *)
Theorem keystroke_ignored_unless_running (now : Z) (v : jsstring)
    (m : Manager) :
  isActive (state m) = false \/ isPaused (state m) = true ->
  handleInput now v m = (m, []).
Proof.
  intros H. apply handleInput_idle. unfold isRunning.
  destruct H as [H | H]; rewrite H; [reflexivity|].
  now rewrite andb_false_r.
Qed.

Lemma keystroke_ignored_witness :
  (isPaused (state Scenario.pausedSession) = true
   /\ handleInput 6000 (JS.lit "Map<") Scenario.pausedSession
      = (Scenario.pausedSession, []))
  /\ (isActive (state Scenario.stoppedSession) = false
      /\ handleInput 6000 (JS.lit "Map<") Scenario.stoppedSession
         = (Scenario.stoppedSession, [])).
Proof.
  split; (split; [reflexivity|]).
  - apply (keystroke_ignored_unless_running 6000 (JS.lit "Map<")
             Scenario.pausedSession).
    right. reflexivity.
  - apply (keystroke_ignored_unless_running 6000 (JS.lit "Map<")
             Scenario.stoppedSession).
    left. reflexivity.
Defined.

(** C5, as the specification words it, fails.  The target is the
    49-character snippet [Map<String, Integer> gameStats = new
    HashMap<>();]; its first 48 characters are typed, then [x] instead
    of the closing [;].  The insertion takes the incorrect-character
    branch, the position equals the length of the target, the session is
    still running and [onComplete] was not called. *)
Lemma wrong_last_character_leaves_session_running :
  let m := Scenario.oneToGo in
  let v := typedText (state m) ++ JS.lit "x" in
  let r := handleInput 11000 v m in
  isRunning m = true
  /\ len v = len (typedText (state m)) + 1
  /\ currentPosition (state (fst r)) = len (currentText (state (fst r)))
  /\ isRunning (fst r) = true
  /\ existsb isComplete (snd r) = false.
Proof. vm_compute. repeat split. Qed.

(** C5, amended: after an insertion into a running session the test is
    completed (the session stopped, its timer cleared, [onComplete]
    called) exactly when the new character equals the expected one and
    the new position is at or past the end of the target.  After a wrong
    character the session keeps running, also at the end of the target. *)
Theorem completion_needs_correct_character (now : Z) (v : jsstring)
    (m : Manager) :
  isRunning m = true -> len (typedText (state m)) <= len v ->
  let hit := strictEq (charAt v (len v - 1))
               (charAt (currentText (state m)) (currentPosition (state m))) in
  let atEnd := len v >=? len (currentText (state m)) in
  let r := handleInput now v m in
  currentPosition (state (fst r)) = len v
  /\ existsb isComplete (snd r) = hit && atEnd
  /\ isRunning (fst r) = negb (hit && atEnd)
  /\ (hit && atEnd = true ->
      isActive (state (fst r)) = false /\ timer (fst r) = false
      /\ endTime (state (fst r)) = Some now)
  /\ (hit = false -> isRunning (fst r) = true /\ timer (fst r) = timer m).
Proof.
  intros Hrun Hlen. cbv zeta.
  rewrite (handleInput_insertion now v m Hrun Hlen).
  destruct (insertion_typed now v m) as (_ & Hpos & _).
  destruct (insertion_completes now v m Hrun) as (Hc & Hr & Hd & Hn).
  cbv zeta in Hc, Hr, Hd, Hn.
  split; [exact Hpos|]. split; [exact Hc|]. split; [exact Hr|].
  split; [exact Hd|].
  intros E. rewrite E in Hr, Hn. split; [exact Hr | now apply Hn].
Qed.

Lemma completion_needs_correct_character_witness :
  let m := Scenario.oneToGo in
  let v := typedText (state m) ++ JS.lit ";" in
  let r := handleInput 11000 v m in
  currentPosition (state (fst r)) = len v
  /\ existsb isComplete (snd r) = true
  /\ isRunning (fst r) = false.
Proof.
  cbv zeta.
  assert (Hrun : isRunning Scenario.oneToGo = true) by reflexivity.
  assert (Hlen : len (typedText (state Scenario.oneToGo))
                 <= len (typedText (state Scenario.oneToGo) ++ JS.lit ";"))
    by (vm_compute; discriminate).
  destruct (completion_needs_correct_character 11000
              (typedText (state Scenario.oneToGo) ++ JS.lit ";")
              Scenario.oneToGo Hrun Hlen) as (H1 & H2 & H3 & _).
  split; [exact H1 | split; [exact H2 | exact H3]].
Defined.

(** C6: an input event that makes the text grow by more than one
    character is one insertion: [totalChars] goes up by one, the last
    character of the new value alone is compared with the character
    expected at the old position and decides between [correctChars] and
    [errors], and the typed text and the position jump to the whole new
    value. *)
Theorem multi_character_insertion (now : Z) (v : jsstring) (m : Manager) :
  isRunning m = true -> len (typedText (state m)) + 1 < len v ->
  let s := state m in
  let s' := state (fst (handleInput now v m)) in
  let hit := strictEq (charAt v (len v - 1))
               (charAt (currentText s) (currentPosition s)) in
  totalChars s' = totalChars s + 1
  /\ correctChars s' = correctChars s + (if hit then 1 else 0)
  /\ errors s' = errors s + (if hit then 0 else 1)
  /\ typedText s' = v
  /\ currentPosition s' = len v
  /\ (forall w : jsstring,
        len (typedText s) <= len w ->
        charAt w (len w - 1) = charAt v (len v - 1) ->
        countersEq (state (fst (handleInput now w m))) s').
Proof.
  intros Hrun Hlen. cbv zeta.
  assert (Hle : len (typedText (state m)) <= len v) by lia.
  rewrite (handleInput_insertion now v m Hrun Hle).
  destruct (insertion_typed now v m) as (Ht & Hp & Htot & _).
  destruct (insertion_counters now v m) as (Hc & He). cbv zeta in Hc, He.
  repeat split; auto.
  - rewrite (handleInput_insertion now w m Hrun H).
    destruct (insertion_counters now w m) as (Hc' & _). cbv zeta in Hc'.
    rewrite Hc', Hc, H0. reflexivity.
  - rewrite (handleInput_insertion now w m Hrun H).
    destruct (insertion_typed now w m) as (_ & _ & Htot' & _).
    rewrite Htot', Htot. reflexivity.
  - rewrite (handleInput_insertion now w m Hrun H).
    destruct (insertion_counters now w m) as (_ & He'). cbv zeta in He'.
    rewrite He', He, H0. reflexivity.
Qed.

Lemma multi_character_insertion_witness :
  let m := Scenario.threeTyped in
  let v := JS.lit "Map<String" in
  let s' := state (fst (handleInput 3000 v m)) in
  totalChars s' = 4 /\ correctChars s' = 3 /\ errors s' = 1
  /\ typedText s' = v /\ currentPosition s' = 10.
Proof.
  cbv zeta.
  assert (Hrun : isRunning Scenario.threeTyped = true) by reflexivity.
  assert (Hlen : len (typedText (state Scenario.threeTyped)) + 1
                 < len (JS.lit "Map<String"))
    by (vm_compute; reflexivity).
  destruct (multi_character_insertion 3000 (JS.lit "Map<String")
              Scenario.threeTyped Hrun Hlen) as (H1 & H2 & H3 & H4 & H5 & _).
  split; [exact H1 | split; [exact H2 | split; [exact H3 |]]].
  split; [exact H4 | exact H5].
Defined.

Lemma ratio_above_100 (a b : Z) :
  0 < b -> b < a -> (100 < inject_Z a / inject_Z b * 100)%Q.
Proof.
  intros Hb Hab.
  assert (Hb' : (0 < inject_Z b)%Q).
  { change 0%Q with (inject_Z 0). now rewrite <- Zlt_Qlt. }
  assert (H1 : (1 < inject_Z a / inject_Z b)%Q).
  { apply Qlt_shift_div_l; [exact Hb'|].
    rewrite Qmult_1_l. now rewrite <- Zlt_Qlt. }
  setoid_replace 100%Q with (1 * 100)%Q at 1 by ring.
  apply Qmult_lt_compat_r; [reflexivity | exact H1].
Qed.

(** C10: in a running session whose position is at or past the end of
    the target, an insertion of a non-empty value reads [undefined] as
    the expected character and so counts as an error: [totalChars] and
    [errors] go up by one, [correctChars] stays, the position follows the
    input past the end, the session keeps running, [onComplete] is not
    called, and the progress is above [100] once the input is longer than
    a non-empty target. *)
Theorem keystroke_past_the_end (now : Z) (v : jsstring) (m : Manager) :
  isRunning m = true ->
  len (currentText (state m)) <= currentPosition (state m) ->
  len (typedText (state m)) <= len v ->
  v <> [] ->
  let s := state m in
  let r := handleInput now v m in
  let s' := state (fst r) in
  totalChars s' = totalChars s + 1
  /\ errors s' = errors s + 1
  /\ correctChars s' = correctChars s
  /\ typedText s' = v
  /\ currentPosition s' = len v
  /\ (currentPosition s = len (typedText s) ->
      currentPosition s <= currentPosition s'
      /\ len (currentText s') <= currentPosition s')
  /\ (currentPosition s = len (typedText s) -> len (typedText s) < len v ->
      len (currentText s') < currentPosition s')
  /\ isRunning (fst r) = true
  /\ timer (fst r) = timer m
  /\ existsb isComplete (snd r) = false
  /\ (0 < len (currentText s) -> len (currentText s) < len v ->
      exists q, getProgress (fst r) = Finite q /\ (100 < q)%Q).
Proof.
  intros Hrun Hend Hlen Hv. cbv zeta.
  rewrite (handleInput_insertion now v m Hrun Hlen).
  destruct (insertion_typed now v m) as (Ht & Hp & Htot & Htxt & _).
  destruct (insertion_counters now v m) as (Hc & He). cbv zeta in Hc, He.
  destruct (insertion_completes now v m Hrun) as (Hd & Hr & _ & Hn).
  cbv zeta in Hd, Hr, Hn.
  destruct (charAt_last v Hv) as [c Hlast].
  rewrite (charAt_past_end _ _ Hend), Hlast in *. simpl in *.
  repeat split; auto; try lia.
  - rewrite Htxt, Hp. lia.
  - intros Hinv Hgrow. rewrite Htxt, Hp. lia.
  - intros Hpos Hlong. unfold getProgress. rewrite Hp, Htxt.
    unfold js_div.
    destruct (Qeq_bool (inject_Z (len (currentText (state m)))) 0) eqn:E.
    + apply Qeq_bool_eq in E. change 0%Q with (inject_Z 0) in E.
      rewrite inject_Z_injective in E. unfold len in *. lia.
    + eexists. split; [reflexivity|].
      apply ratio_above_100; unfold len in *; lia.
Qed.

Lemma keystroke_past_the_end_witness :
  let m := fst (handleInput 11000
                  (typedText (state Scenario.oneToGo) ++ JS.lit "x")
                  Scenario.oneToGo) in
  let v := typedText (state m) ++ JS.lit "y" in
  let r := handleInput 11200 v m in
  totalChars (state (fst r)) = 50
  /\ errors (state (fst r)) = 2
  /\ correctChars (state (fst r)) = 48
  /\ currentPosition (state (fst r)) = 50
  /\ isRunning (fst r) = true
  /\ existsb isComplete (snd r) = false
  /\ getProgress (fst r) = Finite (5000 # 49).
Proof.
  cbv zeta.
  set (m := fst (handleInput 11000
                  (typedText (state Scenario.oneToGo) ++ JS.lit "x")
                  Scenario.oneToGo)).
  assert (Hrun : isRunning m = true) by reflexivity.
  assert (Hend : len (currentText (state m)) <= currentPosition (state m))
    by (vm_compute; discriminate).
  assert (Hlen : len (typedText (state m))
                 <= len (typedText (state m) ++ JS.lit "y"))
    by (vm_compute; discriminate).
  assert (Hv : typedText (state m) ++ JS.lit "y" <> [])
    by (vm_compute; discriminate).
  destruct (keystroke_past_the_end 11200
              (typedText (state m) ++ JS.lit "y") m Hrun Hend Hlen Hv)
    as (H1 & H2 & H3 & _ & H5 & _ & _ & H8 & _ & H10 & _).
  split; [exact H1 | split; [exact H2 | split; [exact H3 |]]].
  split; [exact H5 | split; [exact H8 | split; [exact H10 |]]].
  reflexivity.
Defined.

End KeystrokeFacts.

(** ** The metrics *)

Section MetricsFacts.

Import TypingTest.

Lemma Math_max_ge_l (a b : Q) : (a <= Math_max a b)%Q.
Proof. rewrite Math_max_Qmax. apply Q.le_max_l. Qed.

Lemma Math_max_ge_r (a b : Q) : (b <= Math_max a b)%Q.
Proof. rewrite Math_max_Qmax. apply Q.le_max_r. Qed.

(** The words per minute of [calculateStats], from the elapsed seconds
    and the count of correct characters. *)
Lemma wpm_formula (now : Z) (m : Manager) :
  (wpm (calculateStats now m)
   == Qmax 0 ((inject_Z (correctChars (state m)) / 5)
              / Qmax (elapsedSeconds now m / 60) (1 / 60)))%Q.
Proof.
  unfold elapsedSeconds, calculateStats. cbn [wpm timeElapsed].
  rewrite Math_max_Qmax.
  apply Q.max_compat; [reflexivity|].
  apply Qdiv_comp; [reflexivity|]. apply Math_max_Qmax.
Qed.

(** C4, as the specification words it, fails: three characters typed in
    0.6 seconds give 36 words per minute, on a floor of one second;
    the floor of [1/3600] minute of the specification gives 60. *)
Lemma minutes_floor_is_not_one_3600th :
  correctChars (state Scenario.threeTyped) = 3
  /\ (elapsedSeconds 1600 Scenario.threeTyped == 6 # 10)%Q
  /\ (wpm (calculateStats 1600 Scenario.threeTyped) == 36)%Q
  /\ ~ (wpm (calculateStats 1600 Scenario.threeTyped)
        == specWpm (correctChars (state Scenario.threeTyped))
                   (elapsedSeconds 1600 Scenario.threeTyped))%Q.
Proof.
  repeat split; try (vm_compute; reflexivity).
  vm_compute. discriminate.
Qed.

(** C4, amended: the elapsed minutes are [max(elapsedSeconds / 60, 1/60)],
    floored at one second and not at [1/3600] minute; the words per
    minute are [max(0, (correctChars / 5) / minutes)], never negative;
    the elapsed seconds are the clock's distance from [startTime] in
    milliseconds over [1000], and [0] before the start; and [50] correct
    characters in [60] seconds are [10] words per minute. *)
Theorem wpm_from_minutes_floored_at_one_second (now : Z) (m : Manager) :
  let e := elapsedSeconds now m in
  let minutes := Qmax (e / 60) (1 / 60) in
  let w := wpm (calculateStats now m) in
  (w == Qmax 0 ((inject_Z (correctChars (state m)) / 5) / minutes))%Q
  /\ (1 / 60 <= minutes)%Q
  /\ (0 <= w)%Q
  /\ (forall t : Z, startTime (state m) = Some t -> t <> 0 ->
        (e == inject_Z (now - t) / 1000)%Q)
  /\ (startTime (state m) = None -> (e == 0)%Q)
  /\ (correctChars (state m) = 50 -> (e == 60)%Q -> (w == 10)%Q).
Proof.
  cbv zeta. split; [apply wpm_formula|].
  split; [apply Q.le_max_r|].
  split; [rewrite wpm_formula; apply Q.le_max_l|].
  split.
  { intros t Ht Hnz. unfold elapsedSeconds, calculateStats.
    cbn [timeElapsed]. rewrite Ht.
    destruct (t =? 0) eqn:E; [apply Z.eqb_eq in E; contradiction|].
    reflexivity. }
  split.
  { intros Hn. unfold elapsedSeconds, calculateStats. cbn [timeElapsed].
    rewrite Hn. reflexivity. }
  intros Hc He. rewrite wpm_formula, Hc, He. vm_compute. reflexivity.
Qed.

(** The specification's example, on a session: fifty correct characters,
    read sixty seconds after the start. *)
Example fifty_characters_in_a_minute :
  correctChars (state Scenario.fiftyTyped) = 50
  /\ (elapsedSeconds 61000 Scenario.fiftyTyped == 60)%Q
  /\ (wpm (calculateStats 61000 Scenario.fiftyTyped) == 10)%Q.
Proof. repeat split; vm_compute; reflexivity. Qed.

End MetricsFacts.

(** ** The lifecycle: invariant, counters, stopping *)

Section LifecycleFacts.

Import TypingTest.

Lemma state_clearTimer (m : Manager) : state (clearTimer m) = state m.
Proof. unfold clearTimer. destruct (timer m); reflexivity. Qed.

Lemma timer_clearTimer (m : Manager) : timer (clearTimer m) = false.
Proof. unfold clearTimer. destruct (timer m) eqn:E; simpl; auto. Qed.

Lemma state_startTimer (m : Manager) : state (startTimer m) = state m.
Proof. unfold startTimer. simpl. apply state_clearTimer. Qed.

Lemma clearTimer_off (m : Manager) : timer m = false -> clearTimer m = m.
Proof. unfold clearTimer. intros E. now rewrite E. Qed.

Lemma state_stop (now : Z) (m : Manager) :
  state (stop now m) = set_endTime (Some now) (set_isActive false (state m)).
Proof. unfold stop. now rewrite state_clearTimer. Qed.

Lemma state_completeTest (now : Z) (m : Manager) :
  state (fst (completeTest now m))
  = set_endTime (Some now) (set_isActive false (state m)).
Proof. unfold completeTest. simpl. apply state_stop. Qed.

Lemma state_resetState (m : Manager) :
  typedText (state (resetState m)) = []
  /\ currentPosition (state (resetState m)) = 0
  /\ correctChars (state (resetState m)) = 0
  /\ totalChars (state (resetState m)) = 0
  /\ errors (state (resetState m)) = 0
  /\ isActive (state (resetState m)) = false
  /\ timeRemaining (state (resetState m)) = time (config m) * 60
  /\ currentText (state (resetState m)) = currentText (state m).
Proof. unfold resetState. rewrite state_clearTimer. simpl. tauto. Qed.

Lemma typingData_fields (a b : State) :
  typingData a = typingData b ->
  typedText a = typedText b /\ currentPosition a = currentPosition b
  /\ correctChars a = correctChars b /\ totalChars a = totalChars b
  /\ errors a = errors b.
Proof. unfold typingData. intros E. injection E. auto. Qed.

Lemma typingData_tick (now : Z) (m : Manager) :
  typingData (state (fst (tick now m))) = typingData (state m).
Proof.
  unfold tick, timerCallback.
  destruct (timer m); [|reflexivity].
  destruct (negb (isPaused (state m)) && isActive (state m));
    [|reflexivity].
  cbn [state withState set_timeRemaining timeRemaining].
  destruct (timeRemaining (state m) - 1 <=? 0).
  - rewrite state_completeTest. reflexivity.
  - reflexivity.
Qed.

Lemma typingData_lifecycle (o : Op) (m : Manager) :
  resetsState o = false -> (forall now v, o <> OpInput now v) ->
  typingData (state (fst (apply o m))) = typingData (state m).
Proof.
  intros Hr Hi. destruct o; simpl in Hr; try discriminate; cbn [apply fst].
  - unfold start. cbn [fst]. rewrite state_startTimer. reflexivity.
  - unfold pause. rewrite state_clearTimer. reflexivity.
  - unfold resume. rewrite state_startTimer. reflexivity.
  - rewrite state_stop. reflexivity.
  - exfalso. eapply Hi. reflexivity.
  - apply typingData_tick.
Qed.

(** One input event, whatever the phase: the buffer and the position
    move together, and each counter stays or goes up by one. *)
Lemma handleInput_counters (now : Z) (v : jsstring) (m : Manager) :
  let s := state m in
  let s' := state (fst (handleInput now v m)) in
  (typedText s' = typedText s /\ currentPosition s' = currentPosition s
   \/ typedText s' = v /\ currentPosition s' = len v)
  /\ (countersEq s s'
      \/ totalChars s' = totalChars s + 1
         /\ (correctChars s' = correctChars s + 1 /\ errors s' = errors s
             \/ correctChars s' = correctChars s
                /\ errors s' = errors s + 1)).
Proof.
  cbv zeta. destruct (isRunning m) eqn:Hrun.
  - destruct (Z.lt_ge_cases (len v) (len (typedText (state m)))) as [Hd | Hi].
    + rewrite (handleInput_deletion now v m Hrun Hd). simpl.
      split; [right; auto | left; repeat split].
    + rewrite (handleInput_insertion now v m Hrun Hi).
      destruct (insertion_typed now v m) as (Ht & Hp & Htot & _).
      destruct (insertion_counters now v m) as (Hc & He).
      cbv zeta in Hc, He.
      split; [right; auto|]. right. split; [exact Htot|].
      destruct (strictEq _ _); [left | right]; lia.
  - rewrite (handleInput_idle now v m Hrun). simpl.
    split; left; repeat split.
Qed.

Lemma Invariant_apply (o : Op) (m : Manager) :
  Invariant m -> Invariant (fst (apply o m)).
Proof.
  intros (Hpos & Hct & Herr). unfold Invariant.
  destruct (resetsState o) eqn:Hr.
  - assert (Hz : typedText (state (fst (apply o m))) = []
                 /\ currentPosition (state (fst (apply o m))) = 0
                 /\ correctChars (state (fst (apply o m))) = 0
                 /\ totalChars (state (fst (apply o m))) = 0
                 /\ errors (state (fst (apply o m))) = 0).
    { destruct o; simpl in Hr; try discriminate; simpl.
      - unfold configure.
        destruct (state_resetState
                    (generateTestText rs
                       {| config := c; state := state m; timer := timer m |}))
          as (H1 & H2 & H3 & H4 & H5 & _). auto.
      - unfold reset, generateTestText. simpl.
        destruct (state_resetState (stop now m))
          as (H1 & H2 & H3 & H4 & H5 & _). auto. }
    destruct Hz as (H1 & H2 & H3 & H4 & H5).
    rewrite H1, H2, H3, H4, H5. unfold len. simpl. lia.
  - destruct o; try (simpl in Hr; discriminate).
    5: { simpl apply.
         destruct (handleInput_counters now inputValue m) as (Hb & Hc).
         cbv zeta in Hb, Hc. unfold countersEq in Hc.
         split; [|lia].
         destruct Hb as [(E1 & E2) | (E1 & E2)]; rewrite E1, E2; auto. }
    all: match goal with
         | |- context [apply ?o ?m0] =>
             assert (E : typingData (state (fst (apply o m0)))
                         = typingData (state m0))
               by (apply typingData_lifecycle;
                   [reflexivity | intros; discriminate])
         end;
      destruct (typingData_fields _ _ E) as (E1 & E2 & E3 & E4 & E5);
      rewrite E1, E2, E3, E4, E5; auto.
Qed.

Lemma Invariant_initial : Invariant initialManager.
Proof. unfold Invariant, len. simpl. lia. Qed.

Lemma Reachable_Invariant (m : Manager) : Reachable m -> Invariant m.
Proof.
  induction 1 as [|o m _ IH]; [apply Invariant_initial|].
  now apply Invariant_apply.
Qed.

Lemma Reachable_run (ops : list Op) (m : Manager) :
  Reachable m -> Reachable (fst (run ops m)).
Proof.
  revert m. induction ops as [|o ops IH]; intros m Hm; [exact Hm|].
  simpl. destruct (apply o m) as [m1 e1] eqn:E1.
  specialize (IH m1). destruct (run ops m1) as [m2 e2]. simpl in *.
  apply IH. change m1 with (fst (m1, e1)). rewrite <- E1.
  now constructor.
Qed.

Lemma counters_apply (o : Op) (m : Manager) :
  resetsState o = false -> countersLe (state m) (state (fst (apply o m))).
Proof.
  intros Hr. unfold countersLe. destruct o; try (simpl in Hr; discriminate).
  5: { simpl apply.
       destruct (handleInput_counters now inputValue m) as (_ & Hc).
       cbv zeta in Hc. unfold countersEq in Hc. lia. }
  all: match goal with
       | |- context [apply ?o ?m0] =>
           assert (E : typingData (state (fst (apply o m0)))
                       = typingData (state m0))
             by (apply typingData_lifecycle;
                 [reflexivity | intros; discriminate])
       end;
    destruct (typingData_fields _ _ E) as (_ & _ & E3 & E4 & E5);
    rewrite E3, E4, E5; lia.
Qed.

Lemma counters_reset (o : Op) (m : Manager) :
  resetsState o = true ->
  correctChars (state (fst (apply o m))) = 0
  /\ totalChars (state (fst (apply o m))) = 0
  /\ errors (state (fst (apply o m))) = 0.
Proof.
  intros Hr. destruct o; simpl in Hr; try discriminate; simpl.
  - unfold configure.
    destruct (state_resetState
                (generateTestText rs
                   {| config := c; state := state m; timer := timer m |}))
      as (_ & _ & H3 & H4 & H5 & _). auto.
  - unfold reset, generateTestText. simpl.
    destruct (state_resetState (stop now m))
      as (_ & _ & H3 & H4 & H5 & _). auto.
Qed.

(** C2, as the specification words it, fails on [reset] (and on
    [configure]): in the session configured, started and given the
    three correct keystrokes [M], [a], [p], [totalChars] and
    [correctChars] are at three, and [reset] puts them back to zero. *)
Lemma reset_lowers_the_counters :
  let m := Scenario.threeTyped in
  let m' := fst (apply (OpReset 5000 (Scenario.constantSource zeroRandom))
                       m) in
  Reachable m
  /\ totalChars (state m) = 3 /\ correctChars (state m) = 3
  /\ totalChars (state m') = 0 /\ correctChars (state m') = 0
  /\ ~ countersLe (state m) (state m').
Proof.
  cbv zeta. split.
  { unfold Scenario.threeTyped. apply Reachable_run.
    unfold Scenario.started. apply Reachable_run. constructor. }
  repeat split; try reflexivity.
  intros (H & _). vm_compute in H. apply H. reflexivity.
Qed.

(** C2, amended: a manager the program can hold satisfies the invariant
    (the position is the length of the typed text, the correct
    characters are at most the keystrokes, the errors are not negative),
    and so does the manager after any operation or timer tick.  Under
    [start], [pause], [resume], [stop], an input event and a tick no
    counter decreases, and a deletion leaves the three unchanged;
    [configure] and [reset] set the three to zero. *)
Theorem invariant_and_counters (m : Manager) (o : Op) :
  Reachable m ->
  let m' := fst (apply o m) in
  Invariant m
  /\ Invariant m'
  /\ (resetsState o = false -> countersLe (state m) (state m'))
  /\ (resetsState o = true ->
      correctChars (state m') = 0 /\ totalChars (state m') = 0
      /\ errors (state m') = 0)
  /\ (forall now v, o = OpInput now v ->
      len v < len (typedText (state m)) ->
      countersEq (state m) (state m')
      /\ (isRunning m = true ->
          typedText (state m') = v /\ currentPosition (state m') = len v)).
Proof.
  intros Hm. cbv zeta.
  pose proof (Reachable_Invariant m Hm) as Hinv.
  split; [exact Hinv|]. split; [now apply Invariant_apply|].
  split; [apply counters_apply|]. split; [apply counters_reset|].
  intros now v -> Hdel. simpl apply.
  destruct (isRunning m) eqn:Hrun.
  - rewrite (handleInput_deletion now v m Hrun Hdel). simpl.
    repeat split.
  - rewrite (handleInput_idle now v m Hrun). simpl.
    split; [repeat split | discriminate].
Qed.

Lemma invariant_and_counters_witness :
  let m := Scenario.threeTyped in
  let m' := fst (apply (OpInput 2000 (JS.lit "Ma")) m) in
  Invariant m' /\ countersEq (state m) (state m')
  /\ typedText (state m') = JS.lit "Ma" /\ currentPosition (state m') = 2.
Proof.
  cbv zeta.
  assert (Hm : Reachable Scenario.threeTyped).
  { unfold Scenario.threeTyped. apply Reachable_run.
    unfold Scenario.started. apply Reachable_run. constructor. }
  destruct (invariant_and_counters Scenario.threeTyped
              (OpInput 2000 (JS.lit "Ma")) Hm) as (_ & H2 & _ & _ & H5).
  split; [exact H2|].
  assert (Hdel : len (JS.lit "Ma")
                 < len (typedText (state Scenario.threeTyped)))
    by (vm_compute; reflexivity).
  destruct (H5 2000 (JS.lit "Ma") eq_refl Hdel) as (H6 & H7).
  split; [exact H6 | exact (H7 eq_refl)].
Defined.


(** *** Stopping *)

Lemma stop_stop (t1 t2 : Z) (m : Manager) :
  stop t2 (stop t1 m) = stop t2 m.
Proof.
  unfold stop, clearTimer. destruct m as [c s b].
  destruct b; reflexivity.
Qed.

Lemma stop_inactive (now : Z) (m : Manager) :
  isActive (state (stop now m)) = false.
Proof. rewrite state_stop. reflexivity. Qed.

(** A callback that runs on a session that is not active does nothing. *)
Lemma timerCallback_inactive (now : Z) (m : Manager) :
  isActive (state m) = false -> timerCallback now m = (m, []).
Proof.
  intros H. unfold timerCallback. rewrite H. now rewrite andb_false_r.
Qed.

(** While no operation restarts it, a session that is not active stays
    so and keeps its remaining time. *)
Lemma inactive_apply (o : Op) (m : Manager) :
  restarts o = false -> isActive (state m) = false ->
  isActive (state (fst (apply o m))) = false
  /\ timeRemaining (state (fst (apply o m))) = timeRemaining (state m).
Proof.
  intros Hr Ha. destruct o; simpl in Hr; try discriminate; cbn [apply fst].
  - unfold pause. rewrite state_clearTimer. simpl. auto.
  - unfold resume. rewrite state_startTimer. simpl. auto.
  - rewrite state_stop. simpl. auto.
  - rewrite handleInput_idle; [auto|].
    unfold isRunning. now rewrite Ha.
  - unfold tick. destruct (timer m); [|auto].
    rewrite timerCallback_inactive by exact Ha. auto.
Qed.

Lemma inactive_run (ops : list Op) (m : Manager) :
  forallb (fun o => negb (restarts o)) ops = true ->
  isActive (state m) = false ->
  isActive (state (fst (run ops m))) = false
  /\ timeRemaining (state (fst (run ops m))) = timeRemaining (state m).
Proof.
  revert m. induction ops as [|o ops IH]; intros m Hops Ha; [auto|].
  simpl in Hops. apply andb_true_iff in Hops. destruct Hops as [Ho Hops].
  apply negb_true_iff in Ho.
  destruct (inactive_apply o m Ho Ha) as [Ha1 Ht1].
  simpl. destruct (apply o m) as [m1 e1]. simpl in Ha1, Ht1.
  destruct (IH m1 Hops Ha1) as [Ha2 Ht2].
  destruct (run ops m1) as [m2 e2]. simpl in *. split; congruence.
Qed.

(** C8: [stop] is idempotent.  A second [stop] changes nothing but the
    [endTime] stamp, which no method reads and which takes the second
    clock reading: two calls at the same reading give the manager of one
    call, two calls give the manager of one call made at the second
    reading, and apart from the stamp two calls give the manager of the
    first.  [stop] leaves no interval registered, so a tick finds no
    callback to run, and a callback that ran all the same would find the
    session not active and do nothing; [timeRemaining] keeps its value
    through every later pause, resume, stop, input event and tick. *)
Theorem stop_idempotent_and_timer_cancelled (t1 t2 : Z) (m : Manager) :
  stop t1 (stop t1 m) = stop t1 m
  /\ stop t2 (stop t1 m) = stop t2 m
  /\ withoutEndTime (stop t2 (stop t1 m)) = withoutEndTime (stop t1 m)
  /\ endTime (state (stop t2 (stop t1 m))) = Some t2
  /\ timer (stop t1 m) = false
  /\ timeRemaining (state (stop t1 m)) = timeRemaining (state m)
  /\ (forall now, tick now (stop t1 m) = (stop t1 m, []))
  /\ (forall now, timerCallback now (stop t1 m) = (stop t1 m, []))
  /\ (forall ops : list Op,
        forallb (fun o => negb (restarts o)) ops = true ->
        timeRemaining (state (fst (run ops (stop t1 m))))
        = timeRemaining (state m)).
Proof.
  split; [apply stop_stop|]. split; [apply stop_stop|].
  split.
  { unfold withoutEndTime, stop, clearTimer. destruct m as [c s b].
    destruct b; reflexivity. }
  split; [rewrite state_stop; reflexivity|].
  split; [apply timer_clearTimer|].
  split; [rewrite state_stop; reflexivity|].
  split.
  { intros now. unfold tick.
    replace (timer (stop t1 m)) with false
      by (symmetry; apply timer_clearTimer).
    reflexivity. }
  split.
  { intros now. apply timerCallback_inactive, stop_inactive. }
  intros ops Hops.
  destruct (inactive_run ops (stop t1 m) Hops (stop_inactive t1 m))
    as [_ Ht].
  rewrite Ht, state_stop. reflexivity.
Qed.

Example stop_twice_on_a_running_session :
  stop 5000 (stop 5000 Scenario.threeTyped) = stop 5000 Scenario.threeTyped
  /\ timeRemaining
       (state (fst (run [OpTick 6000; OpResume; OpTick 7000;
                         OpInput 7500 (JS.lit "Map<"); OpTick 8000]
                        (stop 5000 Scenario.threeTyped)))) = 180.
Proof. split; vm_compute; reflexivity. Qed.

End LifecycleFacts.

(** ** Typing the target text to its end *)

Section CompletionFacts.

Import TypingTest.

Lemma run_app (a b : list Op) (m : Manager) :
  run (a ++ b) m
  = (fst (run b (fst (run a m))),
     snd (run a m) ++ snd (run b (fst (run a m)))).
Proof.
  revert m. induction a as [|o a IH]; intros m; simpl.
  - now destruct (run b m).
  - destruct (apply o m) as [m1 e1]. rewrite IH.
    destruct (run a m1) as [m2 e2]. simpl.
    now rewrite app_assoc.
Qed.

Lemma run_single (o : Op) (m : Manager) :
  run [o] m = (fst (apply o m), snd (apply o m) ++ []).
Proof. simpl. now destruct (apply o m). Qed.

Lemma firstn_succ {A} (k : nat) (l : list A) :
  (k < List.length l)%nat ->
  exists c, nth_error l k = Some c /\ firstn (S k) l = firstn k l ++ [c].
Proof.
  revert l. induction k as [|k IH]; intros [|a l] Hk; simpl in Hk; try lia.
  - exists a. auto.
  - destruct (IH l) as (c & Hc & Hf); [lia|].
    exists c. split; [exact Hc|]. simpl. simpl in Hf. now rewrite Hf.
Qed.

Lemma typeThrough_succ (clock : nat -> Z) (m : Manager) (k : nat) :
  (Z.to_nat (currentPosition (state m)) <= k)%nat ->
  typeThrough clock m (S k)
  = typeThrough clock m k
    ++ [OpInput (clock (S k))
          (typedText (state m)
             ++ skipn (Z.to_nat (currentPosition (state m)))
                  (firstn (S k) (currentText (state m))))].
Proof.
  intros Hk. unfold typeThrough.
  set (p := Z.to_nat (currentPosition (state m))) in *.
  replace (S k - p)%nat with (S (k - p)) by lia.
  rewrite seq_S, map_app. cbn [map].
  replace (S p + (k - p))%nat with (S k) by lia. reflexivity.
Qed.

(** A session whose keystrokes all matched reports an accuracy of 100. *)
Lemma accuracy_all_correct (now : Z) (m : Manager) :
  correctChars (state m) = totalChars (state m) ->
  (accuracy (calculateStats now m) == 100)%Q.
Proof.
  intros E. unfold calculateStats. cbn [accuracy]. rewrite E.
  destruct (totalChars (state m) >? 0) eqn:Hpos.
  - assert (Hq : (inject_Z (totalChars (state m))
                  / inject_Z (totalChars (state m)) * 100 == 100)%Q).
    { field. change 0%Q with (inject_Z 0). rewrite inject_Z_injective.
      apply Z.gtb_lt in Hpos. lia. }
    rewrite Math_max_Qmax, Math_min_Qmin, Hq. reflexivity.
  - reflexivity.
Qed.

(** One keystroke that matches the expected character of a running
    session whose buffer ends at the position. *)
Lemma matching_keystroke (now : Z) (m : Manager) (c : ascii) :
  isRunning m = true ->
  currentPosition (state m) = len (typedText (state m)) ->
  nth_error (currentText (state m)) (List.length (typedText (state m)))
    = Some c ->
  let v := typedText (state m) ++ [c] in
  let m1 := withState m
              (set_typed v (incr_correctChars (incr_totalChars (state m)))) in
  handleInput now v m
  = if len v >=? len (currentText (state m))
    then (stop now m1,
          [CorrectKey; Complete (calculateStats now (stop now m1))])
    else (m1, [CorrectKey; StatsUpdate (calculateStats now m1)]).
Proof.
  intros Hrun Hpos Hc. cbv zeta.
  rewrite handleInput_insertion;
    [|exact Hrun | rewrite len_app; pose proof (len_nonneg [c]); lia].
  unfold insertion. rewrite charAt_app_last.
  assert (E : charAt (currentText (state m)) (currentPosition (state m))
              = Some c).
  { unfold charAt. rewrite Hpos. unfold len.
    assert (F : (Z.of_nat (List.length (typedText (state m))) <? 0) = false)
      by (apply Z.ltb_ge; lia).
    rewrite F, Nat2Z.id. exact Hc. }
  rewrite E, strictEq_refl. reflexivity.
Qed.

(** The session after the characters up to position [k] were typed,
    short of the end of the target. *)
Lemma typed_short_of_the_end (clock : nat -> Z) (m : Manager) (k : nat) :
  isRunning m = true ->
  currentPosition (state m) = len (typedText (state m)) ->
  (Z.to_nat (currentPosition (state m)) <= k)%nat ->
  (k < List.length (currentText (state m)))%nat ->
  let p := Z.to_nat (currentPosition (state m)) in
  let r := run (typeThrough clock m k) m in
  currentText (state (fst r)) = currentText (state m)
  /\ typedText (state (fst r))
     = typedText (state m) ++ skipn p (firstn k (currentText (state m)))
  /\ currentPosition (state (fst r)) = Z.of_nat k
  /\ isRunning (fst r) = true
  /\ timer (fst r) = timer m
  /\ correctChars (state (fst r))
     = correctChars (state m) + Z.of_nat (k - p)
  /\ totalChars (state (fst r)) = totalChars (state m) + Z.of_nat (k - p)
  /\ errors (state (fst r)) = errors (state m)
  /\ existsb isComplete (snd r) = false.
Proof.
  intros Hrun Hpos Hpk Hkn. cbv zeta.
  set (p := Z.to_nat (currentPosition (state m))) in *.
  assert (Hp : p = List.length (typedText (state m)))
    by (unfold p; rewrite Hpos; unfold len; lia).
  induction k as [|k IH].
  - assert (p = 0)%nat by lia.
    unfold typeThrough. fold p. rewrite H. simpl.
    rewrite app_nil_r. rewrite Hpos, Hp in *.
    destruct (typedText (state m)); [|simpl in H; lia].
    repeat split; auto; lia.
  - destruct (Nat.eq_dec p (S k)) as [Heq | Hne].
    + unfold typeThrough. fold p. rewrite Heq, Nat.sub_diag. simpl run.
      cbn [fst snd existsb].
      rewrite skipn_all2 by (rewrite length_firstn; lia).
      rewrite app_nil_r. repeat split; auto; lia.
    + assert (Hpk' : (p <= k)%nat) by lia.
      assert (Hkn' : (k < List.length (currentText (state m)))%nat) by lia.
      specialize (IH Hpk' Hkn').
      destruct IH as (Itxt & Ityp & Ipos & Irun & Itim & Icor & Itot & Ierr
                      & Iev).
      rewrite typeThrough_succ by exact Hpk'. fold p.
      rewrite run_app, run_single. cbn [fst snd apply].
      set (mk := fst (run (typeThrough clock m k) m)) in *.
      destruct (firstn_succ k (currentText (state m)) Hkn')
        as (c & Hc & Hf).
      assert (Hlenk : List.length (typedText (state mk)) = k).
      { rewrite Ityp, length_app, length_skipn, length_firstn. lia. }
      assert (Hv : typedText (state m)
                     ++ skipn p (firstn (S k) (currentText (state m)))
                   = typedText (state mk) ++ [c]).
      { rewrite Hf, skipn_app, length_firstn.
        replace (p - Nat.min k (List.length (currentText (state m))))%nat
          with 0%nat by lia.
        simpl skipn. rewrite Ityp, app_assoc. reflexivity. }
      rewrite Hv.
      assert (Hposk : currentPosition (state mk) = len (typedText (state mk)))
        by (rewrite Ipos; unfold len; lia).
      assert (Hck : nth_error (currentText (state mk))
                      (List.length (typedText (state mk))) = Some c)
        by (rewrite Itxt, Hlenk; exact Hc).
      rewrite (matching_keystroke (clock (S k)) mk c Irun Hposk Hck).
      assert (Hshort : (len (typedText (state mk) ++ [c])
                        >=? len (currentText (state mk))) = false).
      { rewrite Itxt, len_app. unfold len. rewrite Hlenk. simpl List.length.
        rewrite Z.geb_leb. apply Z.leb_gt. lia. }
      rewrite Hshort. cbn [fst snd state withState set_typed currentText
        typedText currentPosition correctChars totalChars errors timer
        incr_correctChars incr_totalChars].
      rewrite existsb_app, Iev. cbn [existsb isComplete orb].
      rewrite len_app. unfold len. rewrite Hlenk. simpl List.length.
      repeat split; auto; lia.
Qed.

(** C1: in a running session whose buffer ends at the position, typing
    the characters of the target one input event at a time from the
    position on keeps the session running, with no call of [onComplete],
    as long as the position is short of the length of the target, and
    completes the test (session stopped, timer cleared, [onComplete]
    called once, last) with the keystroke that brings the position to
    that length.  Every one of these keystrokes counts as correct, so the
    results report an accuracy of 100 when the keystrokes before them
    were all correct too, as in a session just started. *)
Theorem typing_the_target_completes (clock : nat -> Z) (m : Manager)
    (k : nat) :
  isRunning m = true ->
  currentPosition (state m) = len (typedText (state m)) ->
  (Z.to_nat (currentPosition (state m)) < k)%nat ->
  (k <= List.length (currentText (state m)))%nat ->
  let p := Z.to_nat (currentPosition (state m)) in
  let n := List.length (currentText (state m)) in
  let r := run (typeThrough clock m k) m in
  currentPosition (state (fst r)) = Z.of_nat k
  /\ typedText (state (fst r))
     = typedText (state m) ++ skipn p (firstn k (currentText (state m)))
  /\ correctChars (state (fst r)) = correctChars (state m) + Z.of_nat (k - p)
  /\ totalChars (state (fst r)) = totalChars (state m) + Z.of_nat (k - p)
  /\ errors (state (fst r)) = errors (state m)
  /\ ((k < n)%nat ->
      isRunning (fst r) = true /\ existsb isComplete (snd r) = false)
  /\ (k = n ->
      isRunning (fst r) = false
      /\ isActive (state (fst r)) = false
      /\ timer (fst r) = false
      /\ endTime (state (fst r)) = Some (clock n)
      /\ exists evs : list Event,
           snd r = evs ++ [Complete (calculateStats (clock n) (fst r))]
           /\ existsb isComplete evs = false
           /\ (correctChars (state m) = totalChars (state m) ->
               (accuracy (calculateStats (clock n) (fst r)) == 100)%Q)).
Proof.
  intros Hrun Hpos Hpk Hkn. cbv zeta.
  set (p := Z.to_nat (currentPosition (state m))) in *.
  destruct k as [|k]; [lia|].
  assert (Hpk' : (p <= k)%nat) by lia.
  assert (Hkn' : (k < List.length (currentText (state m)))%nat) by lia.
  destruct (typed_short_of_the_end clock m k Hrun Hpos Hpk' Hkn')
    as (Itxt & Ityp & Ipos & Irun & Itim & Icor & Itot & Ierr & Iev).
  fold p in Ityp, Icor, Itot.
  rewrite typeThrough_succ by exact Hpk'. fold p.
  rewrite run_app, run_single. cbn [fst snd apply].
  set (mk := fst (run (typeThrough clock m k) m)) in *.
  destruct (firstn_succ k (currentText (state m)) Hkn') as (c & Hc & Hf).
  assert (Hlenk : List.length (typedText (state mk)) = k).
  { rewrite Ityp, length_app, length_skipn, length_firstn.
    assert (p = List.length (typedText (state m)))
      by (unfold p; rewrite Hpos; unfold len; lia).
    lia. }
  assert (Hv : typedText (state m)
                 ++ skipn p (firstn (S k) (currentText (state m)))
               = typedText (state mk) ++ [c]).
  { rewrite Hf, skipn_app, length_firstn.
    replace (p - Nat.min k (List.length (currentText (state m))))%nat
      with 0%nat by lia.
    simpl skipn. rewrite Ityp, app_assoc. reflexivity. }
  rewrite Hv.
  assert (Hposk : currentPosition (state mk) = len (typedText (state mk)))
    by (rewrite Ipos; unfold len; lia).
  assert (Hck : nth_error (currentText (state mk))
                  (List.length (typedText (state mk))) = Some c)
    by (rewrite Itxt, Hlenk; exact Hc).
  rewrite (matching_keystroke (clock (S k)) mk c Irun Hposk Hck).
  assert (Hlenv : len (typedText (state mk) ++ [c]) = Z.of_nat (S k)).
  { rewrite len_app. unfold len. rewrite Hlenk. simpl List.length. lia. }
  rewrite Hlenv, Itxt.
  destruct (Z.of_nat (S k) >=? len (currentText (state m))) eqn:Hend.
  - assert (Hn : S k = List.length (currentText (state m))).
    { rewrite Z.geb_leb in Hend. apply Z.leb_le in Hend.
      unfold len in Hend. lia. }
    cbn [fst snd]. rewrite state_stop.
    cbn [state withState set_typed set_endTime set_isActive currentText
      typedText currentPosition correctChars totalChars errors timer
      incr_correctChars incr_totalChars isActive endTime].
    rewrite Hlenv.
    split; [reflexivity|]. split; [reflexivity|].
    split; [lia|]. split; [lia|]. split; [exact Ierr|].
    split; [intros Hlt; lia|]. intros _.
    split.
    { unfold isRunning. rewrite state_stop. reflexivity. }
    split; [reflexivity|]. split; [apply timer_clearTimer|].
    split; [now rewrite Hn|].
    exists (snd (run (typeThrough clock m k) m) ++ [CorrectKey]).
    split.
    { rewrite <- Hn, <- !app_assoc. reflexivity. }
    split.
    { rewrite existsb_app, Iev. reflexivity. }
    intros Hall. apply accuracy_all_correct. rewrite state_stop.
    cbn [state withState set_typed set_endTime set_isActive
      correctChars totalChars incr_correctChars incr_totalChars].
    lia.
  - assert (Hn : (S k < List.length (currentText (state m)))%nat).
    { rewrite Z.geb_leb in Hend. apply Z.leb_gt in Hend.
      unfold len in Hend. lia. }
    cbn [fst snd state withState set_typed currentText
      typedText currentPosition correctChars totalChars errors timer
      incr_correctChars incr_totalChars].
    rewrite Hlenv.
    split; [reflexivity|]. split; [reflexivity|].
    split; [lia|]. split; [lia|]. split; [exact Ierr|].
    split; [|intros Hlt; lia]. intros _.
    split; [exact Irun|].
    rewrite !existsb_app, Iev. reflexivity.
Qed.

Lemma typing_the_target_completes_witness :
  let r := run (typeThrough Scenario.clock Scenario.started 49)
               Scenario.started in
  currentPosition (state (fst r)) = 49
  /\ correctChars (state (fst r)) = 49
  /\ totalChars (state (fst r)) = 49
  /\ errors (state (fst r)) = 0
  /\ isRunning (fst r) = false
  /\ (accuracy (calculateStats (Scenario.clock 49) (fst r)) == 100)%Q.
Proof.
  cbv zeta.
  assert (Hrun : isRunning Scenario.started = true) by reflexivity.
  assert (Hpos : currentPosition (state Scenario.started)
                 = len (typedText (state Scenario.started)))
    by reflexivity.
  assert (Hpk : (Z.to_nat (currentPosition (state Scenario.started)) < 49)%nat)
    by (vm_compute; lia).
  assert (Hkn : (49 <= List.length (currentText (state Scenario.started)))%nat)
    by (vm_compute; lia).
  destruct (typing_the_target_completes Scenario.clock Scenario.started 49
              Hrun Hpos Hpk Hkn)
    as (H1 & _ & H3 & H4 & H5 & _ & H7).
  destruct (H7 eq_refl) as (H8 & _ & _ & _ & evs & _ & _ & H9).
  split; [exact H1|]. split; [exact H3|]. split; [exact H4|].
  split; [exact H5|]. split; [exact H8|]. exact (H9 eq_refl).
Defined.

(** The specification's two examples on the target text [cat]. *)
Example cat_typed_correctly :
  let r := run (typeThrough Scenario.clock Scenario.catSession 3)
               Scenario.catSession in
  typedText (state (fst r)) = JS.lit "cat"
  /\ correctChars (state (fst r)) = 3 /\ totalChars (state (fst r)) = 3
  /\ errors (state (fst r)) = 0
  /\ isActive (state (fst r)) = false
  /\ existsb isComplete (snd r) = true
  /\ (accuracy (calculateStats 1600 (fst r)) == 100)%Q.
Proof. vm_compute. repeat split. Qed.

Example cat_typed_with_one_error :
  let r := run [OpInput 1200 (JS.lit "c"); OpInput 1400 (JS.lit "cx");
                OpInput 1600 (JS.lit "cxt")] Scenario.catSession in
  correctChars (state (fst r)) = 2 /\ totalChars (state (fst r)) = 3
  /\ errors (state (fst r)) = 1
  /\ isActive (state (fst r)) = false
  /\ existsb isComplete (snd r) = true
  /\ (accuracy (calculateStats 1600 (fst r)) == 200 # 3)%Q.
Proof. vm_compute. repeat split. Qed.

End CompletionFacts.

(** ** Text generation *)

Section GenerationFacts.

Import TypingTest.

Lemma accumulated_app (a b : list jsstring) :
  accumulated (a ++ b) = accumulated a + accumulated b.
Proof. induction a as [|x a IH]; simpl; [reflexivity | rewrite IH; lia]. Qed.

Lemma accumulated_nonneg (a : list jsstring) : 0 <= accumulated a.
Proof.
  induction a as [|x a IH]; simpl; [lia|].
  pose proof (len_nonneg x). lia.
Qed.

(** The sentence loop, from any state in which it is entered with at
    least as much fuel as sentences left: it pushes the sentences
    [drawn], which with the sentences left are the ones of the pool it
    started from; it counts their lengths; it leaves when the pool is
    empty or the count has reached [limit], and not before. *)
Lemma sentenceLoop_spec (rs : RandomSource) (limit : Q) (fuel : nat) :
  forall g : GenState,
  (List.length (poolLeft g) <= fuel)%nat ->
  exists drawn : list jsstring,
    textParts (sentenceLoop fuel rs limit g) = textParts g ++ drawn
    /\ Permutation (drawn ++ poolLeft (sentenceLoop fuel rs limit g))
                   (poolLeft g)
    /\ currentLength (sentenceLoop fuel rs limit g)
       = currentLength g + accumulated drawn
    /\ draws (sentenceLoop fuel rs limit g)
       = (draws g + List.length drawn)%nat
    /\ (poolLeft (sentenceLoop fuel rs limit g) = []
        \/ (limit <= inject_Z (currentLength (sentenceLoop fuel rs limit g)))%Q)
    /\ (forall pre x post, drawn = pre ++ x :: post ->
          (inject_Z (currentLength g + accumulated pre) < limit)%Q).
Proof.
  induction fuel as [|fuel IH]; intros g Hfuel.
  - exists []. simpl. rewrite app_nil_r, Z.add_0_r, Nat.add_0_r.
    repeat split; auto.
    + left. destruct (poolLeft g); [reflexivity | simpl in Hfuel; lia].
    + intros pre x post E. destruct pre; discriminate.
  - simpl.
    destruct (Qltb (inject_Z (currentLength g)) limit) eqn:Hlt;
      [destruct (0 <? len (poolLeft g)) eqn:Hne|]; simpl andb; cbv iota.
    + apply Z.ltb_lt in Hne. unfold len in Hne.
      set (i := randomIndex (rs (draws g)) (List.length (poolLeft g))).
      assert (Hi : (i < List.length (poolLeft g))%nat)
        by (apply randomIndex_lt; lia).
      set (s := nth i (poolLeft g) []).
      set (g1 := {| draws := S (draws g);
                    poolLeft := removeAt i (poolLeft g);
                    currentLength := currentLength g + (len s + 1);
                    textParts := textParts g ++ [s] |}).
      destruct (IH g1) as (drawn & Htp & Hperm & Hcl & Hdr & Hstop & Hpre).
      { simpl. pose proof (removeAt_length i (poolLeft g) Hi). lia. }
      exists (s :: drawn). simpl in Htp, Hperm, Hcl, Hdr.
      split; [rewrite Htp, <- app_assoc; reflexivity|].
      split.
      { simpl. rewrite <- (removeAt_perm [] i (poolLeft g) Hi).
        fold s. constructor. exact Hperm. }
      split; [rewrite Hcl; simpl; lia|].
      split; [rewrite Hdr; simpl; lia|].
      split; [exact Hstop|].
      intros pre x post E. destruct pre as [|y pre].
      * simpl. rewrite Z.add_0_r. now apply Qltb_lt.
      * simpl in E. injection E as Ey E. subst y.
        specialize (Hpre pre x post E). simpl in Hpre. simpl.
        replace (currentLength g + (len s + 1 + accumulated pre))
          with (currentLength g + (len s + 1) + accumulated pre) by lia.
        exact Hpre.
    + exists []. rewrite app_nil_r, Z.add_0_r, Nat.add_0_r.
      repeat split; auto.
      * left. apply Z.ltb_ge in Hne. unfold len in Hne.
        destruct (poolLeft g); [reflexivity | simpl in Hne; lia].
      * intros pre x post E. destruct pre; discriminate.
    + exists []. rewrite app_nil_r, Z.add_0_r, Nat.add_0_r.
      repeat split; auto.
      * right. now apply Qltb_ge.
      * intros pre x post E. destruct pre; discriminate.
Qed.

(** The word loop, entered with at least [targetChars - currentLength]
    units of fuel: it pushes words of the pool, which it leaves as it
    is; it leaves when the pool is empty or the count has reached the
    target, and not before. *)
Lemma wordLoop_spec (rs : RandomSource) (target : Z) (fuel : nat) :
  forall g : GenState,
  (Z.to_nat (target - currentLength g) <= fuel)%nat ->
  exists drawn : list jsstring,
    textParts (wordLoop fuel rs target g) = textParts g ++ drawn
    /\ poolLeft (wordLoop fuel rs target g) = poolLeft g
    /\ Forall (fun w => In w (poolLeft g)) drawn
    /\ currentLength (wordLoop fuel rs target g)
       = currentLength g + accumulated drawn
    /\ (poolLeft g = []
        \/ target <= currentLength (wordLoop fuel rs target g))
    /\ (forall pre x post, drawn = pre ++ x :: post ->
          currentLength g + accumulated pre < target).
Proof.
  induction fuel as [|fuel IH]; intros g Hfuel.
  - exists []. simpl. rewrite app_nil_r, Z.add_0_r.
    repeat split; auto.
    + right. lia.
    + intros pre x post E. destruct pre; discriminate.
  - simpl.
    destruct (currentLength g <? target) eqn:Hlt;
      [destruct (0 <? len (poolLeft g)) eqn:Hne|]; simpl andb; cbv iota.
    + apply Z.ltb_lt in Hne. unfold len in Hne. apply Z.ltb_lt in Hlt.
      set (i := randomIndex (rs (draws g)) (List.length (poolLeft g))).
      assert (Hi : (i < List.length (poolLeft g))%nat)
        by (apply randomIndex_lt; lia).
      set (w := nth i (poolLeft g) []).
      set (g1 := {| draws := S (draws g);
                    poolLeft := poolLeft g;
                    currentLength := currentLength g + (len w + 1);
                    textParts := textParts g ++ [w] |}).
      destruct (IH g1) as (drawn & Htp & Hpool & Hin & Hcl & Hstop & Hpre).
      { simpl. pose proof (len_nonneg w). lia. }
      exists (w :: drawn). simpl in Htp, Hpool, Hin, Hcl, Hstop.
      split; [rewrite Htp, <- app_assoc; reflexivity|].
      split; [exact Hpool|].
      split; [constructor; [apply nth_In; exact Hi | exact Hin]|].
      split; [rewrite Hcl; simpl; lia|].
      split; [exact Hstop|].
      intros pre x post E. destruct pre as [|y pre].
      * simpl. lia.
      * simpl in E. injection E as Ey E. subst y.
        specialize (Hpre pre x post E). simpl in Hpre. simpl. lia.
    + exists []. rewrite app_nil_r, Z.add_0_r.
      repeat split; auto.
      * left. apply Z.ltb_ge in Hne. unfold len in Hne.
        destruct (poolLeft g); [reflexivity | simpl in Hne; lia].
      * intros pre x post E. destruct pre; discriminate.
    + exists []. rewrite app_nil_r, Z.add_0_r.
      repeat split; auto.
      * right. apply Z.ltb_ge in Hlt. exact Hlt.
      * intros pre x post E. destruct pre; discriminate.
Qed.


(** *** The draws *)









(** The draws fix what is drawn: the same draws from the same pool
    take the same elements. *)
Lemma pivot_unique {A} (b1 b2 a1 a2 : list A) (x1 x2 : A) :
  b1 ++ x1 :: a1 = b2 ++ x2 :: a2 -> len b1 = len b2 ->
  b1 = b2 /\ x1 = x2 /\ a1 = a2.
Proof.
  revert b2. induction b1 as [|y b1 IH]; intros [|z b2] E L;
    unfold len in L; cbn [List.length] in L; try lia.
  - injection E as -> ->. auto.
  - injection E as -> E.
    destruct (IH b2 E) as (-> & -> & ->); [unfold len; lia | auto].
Qed.

Lemma DrawnWithout_deterministic (rs : RandomSource) (k : nat)
    (pool d1 l1 : list jsstring) :
  DrawnWithout rs k pool d1 l1 ->
  forall d2 l2,
  DrawnWithout rs k pool d2 l2 -> List.length d1 = List.length d2 ->
  d1 = d2 /\ l1 = l2.
Proof.
  induction 1 as [k pool | k b1 a1 d1 l1 x1 F1 _ IH]; intros d2 l2 H2 L.
  - destruct d2; [|discriminate L]. inversion H2; subst. auto.
  - destruct d2 as [|x2 d2]; [discriminate L|].
    inversion H2 as [| ? b2 a2 ? ? ? F2 H2' Ek Epool]; subst.
    rewrite Epool, F1 in F2.
    destruct (pivot_unique _ _ _ _ _ _ Epool (eq_sym F2))
      as (-> & -> & ->).
    destruct (IH d2 l2 H2') as (-> & ->); [cbn in L; lia | auto].
Qed.

Lemma DrawnWith_deterministic (rs : RandomSource) (k : nat)
    (pool d1 : list jsstring) :
  DrawnWith rs k pool d1 ->
  forall d2,
  DrawnWith rs k pool d2 -> List.length d1 = List.length d2 -> d1 = d2.
Proof.
  induction 1 as [k pool | k b1 a1 d1 x1 F1 _ IH]; intros d2 H2 L.
  - destruct d2; [reflexivity | discriminate L].
  - destruct d2 as [|x2 d2]; [discriminate L|].
    inversion H2 as [| ? b2 a2 ? ? F2 H2' Ek Epool]; subst.
    rewrite Epool, F1 in F2.
    destruct (pivot_unique _ _ _ _ _ _ Epool (eq_sym F2))
      as (-> & -> & ->).
    rewrite (IH d2 H2'); [reflexivity | cbn in L; lia].
Qed.

Example three_parts_spaced :
  spaceSeparated [lit "The cat runs fast."; lit "cat"; lit "dog"]
  = lit "The cat runs fast. cat dog".
Proof. reflexivity. Qed.




Example easy_text_for_one_minute :
  generatedText (Scenario.constantSource zeroRandom) Scenario.wordsConfig
  = lit ("The cat runs fast. Dogs like to play. Sun is very bright. "
         ++ "I love to read books. Birds fly in the sky. "
         ++ "cat cat cat cat cat cat cat cat cat cat cat cat cat "
         ++ "cat cat cat cat cat cat cat cat cat cat cat cat").
Proof. vm_compute. reflexivity. Qed.

(** Draws that alternate between [0.5] and [0]: the sentences come in
    the order 3, 1, 4, 2, 5 of the pool, the words are the eleventh
    and the first in turn. *)
Example easy_text_for_alternating_draws :
  generatedText (fun k => if Nat.even k then halfRandom else zeroRandom)
    Scenario.wordsConfig
  = lit ("Sun is very bright. The cat runs fast. I love to read books. "
         ++ "Dogs like to play. Birds fly in the sky. "
         ++ "cat toy cat toy cat toy cat toy cat toy cat toy cat "
         ++ "toy cat toy cat toy cat toy cat toy cat toy cat").
Proof. vm_compute. reflexivity. Qed.

(** The difficulties and languages of the content data are keys the
    data is read under. *)
Lemma content_keys_are_read :
  Forall (fun key => inherited key = false)
         (map fst difficulties ++ map fst code_snippets).
Proof. repeat constructor. Qed.

End GenerationFacts.

(** ** The completion effect of the animation *)

Section AnimationFacts.

Import Animation.

Lemma map_updateAt {A B} (g : A -> B) (f : A -> A) (i : nat) (l : list A) :
  (forall a, g (f a) = g a) -> map g (updateAt i f l) = map g l.
Proof.
  intros Hf. revert i. induction l as [|a l IH]; intros [|i]; simpl; auto.
  - now rewrite Hf.
  - now rewrite IH.
Qed.

(** Frames, correct keystrokes and the callbacks of correct keystrokes
    do not write [speed]. *)
Lemma speed_act (a : Action) (s : Manager) :
  overlapping a = false ->
  map Pacman.speed (pacmanCharacters (act a s))
  = map Pacman.speed (pacmanCharacters s).
Proof.
  intros Ha. destruct a as [atan2 dt| |rs|[i boost|]]; simpl in Ha;
    try discriminate; simpl; rewrite ?map_map; try reflexivity.
  apply map_updateAt. reflexivity.
Qed.

Lemma speed_acts (l : list Action) (s : Manager) :
  forallb (fun a => negb (overlapping a)) l = true ->
  map Pacman.speed (pacmanCharacters (acts l s))
  = map Pacman.speed (pacmanCharacters s).
Proof.
  revert s. induction l as [|a l IH]; intros s Hl; [reflexivity|].
  simpl in Hl. apply andb_true_iff in Hl. destruct Hl as [Ha Hl].
  apply negb_true_iff in Ha. unfold acts in *. simpl.
  rewrite (IH (act a s) Hl). now apply speed_act.
Qed.

Lemma doubled_then_halved (l : list Q) :
  Forall2 Qeq l (map (fun q => q / 2)%Q (map (fun q => q * 2)%Q l)).
Proof.
  induction l as [|q l IH]; simpl; constructor; [|exact IH].
  field.
Qed.

Lemma particles_addCompletionEffect (rs : RandomSource) (s : Manager) :
  particles (addCompletionEffect rs s)
  = particles s
    ++ map (celebrationParticle (width s) (height s) rs)
           (seq 0 celebrationBurst).
Proof. reflexivity. Qed.

Lemma pacmen_addCompletionEffect (rs : RandomSource) (s : Manager) :
  pacmanCharacters (addCompletionEffect rs s)
  = map completionBoost (pacmanCharacters s).
Proof. reflexivity. Qed.

Lemma pacmen_completionRevert (s : Manager) :
  pacmanCharacters (runCallback CompletionRevert s)
  = map completionRevert (pacmanCharacters s).
Proof. reflexivity. Qed.

(** C9: [addCompletionEffect] pushes exactly 50 particles after the
    ones there are, multiplies the speed and both velocity components
    of every Pac-Man by 2, and registers one callback, due 3000 ms
    later.  When that callback runs, every speed is again what it was
    before the call, whatever frames, correct keystrokes and callbacks
    of correct keystrokes came in between, as long as no other
    completion boost did; run at once, it restores the velocities
    too. *)
Theorem completion_effect (rs : RandomSource) (s : Manager) :
  let s1 := addCompletionEffect rs s in
  List.length (particles s1) = (List.length (particles s) + 50)%nat
  /\ firstn (List.length (particles s)) (particles s1) = particles s
  /\ map Pacman.speed (pacmanCharacters s1)
     = map (fun p => Pacman.speed p * 2)%Q (pacmanCharacters s)
  /\ map Pacman.vx (pacmanCharacters s1)
     = map (fun p => Pacman.vx p * 2)%Q (pacmanCharacters s)
  /\ map Pacman.vy (pacmanCharacters s1)
     = map (fun p => Pacman.vy p * 2)%Q (pacmanCharacters s)
  /\ timeouts s1 = timeouts s ++ [(3000, CompletionRevert)]
  /\ (forall between : list Action,
        forallb (fun a => negb (overlapping a)) between = true ->
        Forall2 Qeq
          (map Pacman.speed (pacmanCharacters s))
          (map Pacman.speed
             (pacmanCharacters
                (runCallback CompletionRevert (acts between s1)))))
  /\ Forall2 Qeq
       (map Pacman.vx (pacmanCharacters s))
       (map Pacman.vx (pacmanCharacters (runCallback CompletionRevert s1)))
  /\ Forall2 Qeq
       (map Pacman.vy (pacmanCharacters s))
       (map Pacman.vy (pacmanCharacters (runCallback CompletionRevert s1))).
Proof.
  cbv zeta.
  rewrite particles_addCompletionEffect, pacmen_addCompletionEffect.
  split; [rewrite length_app, length_map, length_seq; reflexivity|].
  split; [rewrite firstn_app, Nat.sub_diag, firstn_all;
          cbn [firstn]; apply app_nil_r|].
  split; [now rewrite map_map|].
  split; [now rewrite map_map|].
  split; [now rewrite map_map|].
  split; [reflexivity|].
  split.
  { intros between Hb.
    rewrite pacmen_completionRevert, map_map.
    change (fun x => Pacman.speed (completionRevert x))
      with (fun x => (Pacman.speed x / 2)%Q).
    rewrite <- (map_map Pacman.speed (fun q => (q / 2)%Q)).
    rewrite (speed_acts between _ Hb).
    rewrite pacmen_addCompletionEffect.
    rewrite (map_map completionBoost Pacman.speed).
    change (fun x => Pacman.speed (completionBoost x))
      with (fun x => (Pacman.speed x * 2)%Q).
    rewrite <- (map_map Pacman.speed (fun q => (q * 2)%Q)).
    apply doubled_then_halved. }
  rewrite pacmen_completionRevert, pacmen_addCompletionEffect.
  split.
  - rewrite !map_map.
    change (fun x => Pacman.vx (completionRevert (completionBoost x)))
      with (fun x => (Pacman.vx x * 2 / 2)%Q).
    rewrite <- (map_map Pacman.vx (fun q => (q * 2 / 2)%Q)).
    rewrite <- (map_map (fun q => (q * 2)%Q) (fun q => (q / 2)%Q)).
    apply doubled_then_halved.
  - rewrite !map_map.
    change (fun x => Pacman.vy (completionRevert (completionBoost x)))
      with (fun x => (Pacman.vy x * 2 / 2)%Q).
    rewrite <- (map_map Pacman.vy (fun q => (q * 2 / 2)%Q)).
    rewrite <- (map_map (fun q => (q * 2)%Q) (fun q => (q / 2)%Q)).
    apply doubled_then_halved.
Qed.

(** The four characters of the example, through a completion, sixty
    frames with two correct keystrokes and their callbacks, and the
    reversion. *)
Example speeds_after_a_celebration :
  let atan2 := fun y x : Q => 0%Q in
  let between :=
    repeat (Frame atan2 (50 # 3)) 30
    ++ [CorrectKeystroke; Frame atan2 (50 # 3);
        Due (MovementRevert 0 movementBoost);
        Due (MovementRevert 1 movementBoost);
        Due (MovementRevert 2 movementBoost);
        Due (MovementRevert 3 movementBoost)]
    ++ repeat (Frame atan2 (50 # 3)) 30 in
  let s1 := addCompletionEffect (fun _ => halfRandom) exampleManager in
  let s2 := runCallback CompletionRevert (acts between s1) in
  List.length (particles s1) = 50%nat
  /\ map (fun p => Qred (Pacman.speed p)) (pacmanCharacters s1)
     = [4; 22 # 5; 18 # 5; 21 # 5]%Q
  /\ map (fun p => Qred (Pacman.speed p)) (pacmanCharacters s2)
     = [2; 11 # 5; 9 # 5; 21 # 10]%Q.
Proof. vm_compute. repeat split. Qed.

End AnimationFacts.

(** ** Counters and accuracy over a session *)

Section AccountingFacts.

Import TypingTest TypingMore.

Lemma Accounting_apply (o : Op) (m : Manager) :
  Accounting (state m) -> Accounting (state (fst (apply o m))).
Proof.
  intros (Hsum & Hc & He). unfold Accounting.
  destruct (resetsState o) eqn:Hr.
  - destruct (counters_reset o m Hr) as (H1 & H2 & H3).
    rewrite H1, H2, H3. lia.
  - destruct o; try (simpl in Hr; discriminate).
    5: { simpl apply.
         destruct (handleInput_counters now inputValue m) as (_ & Hk).
         cbv zeta in Hk. unfold countersEq in Hk. lia. }
    all: match goal with
         | |- context [apply ?o ?m0] =>
             assert (E : typingData (state (fst (apply o m0)))
                         = typingData (state m0))
               by (apply typingData_lifecycle;
                   [reflexivity | intros; discriminate])
         end;
      destruct (typingData_fields _ _ E) as (_ & _ & E3 & E4 & E5);
      rewrite E3, E4, E5; lia.
Qed.

Lemma Reachable_Accounting (m : Manager) :
  Reachable m -> Accounting (state m).
Proof.
  induction 1 as [|o m _ IH]; [unfold Accounting; simpl; lia|].
  now apply Accounting_apply.
Qed.

Lemma errors_apply (o : Op) (m : Manager) :
  resetsState o = false -> errors (state m) <= errors (state (fst (apply o m))).
Proof. intros Hr. now destruct (counters_apply o m Hr) as (_ & _ & H). Qed.

Lemma errors_run (ops : list Op) (m : Manager) :
  forallb (fun o => negb (resetsState o)) ops = true ->
  errors (state m) <= errors (state (fst (run ops m))).
Proof.
  revert m. induction ops as [|o ops IH]; intros m Hops; [simpl; lia|].
  simpl in Hops. apply andb_true_iff in Hops. destruct Hops as [Ho Hops].
  apply negb_true_iff in Ho. pose proof (errors_apply o m Ho) as H1.
  simpl. destruct (apply o m) as [m1 e1]. simpl in H1.
  specialize (IH m1 Hops). destruct (run ops m1) as [m2 e2]. simpl in *.
  lia.
Qed.

(** The accuracy of a manager whose counters add up. *)
Lemma accuracy_accounted (now : Z) (m : Manager) :
  Accounting (state m) ->
  ((errors (state m) = 0 -> (accuracy (calculateStats now m) == 100)%Q)
   /\ (0 < errors (state m) -> (accuracy (calculateStats now m) < 100)%Q)
   /\ (0 < totalChars (state m) ->
       (accuracy (calculateStats now m) * inject_Z (totalChars (state m))
        == 100 * inject_Z (correctChars (state m)))%Q)).
Proof.
  intros (Hsum & Hc & He).
  assert (Hexact : 0 < totalChars (state m) ->
            (accuracy (calculateStats now m)
             == inject_Z (correctChars (state m))
                / inject_Z (totalChars (state m)) * 100)%Q
            /\ (0 < inject_Z (totalChars (state m)))%Q).
  { intros Hpos.
    assert (Hq : (0 < inject_Z (totalChars (state m)))%Q).
    { change 0%Q with (inject_Z 0). now rewrite <- Zlt_Qlt. }
    split; [|exact Hq].
    unfold calculateStats. cbn [accuracy].
    replace (totalChars (state m) >? 0) with true
      by (symmetry; apply Z.gtb_lt; lia).
    set (a := (inject_Z (correctChars (state m))
               / inject_Z (totalChars (state m)) * 100)%Q).
    assert (Ha0 : (0 <= a)%Q).
    { unfold a. apply Qmult_le_0_compat; [|discriminate].
      apply Qle_shift_div_l; [exact Hq|]. rewrite Qmult_0_l.
      change 0%Q with (inject_Z 0). rewrite <- Zle_Qle. lia. }
    assert (Ha1 : (a <= 100)%Q).
    { unfold a.
      setoid_replace 100%Q with (1 * 100)%Q at 2 by ring.
      apply Qmult_le_compat_r; [|discriminate].
      apply Qle_shift_div_r; [exact Hq|]. rewrite Qmult_1_l.
      rewrite <- Zle_Qle. lia. }
    rewrite Math_max_Qmax, Math_min_Qmin.
    rewrite (Q.min_r _ _ Ha1). apply Q.max_r. exact Ha0. }
  split; [|split].
  - intros E. apply accuracy_all_correct. lia.
  - intros Hpos. assert (Ht : 0 < totalChars (state m)) by lia.
    destruct (Hexact Ht) as (Hacc & Hq). rewrite Hacc.
    setoid_replace 100%Q with (1 * 100)%Q at 2 by ring.
    apply Qmult_lt_compat_r; [reflexivity|].
    apply Qlt_shift_div_r; [exact Hq|]. rewrite Qmult_1_l.
    rewrite <- Zlt_Qlt. lia.
  - intros Ht. destruct (Hexact Ht) as (Hacc & Hq). rewrite Hacc.
    field. intros E. rewrite E in Hq. discriminate.
Qed.

(** X1: at every point of a session every keystroke counted is counted
    once as correct or once as an error, and no counter is negative. *)
Theorem keystrokes_are_correct_or_errors (m : Manager) :
  Reachable m ->
  totalChars (state m) = correctChars (state m) + errors (state m)
  /\ 0 <= correctChars (state m)
  /\ 0 <= errors (state m)
  /\ 0 <= currentPosition (state m).
Proof.
  intros Hm. destruct (Reachable_Accounting m Hm) as (H1 & H2 & H3).
  destruct (Reachable_Invariant m Hm) as (Hp & _).
  repeat split; auto. rewrite Hp. apply len_nonneg.
Qed.

Lemma keystrokes_are_correct_or_errors_witness :
  let m := fst (apply (OpInput 11000
                         (typedText (state Scenario.oneToGo) ++ JS.lit "x"))
                      Scenario.oneToGo) in
  totalChars (state m) = correctChars (state m) + errors (state m)
  /\ errors (state m) = 1.
Proof.
  cbv zeta.
  set (m := fst (apply (OpInput 11000
                          (typedText (state Scenario.oneToGo)
                             ++ JS.lit "x"))
                       Scenario.oneToGo)).
  assert (Hm : Reachable m).
  { unfold m. constructor. unfold Scenario.oneToGo. apply Reachable_run.
    unfold Scenario.started. apply Reachable_run. constructor. }
  destruct (keystrokes_are_correct_or_errors m Hm) as (H1 & _).
  split; [exact H1 | vm_compute; reflexivity].
Defined.

(** X2: in a session the reported accuracy is 100 exactly when no error
    was counted, and otherwise it is the share of correct keystrokes,
    below 100. *)
Theorem accuracy_100_iff_no_error (now : Z) (m : Manager) :
  Reachable m ->
  ((accuracy (calculateStats now m) == 100)%Q <-> errors (state m) = 0)
  /\ (0 < totalChars (state m) ->
      (accuracy (calculateStats now m) * inject_Z (totalChars (state m))
       == 100 * inject_Z (correctChars (state m)))%Q).
Proof.
  intros Hm. pose proof (Reachable_Accounting m Hm) as Hacc.
  destruct (accuracy_accounted now m Hacc) as (H0 & Hlt & Hex).
  split; [|exact Hex]. split; [|exact H0].
  intros E. destruct Hacc as (_ & _ & He).
  destruct (Z.eq_dec (errors (state m)) 0) as [Hz | Hnz]; [exact Hz|].
  exfalso. assert (Hpos : 0 < errors (state m)) by lia.
  specialize (Hlt Hpos). rewrite E in Hlt. discriminate.
Qed.

Lemma accuracy_100_iff_no_error_witness :
  (accuracy (calculateStats 1600 Scenario.threeTyped) == 100)%Q
  <-> errors (state Scenario.threeTyped) = 0.
Proof.
  assert (Hm : Reachable Scenario.threeTyped).
  { unfold Scenario.threeTyped. apply Reachable_run.
    unfold Scenario.started. apply Reachable_run. constructor. }
  exact (proj1 (accuracy_100_iff_no_error 1600 Scenario.threeTyped Hm)).
Defined.

(** X3: an error stays.  Once a wrong keystroke is counted, no sequence
    of operations short of [configure] and [reset] (deleting the wrong
    character and typing the right one included) brings the error count
    down or the accuracy back to 100. *)
Theorem an_error_lowers_accuracy_for_good (now : Z) (ops : list Op)
    (m : Manager) :
  Reachable m ->
  0 < errors (state m) ->
  forallb (fun o => negb (resetsState o)) ops = true ->
  errors (state m) <= errors (state (fst (run ops m)))
  /\ (accuracy (calculateStats now (fst (run ops m))) < 100)%Q.
Proof.
  intros Hm Herr Hops. pose proof (errors_run ops m Hops) as Hle.
  split; [exact Hle|].
  pose proof (Reachable_Accounting _ (Reachable_run ops m Hm)) as Hacc.
  destruct (accuracy_accounted now _ Hacc) as (_ & Hlt & _).
  apply Hlt. lia.
Qed.

Lemma an_error_lowers_accuracy_for_good_witness :
  let m := fst (apply (OpInput 1800 (JS.lit "Mapx")) Scenario.threeTyped) in
  let ops := [OpInput 2000 (JS.lit "Map"); OpInput 2200 (JS.lit "Map<")] in
  typedText (state (fst (run ops m))) = JS.lit "Map<"
  /\ errors (state (fst (run ops m))) = 1
  /\ (accuracy (calculateStats 2200 (fst (run ops m))) < 100)%Q.
Proof.
  cbv zeta.
  set (m := fst (apply (OpInput 1800 (JS.lit "Mapx")) Scenario.threeTyped)).
  set (ops := [OpInput 2000 (JS.lit "Map"); OpInput 2200 (JS.lit "Map<")]).
  assert (Hm : Reachable m).
  { unfold m. constructor. unfold Scenario.threeTyped. apply Reachable_run.
    unfold Scenario.started. apply Reachable_run. constructor. }
  assert (Herr : 0 < errors (state m)) by (vm_compute; reflexivity).
  assert (Hops : forallb (fun o => negb (resetsState o)) ops = true)
    by (vm_compute; reflexivity).
  destruct (an_error_lowers_accuracy_for_good 2200 ops m Hm Herr Hops)
    as (_ & H2).
  split; [vm_compute; reflexivity|].
  split; [vm_compute; reflexivity | exact H2].
Defined.

End AccountingFacts.

(** ** The countdown, pausing, and starting over *)

Section CountdownFacts.

Import TypingTest TypingMore.

Lemma ticks_succ (clock : nat -> Z) (n : nat) :
  ticks clock (S n) = ticks clock n ++ [OpTick (clock (S n))].
Proof. unfold ticks. now rewrite seq_S, map_app. Qed.

(** One tick of a running session with more than a second left. *)
Lemma tick_counts_down (now : Z) (m : Manager) :
  isRunning m = true -> timer m = true -> 1 < timeRemaining (state m) ->
  tick now m
  = (withState m (set_timeRemaining (timeRemaining (state m) - 1) (state m)),
     [StatsUpdate
        (calculateStats now
           (withState m
              (set_timeRemaining (timeRemaining (state m) - 1) (state m))))]).
Proof.
  intros Hrun Ht Hr. apply isRunning_flags in Hrun. destruct Hrun as [Ha Hp].
  unfold tick, timerCallback. rewrite Ht, Ha, Hp. simpl negb. simpl andb.
  cbv iota. cbn [state withState set_timeRemaining timeRemaining].
  replace (timeRemaining (state m) - 1 <=? 0) with false
    by (symmetry; apply Z.leb_gt; lia).
  reflexivity.
Qed.

(** The tick that finds a running session with a second or less left. *)
Lemma tick_times_out (now : Z) (m : Manager) :
  isRunning m = true -> timer m = true -> timeRemaining (state m) <= 1 ->
  tick now m
  = completeTest now
      (withState m
         (set_timeRemaining (timeRemaining (state m) - 1) (state m))).
Proof.
  intros Hrun Ht Hr. apply isRunning_flags in Hrun. destruct Hrun as [Ha Hp].
  unfold tick, timerCallback. rewrite Ht, Ha, Hp. simpl negb. simpl andb.
  cbv iota. cbn [state withState set_timeRemaining timeRemaining].
  replace (timeRemaining (state m) - 1 <=? 0) with true
    by (symmetry; apply Z.leb_le; lia).
  reflexivity.
Qed.

Lemma countdown_short_of_zero (clock : nat -> Z) (m : Manager) (n : nat) :
  isRunning m = true -> timer m = true ->
  Z.of_nat n < timeRemaining (state m) ->
  fst (run (ticks clock n) m)
  = withState m
      (set_timeRemaining (timeRemaining (state m) - Z.of_nat n) (state m))
  /\ existsb isComplete (snd (run (ticks clock n) m)) = false.
Proof.
  intros Hrun Ht. induction n as [|n IH]; intros Hn.
  - simpl. rewrite Z.sub_0_r. destruct m as [c s b]. destruct s.
    split; reflexivity.
  - destruct IH as (Ifst & Iev); [lia|].
    rewrite ticks_succ, run_app, run_single. cbn [fst snd apply].
    rewrite Ifst.
    set (mk := withState m
                 (set_timeRemaining (timeRemaining (state m) - Z.of_nat n)
                    (state m))).
    assert (Hrunk : isRunning mk = true) by exact Hrun.
    assert (Htk : timer mk = true) by exact Ht.
    assert (Hrk : 1 < timeRemaining (state mk)) by (simpl; lia).
    rewrite (tick_counts_down (clock (S n)) mk Hrunk Htk Hrk).
    cbn [fst snd]. split.
    + replace (timeRemaining (state mk) - 1)
        with (timeRemaining (state m) - Z.of_nat (S n))
        by (unfold mk; cbn [state withState set_timeRemaining
              timeRemaining]; lia).
      reflexivity.
    + rewrite existsb_app, Iev. reflexivity.
Qed.

(** X4: a running session with [r] seconds left and nothing typed in
    between counts down one second per tick, stays running through the
    tick [r - 1], and is completed by the tick [r]: the session is
    stopped, its interval cleared, and [onComplete] is called with no
    time left.  Typed text and counters are what they were. *)
Theorem countdown_completes_at_zero (clock : nat -> Z) (m : Manager)
    (n : nat) :
  isRunning m = true -> timer m = true ->
  0 < timeRemaining (state m) ->
  Z.of_nat n <= timeRemaining (state m) ->
  let r := timeRemaining (state m) in
  let res := run (ticks clock n) m in
  timeRemaining (state (fst res)) = r - Z.of_nat n
  /\ typingData (state (fst res)) = typingData (state m)
  /\ (Z.of_nat n < r ->
      isRunning (fst res) = true /\ timer (fst res) = true
      /\ existsb isComplete (snd res) = false)
  /\ (Z.of_nat n = r ->
      isActive (state (fst res)) = false /\ timer (fst res) = false
      /\ endTime (state (fst res)) = Some (clock n)
      /\ exists evs : list Event,
           snd res = evs ++ [Complete (calculateStats (clock n) (fst res))]
           /\ existsb isComplete evs = false
           /\ statTimeRemaining (calculateStats (clock n) (fst res)) = 0).
Proof.
  intros Hrun Ht Hpos Hn. cbv zeta.
  destruct (Z.eq_dec (Z.of_nat n) (timeRemaining (state m))) as [Heq | Hne].
  - destruct n as [|n]; [simpl in Heq; lia|].
    destruct (countdown_short_of_zero clock m n Hrun Ht) as (Ifst & Iev);
      [lia|].
    rewrite ticks_succ, run_app, run_single. cbn [fst snd apply].
    rewrite Ifst.
    set (mk := withState m
                 (set_timeRemaining (timeRemaining (state m) - Z.of_nat n)
                    (state m))).
    assert (Hrunk : isRunning mk = true) by exact Hrun.
    assert (Htk : timer mk = true) by exact Ht.
    assert (Hrk : timeRemaining (state mk) <= 1) by (simpl; lia).
    rewrite (tick_times_out (clock (S n)) mk Hrunk Htk Hrk).
    unfold completeTest. cbn [fst snd]. rewrite state_stop.
    cbn [state withState set_timeRemaining set_endTime set_isActive
      timeRemaining isActive endTime typingData typedText currentPosition
      correctChars totalChars errors].
    split; [unfold mk; simpl; lia|]. split; [reflexivity|].
    split; [intros Hlt; lia|]. intros _.
    split; [reflexivity|]. split; [apply timer_clearTimer|].
    split; [reflexivity|].
    exists (snd (run (ticks clock n) m)).
    split; [now rewrite app_nil_r|]. split; [exact Iev|].
    unfold calculateStats. cbn [statTimeRemaining]. rewrite state_stop.
    cbn [set_endTime set_isActive timeRemaining]. unfold mk. simpl. lia.
  - destruct (countdown_short_of_zero clock m n Hrun Ht) as (Ifst & Iev);
      [lia|].
    rewrite Ifst, Iev. cbn [state withState set_timeRemaining timeRemaining].
    split; [reflexivity|]. split; [reflexivity|].
    split; [|intros Heq; contradiction].
    intros _. split; [exact Hrun|]. split; [exact Ht | reflexivity].
Qed.

Lemma countdown_completes_at_zero_witness :
  let res := run (ticks Scenario.clock 180) Scenario.threeTyped in
  timeRemaining (state Scenario.threeTyped) = 180
  /\ timeRemaining (state (fst res)) = 0
  /\ isActive (state (fst res)) = false
  /\ timer (fst res) = false
  /\ typingData (state (fst res)) = typingData (state Scenario.threeTyped).
Proof.
  cbv zeta.
  assert (Hrun : isRunning Scenario.threeTyped = true)
    by (vm_compute; reflexivity).
  assert (Ht : timer Scenario.threeTyped = true) by (vm_compute; reflexivity).
  assert (Hpos : 0 < timeRemaining (state Scenario.threeTyped))
    by (vm_compute; reflexivity).
  assert (Hn : Z.of_nat 180 <= timeRemaining (state Scenario.threeTyped))
    by (vm_compute; discriminate).
  destruct (countdown_completes_at_zero Scenario.clock Scenario.threeTyped
              180 Hrun Ht Hpos Hn) as (H1 & H2 & _ & H4).
  assert (E : Z.of_nat 180 = timeRemaining (state Scenario.threeTyped))
    by (vm_compute; reflexivity).
  destruct (H4 E) as (H5 & H6 & _).
  split; [vm_compute; reflexivity|].
  split; [rewrite H1, <- E; apply Z.sub_diag|].
  split; [exact H5|]. split; [exact H6 | exact H2].
Defined.

(** While paused, input events and ticks find the session as it is. *)
Lemma paused_ignores_outside (ops : list Op) (m : Manager) :
  isPaused (state m) = true -> timer m = false ->
  forallb fromOutside ops = true ->
  run ops m = (m, []).
Proof.
  intros Hp Ht. induction ops as [|o ops IH]; intros Hops; [reflexivity|].
  simpl in Hops. apply andb_true_iff in Hops. destruct Hops as [Ho Hops].
  destruct o; simpl in Ho; try discriminate; simpl.
  - rewrite handleInput_idle
      by (unfold isRunning; rewrite Hp; apply andb_false_r).
    now rewrite (IH Hops).
  - unfold tick. rewrite Ht. now rewrite (IH Hops).
Qed.

(** X5: pausing freezes a running session.  While it is paused, input
    events and ticks change nothing and call no callback, however many
    come; [resume] then gives back the very manager that was paused,
    remaining time, typed text and counters included. *)
Theorem pause_then_resume_restores (ops : list Op) (m : Manager) :
  isRunning m = true -> timer m = true ->
  forallb fromOutside ops = true ->
  run ops (pause m) = (pause m, [])
  /\ resume (fst (run ops (pause m))) = m
  /\ timeRemaining (state (pause m)) = timeRemaining (state m)
  /\ timer (pause m) = false.
Proof.
  intros Hrun Ht Hops. apply isRunning_flags in Hrun.
  destruct Hrun as [Ha Hp].
  assert (Hpaused : isPaused (state (pause m)) = true).
  { unfold pause. rewrite state_clearTimer. reflexivity. }
  assert (Hoff : timer (pause m) = false)
    by (unfold pause; apply timer_clearTimer).
  rewrite (paused_ignores_outside ops (pause m) Hpaused Hoff Hops).
  split; [reflexivity|]. split.
  - cbn [fst]. unfold resume, pause, startTimer, clearTimer.
    destruct m as [c s b]. destruct s. simpl in *. subst. reflexivity.
  - split; [|exact Hoff]. unfold pause. rewrite state_clearTimer.
    reflexivity.
Qed.

Lemma pause_then_resume_restores_witness :
  let ops := [OpTick 3000; OpInput 3500 (JS.lit "Map<"); OpTick 4000] in
  run ops (pause Scenario.threeTyped) = (pause Scenario.threeTyped, [])
  /\ resume (fst (run ops (pause Scenario.threeTyped)))
     = Scenario.threeTyped.
Proof.
  cbv zeta.
  assert (Hrun : isRunning Scenario.threeTyped = true)
    by (vm_compute; reflexivity).
  assert (Ht : timer Scenario.threeTyped = true) by (vm_compute; reflexivity).
  destruct (pause_then_resume_restores
              [OpTick 3000; OpInput 3500 (JS.lit "Map<"); OpTick 4000]
              Scenario.threeTyped Hrun Ht eq_refl) as (H1 & H2 & _).
  split; [exact H1 | exact H2].
Defined.

Lemma clearTimer_withState (m : Manager) (s : State) :
  clearTimer (withState m s)
  = {| config := config m; state := s; timer := false |}.
Proof. unfold clearTimer, withState. simpl. destruct (timer m); reflexivity. Qed.

Lemma configure_idle (c : Config) (rs : RandomSource) (m : Manager) :
  configure c rs m = idleManager c (generatedText rs c).
Proof.
  unfold configure, resetState, generateTestText.
  rewrite clearTimer_withState. reflexivity.
Qed.

Lemma reset_idle (now : Z) (rs : RandomSource) (m : Manager) :
  reset now rs m = idleManager (config m) (generatedText rs (config m)).
Proof.
  unfold reset, generateTestText, resetState.
  rewrite clearTimer_withState. unfold stop.
  rewrite clearTimer_withState. reflexivity.
Qed.


End CountdownFacts.

(** ** The size and the content of the generated text *)

Section TextSizeFacts.

Import TypingTest TypingMore.

Lemma len_join (parts : list jsstring) :
  parts <> [] -> len (join (lit " ") parts) = accumulated parts - 1.
Proof.
  induction parts as [|p parts IH]; [congruence|]. intros _.
  destruct parts as [|q parts].
  - simpl. lia.
  - change (join (lit " ") (p :: q :: parts))
      with (p ++ lit " " ++ join (lit " ") (q :: parts)).
    rewrite !len_app, IH by discriminate.
    change (accumulated (p :: q :: parts))
      with (len p + 1 + accumulated (q :: parts)).
    change (len (lit " ")) with 1. lia.
Qed.

Lemma difficultyPool_cases (d : string) : In (difficultyPool d) allPools.
Proof.
  unfold difficultyPool, difficulties, lookup, allPools.
  repeat match goal with
         | |- context [String.eqb ?a ?b] => destruct (String.eqb a b)
         end; simpl; tauto.
Qed.

Lemma snippetSet_cases (l : string) :
  In (snippetSet l)
     [python_snippets; javascript_snippets; cpp_snippets; java_snippets].
Proof.
  unfold snippetSet, code_snippets, lookup.
  repeat match goal with
         | |- context [String.eqb ?a ?b] => destruct (String.eqb a b)
         end; simpl; tauto.
Qed.

Lemma len_le_longestPart (p : Pool) (x : jsstring) :
  In x (sentences p ++ words p) -> len x <= longestPart p.
Proof.
  unfold longestPart. induction (sentences p ++ words p) as [|y l IH];
    simpl; [tauto|].
  intros [E | Hin]; [subst; lia | specialize (IH Hin); lia].
Qed.

(** The parts of a generated text in words mode. *)
Lemma generatedText_parts (rs : RandomSource) (c : Config) :
  mode c <> "code"%string ->
  exists ds dw : list jsstring,
    generatedText rs c = join (lit " ") (ds ++ dw)
    /\ (forall x, In x ds -> In x (sentences (difficultyPool (difficulty c))))
    /\ (forall x, In x dw -> In x (words (difficultyPool (difficulty c))))
    /\ (forall pre x post, ds = pre ++ x :: post ->
          (inject_Z (accumulated pre)
           < inject_Z (targetChars c) * (6 # 10))%Q)
    /\ (words (difficultyPool (difficulty c)) = []
        \/ targetChars c <= accumulated (ds ++ dw))
    /\ (forall pre x post, dw = pre ++ x :: post ->
          accumulated (ds ++ pre) < targetChars c).
Proof.
  intros Hmode. unfold generatedText.
  apply String.eqb_neq in Hmode. rewrite Hmode.
  unfold afterWords, afterSentences.
  set (pool := difficultyPool (difficulty c)).
  set (g0 := {| draws := 0; poolLeft := sentences pool;
                currentLength := 0; textParts := [] |}).
  destruct (sentenceLoop_spec rs (inject_Z (targetChars c) * (6 # 10))
              (List.length (sentences pool)) g0 (le_n _))
    as (ds & Stp & Sperm & Scl & _ & _ & Spre).
  set (g1 := sentenceLoop (List.length (sentences pool)) rs
               (inject_Z (targetChars c) * (6 # 10)) g0) in *.
  simpl in Stp, Sperm, Scl, Spre.
  set (g2 := {| draws := draws g1; poolLeft := words pool;
                currentLength := currentLength g1;
                textParts := textParts g1 |}).
  destruct (wordLoop_spec rs (targetChars c)
              (Z.to_nat (targetChars c - currentLength g1)) g2 (le_n _))
    as (dw & Wtp & _ & Win & Wcl & Wstop & Wpre).
  simpl in Wtp, Win, Wcl, Wstop, Wpre.
  exists ds, dw.
  split; [rewrite Wtp, Stp; reflexivity|].
  split.
  { intros x Hx. eapply Permutation_in; [exact Sperm|].
    apply in_or_app. now left. }
  split; [intros x Hx; rewrite Forall_forall in Win; now apply Win|].
  split; [exact Spre|].
  split.
  { destruct Wstop as [E | Hge]; [left; exact E | right].
    rewrite accumulated_app. rewrite Wcl, Scl in Hge. lia. }
  intros pre x post E. rewrite accumulated_app.
  specialize (Wpre pre x post E). rewrite Scl in Wpre. lia.
Qed.

Lemma last_part {A} (l : list A) :
  l <> [] -> exists pre x, l = pre ++ [x].
Proof.
  intros H. destruct (exists_last H) as (pre & x & E). now exists pre, x.
Qed.

(** X7: in words mode, for a difficulty the content data is read
    under (one that is not a name every object inherits), the text has
    about the length that 40 words a minute type in the configured
    time.  For a time of [t >= 1] minutes
    its length is at least [200 t - 1] and less than [200 t] plus the
    length of the longest sentence or word of the difficulty's pool,
    which is at most 63 characters, so it is never empty; for a time of
    zero or less the text is empty. *)
Theorem words_text_length (rs : RandomSource) (c : Config) :
  mode c <> "code"%string ->
  inherited (difficulty c) = false ->
  let text := generatedText rs c in
  let longest := longestPart (difficultyPool (difficulty c)) in
  (time c <= 0 -> text = [])
  /\ (1 <= time c ->
      200 * time c - 1 <= len text
      /\ len text < 200 * time c + longest
      /\ text <> [])
  /\ longest <= 63.
Proof.
  intros Hmode _. cbv zeta.
  destruct (generatedText_parts rs c Hmode)
    as (ds & dw & Htxt & Hds & Hdw & Spre & Wstop & Wpre).
  assert (HT : targetChars c = 200 * time c)
    by (unfold targetChars, targetWPM; lia).
  rewrite HT in *.
  pose proof (difficultyPool_cases (difficulty c)) as Hpool.
  split; [|split].
  - intros Ht.
    assert (Eds : ds = []).
    { destruct ds as [|x ds]; [reflexivity|]. exfalso.
      specialize (Spre [] x ds eq_refl).
      change (accumulated []) with 0 in Spre.
      apply Qlt_not_le in Spre. apply Spre.
      setoid_replace 0%Q with (0 * (6 # 10))%Q by ring.
      apply Qmult_le_compat_r; [|discriminate].
      change 0%Q with (inject_Z 0). rewrite <- Zle_Qle. lia. }
    assert (Edw : dw = []).
    { destruct dw as [|x dw]; [reflexivity|]. exfalso.
      specialize (Wpre [] x dw eq_refl). rewrite Eds in Wpre.
      change (accumulated ([] ++ [])) with 0 in Wpre. lia. }
    rewrite Htxt, Eds, Edw. reflexivity.
  - intros Ht.
    assert (Hwords : words (difficultyPool (difficulty c)) <> []).
    { simpl in Hpool.
      destruct Hpool as [E | [E | [E | [E | [E | []]]]]]; rewrite <- E;
        discriminate. }
    destruct Wstop as [E | Hge]; [contradiction|].
    assert (Hne : ds ++ dw <> []).
    { intros E. rewrite E in Hge. change (accumulated []) with 0 in Hge.
      lia. }
    rewrite Htxt, (len_join _ Hne).
    assert (Hup : accumulated (ds ++ dw)
                  <= 200 * time c
                     + longestPart (difficultyPool (difficulty c))).
    { destruct dw as [|w0 dw0].
      - rewrite app_nil_r in *.
        destruct (last_part ds Hne) as (pre & x & E).
        specialize (Spre pre x [] E).
        assert (Hx : len x <= longestPart (difficultyPool (difficulty c))).
        { apply len_le_longestPart, in_or_app. left. apply Hds.
          rewrite E. apply in_or_app. right. now left. }
        assert (Hpre : accumulated pre < 200 * time c).
        { rewrite Zlt_Qlt. eapply Qlt_le_trans; [exact Spre|].
          setoid_replace (inject_Z (200 * time c))
            with (inject_Z (200 * time c) * 1)%Q at 2 by ring.
          apply Qmult_le_l; [|discriminate].
          change 0%Q with (inject_Z 0). rewrite <- Zlt_Qlt. lia. }
        rewrite E, accumulated_app.
        change (accumulated [x]) with (len x + 1 + 0). lia.
      - assert (Hdwne : w0 :: dw0 <> []) by discriminate.
        destruct (last_part (w0 :: dw0) Hdwne) as (pre & x & E).
        specialize (Wpre pre x [] E).
        assert (Hx : len x <= longestPart (difficultyPool (difficulty c))).
        { apply len_le_longestPart, in_or_app. right. apply Hdw.
          rewrite E. apply in_or_app. right. now left. }
        rewrite E, app_assoc, accumulated_app.
        change (accumulated [x]) with (len x + 1 + 0). lia. }
    split; [lia|]. split; [lia|].
    intros E. apply (f_equal (@len ascii)) in E.
    rewrite (len_join _ Hne) in E.
    change (len (@nil ascii)) with 0 in E. lia.
  - simpl in Hpool.
    destruct Hpool as [E | [E | [E | [E | [E | []]]]]]; rewrite <- E;
      vm_compute; discriminate.
Qed.

Lemma words_text_length_witness :
  let text := generatedText (Scenario.constantSource zeroRandom)
                Scenario.wordsConfig in
  199 <= len text /\ len text < 200 + 21.
Proof.
  cbv zeta.
  assert (Hmode : mode Scenario.wordsConfig <> "code"%string)
    by (vm_compute; discriminate).
  assert (Hkey : inherited (difficulty Scenario.wordsConfig) = false)
    by (vm_compute; reflexivity).
  destruct (words_text_length (Scenario.constantSource zeroRandom)
              Scenario.wordsConfig Hmode Hkey) as (_ & H & _).
  assert (Ht : 1 <= time Scenario.wordsConfig) by (vm_compute; discriminate).
  destruct (H Ht) as (H1 & H2 & _).
  split; [exact H1 | exact H2].
Defined.

Lemma code_text_membership (rs : RandomSource) (c : Config) :
  mode c = "code"%string ->
  In (generatedText rs c) (snippetSet (language c))
  /\ In (generatedText rs c) allSnippets.
Proof.
  intros Hmode. unfold generatedText. rewrite Hmode. simpl String.eqb.
  cbv iota.
  set (snips := snippetSet (language c)).
  set (i := randomIndex (rs 0%nat) (List.length snips)).
  pose proof (snippetSet_cases (language c)) as Hset. fold snips in Hset.
  assert (Hlen : (0 < List.length snips)%nat).
  { simpl in Hset.
    destruct Hset as [E | [E | [E | [E | []]]]]; rewrite <- E; simpl; lia. }
  assert (Hin : In (nth i snips []) snips)
    by (apply nth_In, randomIndex_lt, Hlen).
  split; [exact Hin|].
  unfold allSnippets. simpl in Hset.
  destruct Hset as [E | [E | [E | [E | []]]]]; rewrite <- E in Hin |- *.
  - apply in_or_app. now left.
  - apply in_or_app. right. apply in_or_app. now left.
  - apply in_or_app. right. apply in_or_app. right.
    apply in_or_app. now left.
  - apply in_or_app. right. apply in_or_app. right.
    apply in_or_app. now right.
Qed.

Lemma snippets_have_no_tab (s : jsstring) :
  In s allSnippets -> ~ In tab s /\ s <> [].
Proof.
  intros Hall.
  assert (Hcheck : forallb (fun s => negb (existsb (Ascii.eqb tab) s)
                                      && (0 <? len s))
                     allSnippets = true)
    by (vm_compute; reflexivity).
  rewrite forallb_forall in Hcheck. specialize (Hcheck _ Hall).
  apply andb_true_iff in Hcheck. destruct Hcheck as [Hnotab Hnonempty].
  split.
  - intros Htab. apply negb_true_iff in Hnotab.
    assert (existsb (Ascii.eqb tab) s = true).
    { apply existsb_exists. exists tab. split; [exact Htab|].
      apply Ascii.eqb_refl. }
    congruence.
  - intros E. rewrite E in Hnonempty. discriminate.
Qed.

(** X8: in code mode, for a language the content data is read under
    (one that is not a name every object inherits), the text is one
    whole snippet of the configured language, and one of the
    JavaScript snippets when the language has no snippets; whatever
    the draw, it is a snippet of the content data, it is not empty and
    it holds no tab character. *)
Theorem code_text_is_a_snippet (rs : RandomSource) (c : Config) :
  mode c = "code"%string ->
  inherited (language c) = false ->
  In (generatedText rs c) (snippetSet (language c))
  /\ (forall snippets, lookup (language c) code_snippets = Some snippets ->
      In (generatedText rs c) snippets)
  /\ (lookup (language c) code_snippets = None ->
      In (generatedText rs c) javascript_snippets)
  /\ In (generatedText rs c) allSnippets
  /\ generatedText rs c <> []
  /\ ~ In tab (generatedText rs c).
Proof.
  intros Hmode _.
  destruct (code_text_membership rs c Hmode) as (Hin & Hall).
  destruct (snippets_have_no_tab _ Hall) as (Hnotab & Hne).
  split; [exact Hin|]. split.
  { intros snippets Hsome. unfold snippetSet in Hin.
    now rewrite Hsome in Hin. }
  split.
  { intros Hnone. unfold snippetSet in Hin. now rewrite Hnone in Hin. }
  split; [exact Hall|]. split; [exact Hne | exact Hnotab].
Qed.

Lemma code_text_is_a_snippet_witness :
  In (generatedText (Scenario.constantSource Scenario.sevenTenths)
        Scenario.codeConfig) java_snippets.
Proof.
  assert (Hmode : mode Scenario.codeConfig = "code"%string) by reflexivity.
  assert (Hkey : inherited (language Scenario.codeConfig) = false)
    by (vm_compute; reflexivity).
  destruct (code_text_is_a_snippet
              (Scenario.constantSource Scenario.sevenTenths)
              Scenario.codeConfig Hmode Hkey) as (H & _).
  exact H.
Defined.

End TextSizeFacts.

(** ** The Tab key in code mode *)

Section TabFacts.

Import TypingTest TypingMore Keys.

(** Only [configure] and [reset] write the configuration or the target
    text. *)
Lemma text_and_config_apply (o : Op) (m : Manager) :
  resetsState o = false ->
  config (fst (apply o m)) = config m
  /\ currentText (state (fst (apply o m))) = currentText (state m).
Proof.
  intros Hr. destruct o; simpl in Hr; try discriminate; cbn [apply fst].
  - unfold start, startTimer, clearTimer. cbn [fst].
    destruct (timer (withState m _)); split; reflexivity.
  - unfold pause, clearTimer. destruct (timer (withState m _));
      split; reflexivity.
  - unfold resume, startTimer, clearTimer.
    destruct (timer (withState m _)); split; reflexivity.
  - unfold stop, clearTimer. destruct (timer (withState m _));
      split; reflexivity.
  - destruct (isRunning m) eqn:Hrun.
    + destruct (Z.lt_ge_cases (len inputValue) (len (typedText (state m))))
        as [Hd | Hi].
      * rewrite (handleInput_deletion now inputValue m Hrun Hd).
        split; reflexivity.
      * rewrite (handleInput_insertion now inputValue m Hrun Hi).
        destruct (insertion_typed now inputValue m) as (_ & _ & _ & H4 & H5).
        split; assumption.
    + rewrite (handleInput_idle now inputValue m Hrun). split; reflexivity.
  - unfold tick, timerCallback. destruct (timer m); [|split; reflexivity].
    destruct (negb (isPaused (state m)) && isActive (state m));
      [|split; reflexivity].
    destruct (timeRemaining
                (state (withState m
                          (set_timeRemaining (timeRemaining (state m) - 1)
                             (state m)))) <=? 0);
      [|split; reflexivity].
    unfold completeTest, stop, clearTimer. cbn [fst].
    destruct (timer (withState _ _)); split; reflexivity.
Qed.

(** The target text of a session is the empty text of the constructor,
    or a text generated for the configuration in place. *)
Lemma Reachable_text (m : Manager) :
  Reachable m ->
  (config m = config initialManager /\ currentText (state m) = [])
  \/ exists rs, currentText (state m) = generatedText rs (config m).
Proof.
  induction 1 as [|o m _ IH]; [left; split; reflexivity|].
  destruct (resetsState o) eqn:Hr.
  - right. destruct o; simpl in Hr; try discriminate; cbn [apply fst].
    + exists rs. rewrite configure_idle. reflexivity.
    + exists rs. rewrite reset_idle. reflexivity.
  - destruct (text_and_config_apply o m Hr) as (Hc & Ht).
    rewrite Hc, Ht. exact IH.
Qed.

Lemma Reachable_code_text (m : Manager) :
  Reachable m -> mode (config m) = "code"%string ->
  ~ In tab (currentText (state m)).
Proof.
  intros Hm Hmode. destruct (Reachable_text m Hm) as [(Hc & _) | (rs & Ht)].
  - rewrite Hc in Hmode. discriminate.
  - rewrite Ht. apply snippets_have_no_tab.
    now apply code_text_membership.
Qed.

Lemma substring_prefix (s : jsstring) (n : nat) :
  substring s 0 n = firstn n s.
Proof.
  unfold substring. rewrite Nat.max_0_l, Nat.min_0_l, Nat.sub_0_r.
  reflexivity.
Qed.

(** X9: in a running code-mode session, with the widget holding the
    typed text and the caret at its end, the Tab key appends a tab
    character and the input event it dispatches counts an error: no
    snippet holds a tab, so the expected character is never one.  The
    position moves on by one and the session keeps running. *)
Theorem tab_key_counts_an_error (now : Z) (input : Input) (m : Manager) :
  Reachable m ->
  isRunning m = true ->
  mode (config m) = "code"%string ->
  value input = typedText (state m) ->
  selectionStart input = List.length (value input) ->
  selectionEnd input = List.length (value input) ->
  let r := handleKeyDown now "Tab" input m in
  let m' := fst (snd r) in
  value (fst r) = typedText (state m) ++ [tab]
  /\ selectionStart (fst r) = S (List.length (typedText (state m)))
  /\ typedText (state m') = value (fst r)
  /\ currentPosition (state m') = currentPosition (state m) + 1
  /\ errors (state m') = errors (state m) + 1
  /\ totalChars (state m') = totalChars (state m) + 1
  /\ correctChars (state m') = correctChars (state m)
  /\ isRunning m' = true
  /\ existsb isComplete (snd (snd r)) = false.
Proof.
  intros Hm Hrun Hmode Hval Hs He. cbv zeta.
  unfold handleKeyDown. rewrite Hmode. simpl String.eqb. cbv iota zeta.
  rewrite substring_prefix, Hs, He, firstn_all, skipn_all, Hval.
  cbn [fst snd value selectionStart]. rewrite app_nil_r.
  set (v := typedText (state m) ++ [tab]).
  assert (Hlen : len (typedText (state m)) <= len v).
  { unfold v. rewrite len_app. pose proof (len_nonneg [tab]). lia. }
  rewrite (handleInput_insertion now v m Hrun Hlen).
  destruct (insertion_typed now v m) as (Ht & Hp & Htot & _).
  destruct (insertion_counters now v m) as (Hc & Herr).
  destruct (insertion_completes now v m Hrun) as (Hd & Hr & _).
  cbv zeta in Hc, Herr, Hd, Hr.
  assert (Hmiss : strictEq (charAt v (len v - 1))
                    (charAt (currentText (state m))
                       (currentPosition (state m))) = false).
  { unfold v. rewrite charAt_app_last. unfold charAt.
    destruct (currentPosition (state m) <? 0); [reflexivity|].
    destruct (nth_error (currentText (state m))
                (Z.to_nat (currentPosition (state m)))) as [c|] eqn:N;
      [|reflexivity].
    cbn [strictEq]. apply (proj2 (Ascii.eqb_neq _ _)). intros E. subst c.
    apply nth_error_In in N.
    exact (Reachable_code_text m Hm Hmode N). }
  rewrite Hmiss in *. simpl in Hd, Hr.
  destruct (Reachable_Invariant m Hm) as (Hpos & _).
  split; [reflexivity|].
  split; [lia|].
  split; [exact Ht|].
  split; [rewrite Hp, Hpos; unfold v; rewrite len_app; reflexivity|].
  split; [exact Herr|]. split; [exact Htot|].
  split; [rewrite Hc; lia|]. split; [exact Hr | exact Hd].
Qed.

Lemma tab_key_counts_an_error_witness :
  let input := mkInput (JS.lit "Map") 3 3 in
  let r := handleKeyDown 2000 "Tab" input Scenario.threeTyped in
  value (fst r) = JS.lit "Map" ++ [tab]
  /\ errors (state (fst (snd r))) = 1
  /\ correctChars (state (fst (snd r))) = 3.
Proof.
  cbv zeta.
  assert (Hm : Reachable Scenario.threeTyped).
  { unfold Scenario.threeTyped. apply Reachable_run.
    unfold Scenario.started. apply Reachable_run. constructor. }
  assert (Hrun : isRunning Scenario.threeTyped = true)
    by (vm_compute; reflexivity).
  assert (Hmode : mode (config Scenario.threeTyped) = "code"%string)
    by (vm_compute; reflexivity).
  assert (Hval : value (mkInput (JS.lit "Map") 3 3)
                 = typedText (state Scenario.threeTyped))
    by (vm_compute; reflexivity).
  destruct (tab_key_counts_an_error 2000 (mkInput (JS.lit "Map") 3 3)
              Scenario.threeTyped Hm Hrun Hmode Hval eq_refl eq_refl)
    as (H1 & _ & _ & _ & H5 & _ & H7 & _).
  split; [rewrite H1; vm_compute; reflexivity|].
  split; [rewrite H5; vm_compute; reflexivity|].
  rewrite H7. vm_compute. reflexivity.
Defined.

End TabFacts.

(** ** The text display *)

Section DisplayFacts.

Import TypingTest TypingMore Display.

Lemma jsstring_eqb_eq (a b : jsstring) : jsstring_eqb a b = true <-> a = b.
Proof.
  unfold jsstring_eqb. rewrite String.eqb_eq. split; [|now intros ->].
  intros E. apply (f_equal list_ascii_of_string) in E.
  now rewrite !list_ascii_of_string_of_list_ascii in E.
Qed.

Lemma In_allAscii (c : ascii) : In c allAscii.
Proof.
  unfold allAscii. rewrite <- (ascii_nat_embedding c).
  apply in_map, in_seq. pose proof (nat_ascii_bounded c). lia.
Qed.

Lemma classifiedFrom_chars (s : State) (text : jsstring) :
  forall i, map snd (classifiedFrom s i text) = text.
Proof.
  induction text as [|c text IH]; intros i; simpl; [reflexivity|].
  now rewrite IH.
Qed.

Lemma className_current (s : State) (i : Z) (c : ascii) :
  String.eqb (string_of_list_ascii (className s i c)) "current"
  = (i =? currentPosition s).
Proof.
  unfold className. destruct (i <? currentPosition s) eqn:L1.
  - apply Z.ltb_lt in L1.
    replace (i =? currentPosition s) with false
      by (symmetry; apply Z.eqb_neq; lia).
    destruct (strictEq _ _); reflexivity.
  - destruct (i =? currentPosition s); reflexivity.
Qed.

(** The number of spans of class [current] from the index [i] on. *)
Lemma current_from (s : State) (text : jsstring) :
  forall i,
  List.length
    (filter (fun cls => String.eqb (string_of_list_ascii cls) "current")
            (map fst (classifiedFrom s i text)))
  = if (i <=? currentPosition s) && (currentPosition s <? i + len text)
    then 1%nat else 0%nat.
Proof.
  induction text as [|c text IH]; intros i.
  - simpl. change (len (@nil ascii)) with 0.
    destruct (i <=? currentPosition s) eqn:E1;
      destruct (currentPosition s <? i + 0) eqn:E2; try reflexivity.
    apply Z.leb_le in E1. apply Z.ltb_lt in E2. lia.
  - cbn [classifiedFrom map fst filter]. rewrite className_current.
    replace (len (c :: text)) with (1 + len text)
      by (unfold len; simpl List.length; lia).
    pose proof (len_nonneg text) as Hn.
    destruct (i =? currentPosition s) eqn:L2; cbn [List.length];
      rewrite IH;
      destruct (i + 1 <=? currentPosition s) eqn:A1;
      destruct (currentPosition s <? i + 1 + len text) eqn:A2;
      destruct (i <=? currentPosition s) eqn:A3;
      destruct (currentPosition s <? i + (1 + len text)) eqn:A4;
      cbn [andb]; try reflexivity; exfalso;
      rewrite ?Z.eqb_eq, ?Z.eqb_neq, ?Z.leb_le, ?Z.leb_gt, ?Z.ltb_lt,
        ?Z.ltb_ge in *; lia.
Qed.

(** X10: the display always shows the target text, one span per
    character and in order, whatever was typed (a wrong character is
    shown as the expected one in the class [incorrect], never as
    itself); exactly one span has the class [current] while the position
    is inside the target, and none once it has reached the end or gone
    past it. *)
Theorem display_shows_the_target (s : State) :
  map snd (classified s) = currentText s
  /\ List.length (classes s) = List.length (currentText s)
  /\ shownAs "current" s
     = if (0 <=? currentPosition s)
          && (currentPosition s <? len (currentText s))
       then 1%nat else 0%nat.
Proof.
  split; [apply classifiedFrom_chars|]. split.
  - unfold classes. rewrite length_map.
    rewrite <- (length_map snd (classified s)).
    unfold classified. now rewrite classifiedFrom_chars.
  - unfold shownAs, classes, classified. rewrite current_from.
    reflexivity.
Qed.

Lemma filter_repeat_none {A} (f : A -> bool) (x : A) (n : nat) :
  f x = false -> filter f (repeat x n) = [].
Proof.
  intros H. induction n as [|n IH]; [reflexivity|].
  simpl. now rewrite H.
Qed.

Lemma classes_typed_part (s : State) (text : jsstring) :
  forall (p i : nat),
  currentPosition s = Z.of_nat (i + p) ->
  (forall j c, (j < p)%nat -> nth_error text j = Some c ->
               nth_error (typedText s) (i + j) = Some c) ->
  (p <= List.length text)%nat ->
  map fst (classifiedFrom s (Z.of_nat i) text)
  = repeat (lit "correct") p
    ++ map fst (classifiedFrom s (Z.of_nat (i + p)) (skipn p text)).
Proof.
  induction text as [|c text IH]; intros p i Hpos Hty Hp.
  - simpl in Hp. assert (p = 0)%nat by lia. subst p. reflexivity.
  - destruct p as [|p].
    + simpl. rewrite Nat.add_0_r. reflexivity.
    + cbn [classifiedFrom map fst repeat skipn app].
      f_equal.
      * unfold className. rewrite Hpos.
        replace (Z.of_nat i <? Z.of_nat (i + S p)) with true
          by (symmetry; apply Z.ltb_lt; lia).
        unfold charAt.
        replace (Z.of_nat i <? 0) with false
          by (symmetry; apply Z.ltb_ge; lia).
        rewrite Nat2Z.id.
        specialize (Hty 0%nat c). rewrite Nat.add_0_r in Hty.
        rewrite Hty by (simpl; auto; lia).
        simpl. now rewrite Ascii.eqb_refl.
      * replace (Z.of_nat i + 1) with (Z.of_nat (S i)) by lia.
        replace (i + S p)%nat with (S i + p)%nat by lia.
        apply IH.
        -- rewrite Hpos. f_equal. lia.
        -- intros j d Hj Hd.
           replace (S i + j)%nat with (i + S j)%nat by lia.
           apply Hty; [lia | exact Hd].
        -- simpl in Hp. lia.
Qed.

Lemma classes_untyped_part (s : State) (text : jsstring) :
  forall i, currentPosition s < i ->
  map fst (classifiedFrom s i text)
  = repeat (lit "untyped") (List.length text).
Proof.
  induction text as [|c text IH]; intros i Hi; [reflexivity|].
  cbn [classifiedFrom map fst List.length repeat]. f_equal.
  - unfold className.
    replace (i <? currentPosition s) with false
      by (symmetry; apply Z.ltb_ge; lia).
    replace (i =? currentPosition s) with false
      by (symmetry; apply Z.eqb_neq; lia).
    reflexivity.
  - apply IH. lia.
Qed.

(** X11: when what was typed is the target up to the position, the
    display shows the typed part as [correct], the next character as
    [current] and the rest as [untyped]. *)
Theorem display_of_a_correct_prefix (s : State) (p : nat) :
  typedText s = firstn p (currentText s) ->
  currentPosition s = Z.of_nat p ->
  (p <= List.length (currentText s))%nat ->
  classes s
  = repeat (lit "correct") p
    ++ (if (p <? List.length (currentText s))%nat
        then lit "current"
             :: repeat (lit "untyped") (List.length (currentText s) - p - 1)
        else [])
  /\ shownAs "incorrect" s = 0%nat.
Proof.
  intros Hty Hpos Hp.
  assert (Hcls : classes s
                 = repeat (lit "correct") p
                   ++ (if (p <? List.length (currentText s))%nat
                       then lit "current"
                            :: repeat (lit "untyped")
                                 (List.length (currentText s) - p - 1)
                       else [])).
  { unfold classes, classified. change 0 with (Z.of_nat 0).
    rewrite (classes_typed_part s (currentText s) p 0).
    - f_equal. cbn [Nat.add].
      destruct (p <? List.length (currentText s))%nat eqn:E.
      + apply Nat.ltb_lt in E.
        destruct (skipn p (currentText s)) as [|c rest] eqn:Es.
        * apply (f_equal (@List.length ascii)) in Es.
          rewrite length_skipn in Es. simpl in Es. lia.
        * cbn [classifiedFrom map fst]. f_equal.
          -- unfold className. rewrite Hpos, Z.ltb_irrefl, Z.eqb_refl.
             reflexivity.
          -- rewrite classes_untyped_part by lia.
             apply (f_equal (@List.length ascii)) in Es.
             rewrite length_skipn in Es. simpl in Es.
             f_equal. lia.
      + apply Nat.ltb_ge in E. rewrite skipn_all2 by lia. reflexivity.
    - simpl. exact Hpos.
    - intros j c Hj Hc. simpl. rewrite Hty.
      rewrite nth_error_firstn.
      replace (j <? p)%nat with true by (symmetry; apply Nat.ltb_lt; lia).
      exact Hc.
    - exact Hp. }
  split; [exact Hcls|].
  unfold shownAs. rewrite Hcls, filter_app, length_app.
  unfold jsstring.
  match goal with
  | |- context [filter ?f (repeat ?x p)] =>
      rewrite (filter_repeat_none f x p eq_refl)
  end.
  destruct (p <? List.length (currentText s))%nat; [|reflexivity].
  cbn [filter]. change (String.eqb (string_of_list_ascii (lit "current"))
                          "incorrect") with false. cbv iota.
  match goal with
  | |- context [filter ?f (repeat ?x ?k)] =>
      rewrite (filter_repeat_none f x k eq_refl)
  end.
  reflexivity.
Qed.

Lemma display_of_a_correct_prefix_witness :
  map string_of_list_ascii
      (firstn 5 (classes (state Scenario.threeTyped)))
  = ["correct"; "correct"; "correct"; "current"; "untyped"]%string.
Proof.
  assert (Hty : typedText (state Scenario.threeTyped)
                = firstn 3 (currentText (state Scenario.threeTyped)))
    by (vm_compute; reflexivity).
  assert (Hpos : currentPosition (state Scenario.threeTyped) = Z.of_nat 3)
    by (vm_compute; reflexivity).
  assert (Hp : (3 <= List.length (currentText (state Scenario.threeTyped)))%nat)
    by (vm_compute; lia).
  destruct (display_of_a_correct_prefix (state Scenario.threeTyped) 3
              Hty Hpos Hp) as (H & _).
  rewrite H. vm_compute. reflexivity.
Defined.

(** X12: the way a character is written is safe as markup and loses
    nothing: [<] and [>] appear only in the line break written for a
    newline, [&] only at the head of an entity that a [;] closes, and
    two different characters are never written the same way. *)
Theorem displayChar_escapes (c d : ascii) :
  (displayChar c = displayChar d -> c = d)
  /\ (In "<"%char (displayChar c) \/ In ">"%char (displayChar c) ->
      c = ascii_of_nat 10 /\ displayChar c = lit "<br>")
  /\ (In "&"%char (displayChar c) ->
      hd "x"%char (displayChar c) = "&"%char
      /\ last (displayChar c) "x"%char = ";"%char).
Proof.
  assert (Hinj : forallb (fun a =>
                   forallb (fun b =>
                     implb (jsstring_eqb (displayChar a) (displayChar b))
                           (Ascii.eqb a b)) allAscii) allAscii = true)
    by (vm_compute; reflexivity).
  assert (Hsafe : forallb (fun a =>
                    implb (existsb (Ascii.eqb "<") (displayChar a)
                           || existsb (Ascii.eqb ">") (displayChar a))
                          (Ascii.eqb a (ascii_of_nat 10)
                           && jsstring_eqb (displayChar a) (lit "<br>"))
                    && implb (existsb (Ascii.eqb "&") (displayChar a))
                             (Ascii.eqb (hd "x"%char (displayChar a)) "&"
                              && Ascii.eqb (last (displayChar a) "x"%char)
                                   ";")) allAscii = true)
    by (vm_compute; reflexivity).
  rewrite forallb_forall in Hinj, Hsafe.
  specialize (Hinj c (In_allAscii c)). rewrite forallb_forall in Hinj.
  specialize (Hinj d (In_allAscii d)).
  specialize (Hsafe c (In_allAscii c)).
  apply andb_true_iff in Hsafe. destruct Hsafe as [Hlt Hamp].
  split; [|split].
  - intros E. apply jsstring_eqb_eq in E. rewrite E in Hinj.
    now apply Ascii.eqb_eq.
  - intros H.
    assert (Hex : existsb (Ascii.eqb "<") (displayChar c)
                  || existsb (Ascii.eqb ">") (displayChar c) = true).
    { apply orb_true_iff. destruct H as [H | H]; [left | right];
        apply existsb_exists; eexists; (split; [exact H|]);
        apply Ascii.eqb_refl. }
    rewrite Hex in Hlt. simpl in Hlt. apply andb_true_iff in Hlt.
    destruct Hlt as [H1 H2].
    split; [now apply Ascii.eqb_eq | now apply jsstring_eqb_eq].
  - intros H.
    assert (Hex : existsb (Ascii.eqb "&") (displayChar c) = true).
    { apply existsb_exists. eexists. split; [exact H|].
      apply Ascii.eqb_refl. }
    rewrite Hex in Hamp. simpl in Hamp. apply andb_true_iff in Hamp.
    destruct Hamp as [H1 H2]. split; now apply Ascii.eqb_eq.
Qed.

End DisplayFacts.

(** ** The time display *)

Section TimeDisplayFacts.

Import AppDisplay.

Lemma digits_of_uint (d : Decimal.uint) :
  Forall (fun c => isDigit c = true)
         (list_ascii_of_string (NilEmpty.string_of_uint d)).
Proof.
  induction d; simpl; constructor; auto.
Qed.

Lemma decimal_digits (n : Z) :
  0 <= n -> Forall (fun c => isDigit c = true) (decimal n).
Proof.
  intros Hn. unfold decimal. destruct n as [|p|p]; [| |lia].
  - simpl. repeat constructor.
  - simpl. unfold NilZero.string_of_uint.
    destruct (Pos.to_uint p) eqn:E;
      try (rewrite <- E; apply digits_of_uint).
    simpl. repeat constructor.
Qed.

Lemma decimal_inj (a b : Z) : decimal a = decimal b -> a = b.
Proof.
  unfold decimal. intros E.
  apply (f_equal string_of_list_ascii) in E.
  rewrite !string_of_list_ascii_of_string in E.
  apply (f_equal NilZero.int_of_string) in E.
  assert (Hn : forall z, Z.to_int z <> Decimal.Pos Decimal.Nil
                         /\ Z.to_int z <> Decimal.Neg Decimal.Nil).
  { intros [|p|p]; simpl; split; try discriminate; intros [= H];
      exact (DecimalPos.Unsigned.to_uint_nonnil p H). }
  rewrite !NilZero.isi in E by apply Hn.
  injection E as E. now apply DecimalZ.to_int_inj.
Qed.

Lemma toString_safe (n : Z) :
  0 <= n <= maxSafeInteger -> toString n = Some (decimal n).
Proof.
  intros Hn. unfold toString, safeInteger.
  rewrite Z.abs_eq by lia.
  destruct (n <=? maxSafeInteger) eqn:E; [reflexivity|].
  apply Z.leb_gt in E. lia.
Qed.

(** The seconds field of the sixty values it can take. *)
Lemma two_digit_seconds (r : Z) :
  0 <= r < 60 ->
  exists a b : ascii,
    padStart 2 "0" (decimal r) = [a; b]
    /\ isDigit a = true /\ isDigit b = true
    /\ 10 * digitValue a + digitValue b = r.
Proof.
  intros Hr.
  assert (Hall : forallb (fun k =>
                   match padStart 2 "0" (decimal (Z.of_nat k)) with
                   | [a; b] => isDigit a && isDigit b
                               && (10 * digitValue a + digitValue b
                                   =? Z.of_nat k)
                   | _ => false
                   end) (seq 0 60) = true)
    by (vm_compute; reflexivity).
  rewrite forallb_forall in Hall.
  specialize (Hall (Z.to_nat r)).
  rewrite Z2Nat.id in Hall by lia.
  assert (Hin : In (Z.to_nat r) (seq 0 60)) by (apply in_seq; lia).
  specialize (Hall Hin).
  destruct (padStart 2 "0" (decimal r)) as [|a [|b [|c l]]];
    try discriminate.
  exists a, b. apply andb_true_iff in Hall. destruct Hall as [Hd Hv].
  apply andb_true_iff in Hd. destruct Hd as [Ha Hb].
  apply Z.eqb_eq in Hv. auto.
Qed.

Lemma split_at_colon (u v x y : jsstring) :
  Forall (fun c => isDigit c = true) u ->
  Forall (fun c => isDigit c = true) v ->
  u ++ ":"%char :: x = v ++ ":"%char :: y -> u = v /\ x = y.
Proof.
  revert v. induction u as [|a u IH]; intros [|b v] Hu Hv E.
  - injection E as E. auto.
  - simpl in E. injection E as E1 E2. inversion Hv as [|? ? Hb _]; subst.
    discriminate.
  - simpl in E. injection E as E1 E2. inversion Hu as [|? ? Ha _]; subst.
    discriminate.
  - simpl in E. injection E as E1 E2. subst b.
    inversion Hu as [|? ? _ Hu']; inversion Hv as [|? ? _ Hv']; subst.
    destruct (IH v Hu' Hv' E2) as (G1 & G2). now subst.
Qed.

Lemma formatTime_shape (z : Z) :
  0 <= z <= maxSafeInteger ->
  exists a b : ascii,
    formatTime z = Some (decimal (z / 60) ++ [":"%char; a; b])
    /\ Forall (fun c => isDigit c = true) (decimal (z / 60))
    /\ isDigit a = true /\ isDigit b = true
    /\ 10 * digitValue a + digitValue b = z mod 60.
Proof.
  intros Hz. unfold formatTime.
  assert (Hsafe : safeInteger z = true).
  { unfold safeInteger. rewrite Z.abs_eq by lia. apply Z.leb_le. lia. }
  rewrite Hsafe. cbv zeta.
  rewrite Z.rem_mod_nonneg by lia.
  assert (Hm : 0 <= z / 60 <= maxSafeInteger).
  { split; [apply Z.div_pos; lia|].
    apply Z.le_trans with z; [|lia].
    apply Z.div_le_upper_bound; lia. }
  assert (Hr : 0 <= z mod 60 < 60) by (apply Z.mod_pos_bound; lia).
  rewrite (toString_safe (z / 60) Hm).
  rewrite (toString_safe (z mod 60))
    by (unfold maxSafeInteger; split; [lia|]; simpl; lia).
  destruct (two_digit_seconds (z mod 60) Hr) as (a & b & Hp & Ha & Hb & Hv).
  exists a, b. rewrite Hp.
  split; [reflexivity|].
  split; [apply decimal_digits; lia|]. auto.
Qed.

(** X13: for a number of seconds from 0 to [Number.MAX_SAFE_INTEGER],
    [formatTime] writes the whole minutes in decimal digits, a colon,
    and the remaining seconds in exactly two digits that read
    [seconds mod 60]; two different numbers of seconds are never
    written the same way. *)
Theorem formatTime_reads_back (s t : Z) :
  0 <= s <= maxSafeInteger -> 0 <= t <= maxSafeInteger ->
  (exists (minutes : jsstring) (a b : ascii),
     formatTime s = Some (minutes ++ [":"%char; a; b])
     /\ toString (s / 60) = Some minutes
     /\ Forall (fun c => isDigit c = true) minutes
     /\ isDigit a = true /\ isDigit b = true
     /\ 10 * digitValue a + digitValue b = s mod 60)
  /\ (formatTime s = formatTime t -> s = t).
Proof.
  intros Hs Ht.
  destruct (formatTime_shape s Hs) as (a & b & Es & Ds & Ha & Hb & Vs).
  destruct (formatTime_shape t Ht) as (c & d & Et & Dt & _ & _ & Vt).
  split.
  - exists (decimal (s / 60)), a, b.
    split; [exact Es|]. split; [|auto].
    apply toString_safe. split; [apply Z.div_pos; lia|].
    apply Z.le_trans with s; [|lia].
    apply Z.div_le_upper_bound; lia.
  - intros E. rewrite Es, Et in E. injection E as E.
    destruct (split_at_colon _ _ _ _ Ds Dt E) as (Hm & Hr).
    apply decimal_inj in Hm. injection Hr as -> ->.
    rewrite (Z.div_mod s 60), (Z.div_mod t 60) by lia. lia.
Qed.

Lemma formatTime_reads_back_witness :
  formatTime 125 = Some (lit "2:05")
  /\ (formatTime 125 = formatTime 65 -> 125 = 65).
Proof.
  assert (H125 : 0 <= 125 <= maxSafeInteger)
    by (unfold maxSafeInteger; simpl; lia).
  assert (H65 : 0 <= 65 <= maxSafeInteger)
    by (unfold maxSafeInteger; simpl; lia).
  destruct (formatTime_reads_back 125 65 H125 H65) as (_ & H).
  split; [vm_compute; reflexivity | exact H].
Defined.

End TimeDisplayFacts.

(** ** The characters in a frame, and their speed over time *)

Section CharacterFacts.

Import Simulation.

Lemma Math_max_le (a b c : Q) :
  (a <= c)%Q -> (b <= c)%Q -> (Math_max a b <= c)%Q.
Proof. intros Ha Hb. rewrite Math_max_Qmax. now apply Q.max_lub. Qed.

Lemma Math_min_le_l (a b : Q) : (Math_min a b <= a)%Q.
Proof. rewrite Math_min_Qmin. apply Q.le_min_l. Qed.

Lemma updatePacman_inBox (atan2 : Q -> Q -> Q) (w h dt : Q) (p : Pacman.t) :
  inBox w h (Animation.updatePacman atan2 w h dt p).
Proof.
  unfold inBox, Animation.updatePacman. cbn [Pacman.x Pacman.y].
  split; [apply Math_max_ge_l|]. split; [apply Math_max_ge_l|].
  split; intros Hw; apply Math_max_le; try apply Math_min_le_l.
  - apply (Qplus_le_l _ _ 15). ring_simplify. exact Hw.
  - apply (Qplus_le_l _ _ 15). ring_simplify. exact Hw.
Qed.

Lemma updatePacman_velocity (atan2 : Q -> Q -> Q) (w h dt : Q)
    (p : Pacman.t) :
  let p' := Animation.updatePacman atan2 w h dt p in
  Pacman.speed p' = Pacman.speed p
  /\ Pacman.size p' = Pacman.size p
  /\ Pacman.color p' = Pacman.color p
  /\ (Pacman.vx p' = Pacman.vx p \/ Pacman.vx p' = (Pacman.vx p * -1)%Q)
  /\ (Pacman.vy p' = Pacman.vy p \/ Pacman.vy p' = (Pacman.vy p * -1)%Q).
Proof.
  unfold Animation.updatePacman. cbv zeta.
  cbn [Pacman.speed Pacman.size Pacman.color Pacman.vx Pacman.vy].
  repeat split;
    match goal with
    | |- context [if ?b then _ else _] => destruct b; auto
    end.
Qed.

Lemma pacmen_update (tr : Trig) (dt : Q) (rs : RandomSource) (s : World) :
  pacmanCharacters (fst (update tr dt rs s))
  = map (Animation.updatePacman (atan2 tr) (width s) (height s) dt)
        (pacmanCharacters s)
  /\ width (fst (update tr dt rs s)) = width s
  /\ height (fst (update tr dt rs s)) = height s.
Proof.
  unfold update.
  destruct (updateGhostList _ _ _ _ _ _ _) as [gs k1].
  destruct (updateDots _ _ _ _ _ _ _) as [ds k2].
  destruct (checkCollisions _ _ _ _ _) as [[ds' ps'] k3].
  repeat split.
Qed.

(** X14: after every frame every Pac-Man is at least 15 from the left
    and the top edge, and at most 15 short of the right and the bottom
    edge of a canvas that is 30 wide and high or more.  A frame keeps
    the number of characters, the speed, size and colour of each, and
    either keeps or negates each component of its velocity. *)
Theorem characters_stay_in_the_canvas (tr : Trig) (deltaTime : Q)
    (rs : RandomSource) (s : World) :
  let s' := fst (update tr deltaTime rs s) in
  Forall (inBox (width s) (height s)) (pacmanCharacters s')
  /\ List.length (pacmanCharacters s') = List.length (pacmanCharacters s)
  /\ Forall2 (fun p p' =>
                Pacman.speed p' = Pacman.speed p
                /\ Pacman.size p' = Pacman.size p
                /\ Pacman.color p' = Pacman.color p
                /\ (Pacman.vx p' = Pacman.vx p
                    \/ Pacman.vx p' = (Pacman.vx p * -1)%Q)
                /\ (Pacman.vy p' = Pacman.vy p
                    \/ Pacman.vy p' = (Pacman.vy p * -1)%Q))
             (pacmanCharacters s) (pacmanCharacters s').
Proof.
  cbv zeta. destruct (pacmen_update tr deltaTime rs s) as (E & _ & _).
  rewrite E. clear E. split; [|split].
  - apply Forall_forall. intros p' Hin. apply in_map_iff in Hin.
    destruct Hin as (p & <- & _). apply updatePacman_inBox.
  - apply length_map.
  - generalize (pacmanCharacters s). intros l.
    induction l as [|p l IH]; simpl; constructor;
      [apply updatePacman_velocity | exact IH].
Qed.

Lemma pow2_pos (n : nat) : (0 < pow2 n)%Q.
Proof.
  unfold pow2. change 0%Q with (inject_Z 0). rewrite <- Zlt_Qlt.
  apply Z.pow_pos_nonneg; lia.
Qed.

Lemma pow2_succ (n : nat) : (pow2 (S n) == 2 * pow2 n)%Q.
Proof.
  unfold pow2. rewrite Nat2Z.inj_succ, Z.pow_succ_r by lia.
  now rewrite inject_Z_mult.
Qed.

(** The speeds before and after one action. *)
Lemma Forall2_map_r {A B} (R : A -> B -> Prop) (f : A -> B) (l : list A) :
  (forall a, R a (f a)) -> Forall2 R l (map f l).
Proof.
  intros H. induction l as [|a l IH]; simpl; constructor; auto.
Qed.

Lemma Forall2_updateAt {A} (R : A -> A -> Prop) (f : A -> A) (l : list A) :
  (forall a, R a a) -> (forall a, R a (f a)) ->
  forall i, Forall2 R l (Animation.updateAt i f l).
Proof.
  intros Hrefl Hf. induction l as [|a l IH]; intros [|i]; simpl;
    constructor; auto.
  clear IH. induction l; constructor; auto.
Qed.

(** The speeds before and after one action. *)
Lemma speed_of_act (a : Animation.Action) (s : Animation.Manager) :
  Forall2 (fun p q =>
             (Pacman.speed q * pow2 (reverts [a])
              == Pacman.speed p * pow2 (boosts [a]))%Q)
          (Animation.pacmanCharacters s)
          (Animation.pacmanCharacters (Animation.act a s)).
Proof.
  destruct a as [atan2 dt| |rs|[i boost|]]; cbn [Animation.act].
  - apply Forall2_map_r. intros p. reflexivity.
  - apply Forall2_map_r. intros p. reflexivity.
  - apply Forall2_map_r. intros p.
    change (Pacman.speed (Animation.completionBoost p))
      with (Pacman.speed p * 2)%Q.
    change (pow2 (reverts [Animation.Completion rs])) with 1%Q.
    change (pow2 (boosts [Animation.Completion rs])) with 2%Q. ring.
  - apply Forall2_updateAt; intros p; reflexivity.
  - apply Forall2_map_r. intros p.
    change (Pacman.speed (Animation.completionRevert p))
      with (Pacman.speed p / 2)%Q.
    change (pow2 (reverts [Animation.Due Animation.CompletionRevert]))
      with 2%Q.
    change (pow2 (boosts [Animation.Due Animation.CompletionRevert]))
      with 1%Q. field.
Qed.

Lemma Forall2_compose {A} (R S T : A -> A -> Prop) (l1 l2 l3 : list A) :
  (forall a b c, R a b -> S b c -> T a c) ->
  Forall2 R l1 l2 -> Forall2 S l2 l3 -> Forall2 T l1 l3.
Proof.
  intros H H12. revert l3. induction H12 as [|a b l1 l2 Hab _ IH];
    intros l3 H23; inversion H23; subst; constructor; eauto.
Qed.

Lemma boosts_cons (a : Animation.Action) (l : list Animation.Action) :
  boosts (a :: l) = (boosts [a] + boosts l)%nat
  /\ reverts (a :: l) = (reverts [a] + reverts l)%nat.
Proof.
  unfold boosts, reverts. simpl.
  destruct a as [? ?| |?|[? ?|]]; simpl; split; reflexivity.
Qed.

Lemma pow2_add (n m : nat) : (pow2 (n + m) == pow2 n * pow2 m)%Q.
Proof.
  unfold pow2. rewrite Nat2Z.inj_add, Z.pow_add_r by lia.
  now rewrite inject_Z_mult.
Qed.

Lemma speed_of_acts (l : list Animation.Action) :
  forall s : Animation.Manager,
  Forall2 (fun p q =>
             (Pacman.speed q * pow2 (reverts l)
              == Pacman.speed p * pow2 (boosts l))%Q)
          (Animation.pacmanCharacters s)
          (Animation.pacmanCharacters (Animation.acts l s)).
Proof.
  induction l as [|a l IH]; intros s.
  - unfold Animation.acts. simpl.
    induction (Animation.pacmanCharacters s); constructor;
      [reflexivity | assumption].
  - change (Animation.acts (a :: l) s)
      with (Animation.acts l (Animation.act a s)).
    destruct (boosts_cons a l) as (Eb & Er). rewrite Eb, Er.
    eapply Forall2_compose; [|apply (speed_of_act a s) | apply IH].
    intros p p1 q H1 H2. cbv beta in *.
    rewrite !pow2_add.
    assert (Hpos : ~ (pow2 (reverts [a]) == 0)%Q).
    { intros E. pose proof (pow2_pos (reverts [a])) as H.
      rewrite E in H. discriminate. }
    setoid_replace (Pacman.speed q * (pow2 (reverts [a]) * pow2 (reverts l)))%Q
      with (Pacman.speed q * pow2 (reverts l) * pow2 (reverts [a]))%Q
      by ring.
    rewrite H2.
    setoid_replace (Pacman.speed p1 * pow2 (boosts l) * pow2 (reverts [a]))%Q
      with (Pacman.speed p1 * pow2 (reverts [a]) * pow2 (boosts l))%Q
      by ring.
    rewrite H1. ring.
Qed.

(** X15: over any sequence of frames, keystroke boosts, completion
    boosts and callbacks, the speed of every Pac-Man is its first speed
    times 2 for each completion boost begun and divided by 2 for each
    one reverted.  Completion boosts that overlap therefore leave no
    drift: once as many are reverted as were begun, every speed is
    again what it was. *)
Theorem speed_is_doubled_per_open_boost (l : list Animation.Action)
    (s : Animation.Manager) :
  Forall2 (fun p q =>
             (Pacman.speed q * pow2 (reverts l)
              == Pacman.speed p * pow2 (boosts l))%Q)
          (Animation.pacmanCharacters s)
          (Animation.pacmanCharacters (Animation.acts l s))
  /\ (boosts l = reverts l ->
      Forall2 (fun p q => (Pacman.speed q == Pacman.speed p)%Q)
              (Animation.pacmanCharacters s)
              (Animation.pacmanCharacters (Animation.acts l s))).
Proof.
  split; [apply speed_of_acts|].
  intros E. pose proof (speed_of_acts l s) as H. rewrite E in H.
  eapply Forall2_impl; [|exact H].
  intros p q Hpq. cbv beta in Hpq.
  apply (Qmult_inj_r _ _ (pow2 (reverts l))); [|exact Hpq].
  intros Hz. pose proof (pow2_pos (reverts l)) as Hp.
  rewrite Hz in Hp. discriminate.
Qed.

Example overlapping_completion_boosts :
  let rs := fun _ : nat => halfRandom in
  let l := [Animation.Completion rs; Animation.Completion rs;
            Animation.Due Animation.CompletionRevert;
            Animation.Frame (fun _ _ => 0%Q) (50 # 3);
            Animation.Due Animation.CompletionRevert] in
  map (fun p => Qred (Pacman.speed p))
      (Animation.pacmanCharacters (Animation.acts l Animation.exampleManager))
  = [2; 11 # 5; 9 # 5; 21 # 10]%Q.
Proof. vm_compute. reflexivity. Qed.

End CharacterFacts.

(** ** Particles, dots and ghosts *)

Section EntityFacts.

Import Simulation.

(** *** Rounding *)

Lemma rounding_exact : rounding (fun q => q).
Proof. split; [auto | intros; apply Qeq_refl]. Qed.

Lemma Qfloor_half (n : Z) : Qfloor (inject_Z n + (1 # 2)) = n.
Proof.
  apply Z.le_antisymm.
  - apply Z.lt_succ_r. rewrite Zlt_Qlt.
    eapply Qle_lt_trans; [apply Qfloor_le|].
    unfold Z.succ. rewrite inject_Z_plus.
    apply Qplus_lt_r. reflexivity.
  - rewrite <- (Qfloor_Z n) at 1. apply Qfloor_resp_le.
    setoid_replace (inject_Z n) with (inject_Z n + 0)%Q at 1 by ring.
    apply Qplus_le_compat; [apply Qle_refl | discriminate].
Qed.

Lemma rounding_toGrid : rounding toGrid.
Proof.
  split.
  - intros x y Hxy. unfold toGrid, Qdiv.
    apply Qmult_le_compat_r; [|discriminate].
    rewrite <- Zle_Qle. apply Qfloor_resp_le.
    apply Qplus_le_compat; [|apply Qle_refl].
    apply Qmult_le_compat_r; [exact Hxy | discriminate].
  - intros z _. unfold toGrid.
    setoid_replace (inject_Z z * 1024 + (1 # 2))%Q
      with (inject_Z (z * 1024) + (1 # 2))%Q
      by (rewrite inject_Z_mult; reflexivity).
    rewrite Qfloor_half, inject_Z_mult. field.
Qed.

Lemma round_zero (f : Q -> Q) : rounding f -> (f 0 == 0)%Q.
Proof. intros [_ H]. apply (H 0). discriminate. Qed.

(** *** Particles *)

Lemma updateParticles_alive (tr : Trig) (dt : Q) (ps : list Particle.t) :
  Forall (fun p => (0 < Particle.life p)%Q) (updateParticles tr dt ps).
Proof.
  unfold updateParticles. apply Forall_forall. intros p Hin.
  apply filter_In in Hin. destruct Hin as [_ H]. now apply Qltb_lt.
Qed.

(** A particle that is left after the frames of [dts] was there before
    them; ageing changes its position, life and alpha only. *)
Lemma agedThrough_origin (tr : Trig) (dts : list Q) :
  forall (ps : list Particle.t) (q : Particle.t),
  In q (agedThrough tr dts ps) ->
  exists p, In p ps
            /\ Particle.maxLife q = Particle.maxLife p
            /\ Particle.color q = Particle.color p
            /\ Particle.size q = Particle.size p
            /\ Particle.vx q = Particle.vx p
            /\ Particle.vy q = Particle.vy p
            /\ (dts <> [] -> (0 < Particle.life q)%Q).
Proof.
  induction dts as [|dt dts IH]; intros ps q Hin.
  - exists q. cbn [agedThrough fold_left] in Hin.
    repeat split; auto. congruence.
  - change (agedThrough tr (dt :: dts) ps)
      with (agedThrough tr dts (updateParticles tr dt ps)) in Hin.
    destruct (IH _ _ Hin)
      as (p1 & Hin1 & Hmax & Hcol & Hsize & Hvx & Hvy & Hpos).
    pose proof (updateParticles_alive tr dt ps) as Halive.
    rewrite Forall_forall in Halive. specialize (Halive p1 Hin1).
    unfold updateParticles in Hin1. apply filter_In in Hin1.
    destruct Hin1 as [Hin1 _]. apply in_map_iff in Hin1.
    destruct Hin1 as (p & <- & Hp).
    exists p. split; [exact Hp|].
    split; [rewrite Hmax; reflexivity|].
    split; [rewrite Hcol; reflexivity|].
    split; [rewrite Hsize; reflexivity|].
    split; [rewrite Hvx; reflexivity|].
    split; [rewrite Hvy; reflexivity|].
    intros _. destruct dts as [|dt' dts'].
    + cbn [agedThrough fold_left] in Hin.
      pose proof (updateParticles_alive tr dt ps) as Hq.
      rewrite Forall_forall in Hq. now apply Hq.
    + apply Hpos. discriminate.
Qed.

Lemma agedThrough_length (tr : Trig) (dts : list Q) :
  forall ps, (List.length (agedThrough tr dts ps) <= List.length ps)%nat.
Proof.
  induction dts as [|dt dts IH]; intros ps; [cbn; lia|].
  change (agedThrough tr (dt :: dts) ps)
    with (agedThrough tr dts (updateParticles tr dt ps)).
  etransitivity; [apply IH|].
  unfold updateParticles.
  etransitivity; [apply filter_length_le|]. now rewrite length_map.
Qed.

Lemma agedThrough_nil (tr : Trig) (dts : list Q) :
  agedThrough tr dts [] = [].
Proof. induction dts as [|dt dts IH]; [reflexivity | exact IH]. Qed.

(** A frame of [0] ms or more lets no life grow past a bound that is a
    double. *)
Lemma updateParticles_bound (tr : Trig) (dt life : Q)
    (ps : list Particle.t) :
  rounding (round tr) -> (0 <= dt)%Q -> (round tr life == life)%Q ->
  Forall (fun p => (Particle.life p <= life)%Q) ps ->
  Forall (fun p => (Particle.life p <= life)%Q) (updateParticles tr dt ps).
Proof.
  intros [Hmono _] Hdt Hlife Hall. unfold updateParticles.
  apply Forall_forall. intros q Hin. apply filter_In in Hin.
  destruct Hin as [Hin _]. apply in_map_iff in Hin.
  destruct Hin as (p & <- & Hp). rewrite Forall_forall in Hall.
  specialize (Hall p Hp). cbn [ageParticle Particle.life].
  apply Qle_trans with (round tr life);
    [|apply Qle_lteq; right; exact Hlife].
  apply Hmono. apply Qle_trans with (life + 0)%Q.
  - apply Qplus_le_compat; [exact Hall|].
    change 0%Q with (- 0)%Q. now apply Qopp_le_compat.
  - rewrite Qplus_0_r. apply Qle_refl.
Qed.

(** A frame at least as long as every life leaves no particle. *)
Lemma updateParticles_dead (tr : Trig) (dt : Q) (ps : list Particle.t) :
  rounding (round tr) ->
  Forall (fun p => (Particle.life p <= dt)%Q) ps ->
  updateParticles tr dt ps = [].
Proof.
  intros Hr Hall. pose proof (round_zero _ Hr) as H0.
  destruct Hr as [Hmono _]. unfold updateParticles.
  induction Hall as [|p ps Hp _ IH]; [reflexivity|].
  cbn [map filter]. rewrite IH.
  assert (Hdead : Qltb 0 (Particle.life (ageParticle tr dt p)) = false).
  { apply Qltb_ge. cbn [ageParticle Particle.life].
    apply Qle_trans with (round tr 0);
      [|apply Qle_lteq; right; exact H0].
    apply Hmono. apply (Qplus_le_l _ _ dt).
    setoid_replace (Particle.life p - dt + dt)%Q with (Particle.life p)
      by ring.
    now rewrite Qplus_0_l. }
  now rewrite Hdead.
Qed.

Lemma agedThrough_bound (tr : Trig) (life : Q) (dts : list Q) :
  rounding (round tr) -> (round tr life == life)%Q ->
  Forall (fun dt => (0 <= dt)%Q) dts ->
  forall ps,
  Forall (fun p => (Particle.life p <= life)%Q) ps ->
  Forall (fun p => (Particle.life p <= life)%Q) (agedThrough tr dts ps)
  /\ (Exists (fun dt => (life <= dt)%Q) dts -> agedThrough tr dts ps = []).
Proof.
  intros Hr Hlife Hdts. induction Hdts as [|dt dts Hdt _ IH]; intros ps Hall.
  - split; [exact Hall|]. intros H. inversion H.
  - change (agedThrough tr (dt :: dts) ps)
      with (agedThrough tr dts (updateParticles tr dt ps)).
    destruct (IH _ (updateParticles_bound tr dt life ps Hr Hdt Hlife Hall))
      as [Hb Hd].
    split; [exact Hb|]. intros Hex.
    inversion Hex as [? ? Hlong | ? ? Hlater]; subst.
    + rewrite (updateParticles_dead tr dt ps Hr); [apply agedThrough_nil|].
      eapply Forall_impl; [|exact Hall]. intros p Hp.
      now apply Qle_trans with life.
    + now apply Hd.
Qed.

(** X16: particles only fade.  Ageing never adds a particle; a
    particle that is left after some frames is one that was there
    before, with the same velocity, size, colour and full life, and a
    life above 0.  With frame times of 0 or more no life grows past a
    bound that is a double (3000 for a celebration, 1000 for an eaten
    dot), and a frame that lasts as long as the bound leaves no
    particle.  All this holds however the differences are rounded, as
    long as the rounding keeps the order and the integers. *)
Theorem particles_fade_and_die (tr : Trig) (dts : list Q)
    (ps : list Particle.t) (life : Q) (Hround : rounding (round tr)) :
  (forall q, In q (agedThrough tr dts ps) ->
     exists p, In p ps
               /\ Particle.maxLife q = Particle.maxLife p
               /\ Particle.color q = Particle.color p
               /\ Particle.size q = Particle.size p
               /\ Particle.vx q = Particle.vx p
               /\ Particle.vy q = Particle.vy p
               /\ (dts <> [] -> (0 < Particle.life q)%Q))
  /\ (List.length (agedThrough tr dts ps) <= List.length ps)%nat
  /\ (Forall (fun dt => (0 <= dt)%Q) dts ->
      (round tr life == life)%Q ->
      Forall (fun p => (Particle.life p <= life)%Q) ps ->
      Forall (fun q => (Particle.life q <= life)%Q) (agedThrough tr dts ps)
      /\ (Exists (fun dt => (life <= dt)%Q) dts ->
          agedThrough tr dts ps = [])).
Proof.
  split; [|split].
  - apply agedThrough_origin.
  - apply agedThrough_length.
  - intros Hdts Hlife Hall.
    now apply agedThrough_bound.
Qed.

Lemma particles_fade_and_die_witness :
  rounding (round gridTrig)
  /\ agedThrough gridTrig [1000 / 60; 1000]%Q
       (addEatingParticle 400 300 (fun _ => halfRandom) 0)
     = [].
Proof.
  assert (Hround : rounding (round gridTrig)) by exact rounding_toGrid.
  split; [exact Hround|].
  destruct (particles_fade_and_die gridTrig [1000 / 60; 1000]%Q
              (addEatingParticle 400 300 (fun _ => halfRandom) 0) 1000
              Hround) as (_ & _ & H).
  apply H.
  - repeat constructor; discriminate.
  - vm_compute. reflexivity.
  - repeat constructor; discriminate.
  - right. left. apply Qle_refl.
Defined.


(** *** Dots *)

Lemma refillDots_spec (tr : Trig) (w h : Q) (rs : RandomSource)
    (fuel : nat) :
  forall (k : nat) (ds : list Dot.t),
  (dotCount - List.length ds <= fuel)%nat ->
  exists new : list Dot.t,
    fst (refillDots fuel tr w h rs k ds) = ds ++ new
    /\ List.length (ds ++ new) = Nat.max (List.length ds) dotCount
    /\ Forall (fun d => Dot.eaten d = false) new
    /\ snd (refillDots fuel tr w h rs k ds) = (k + 3 * List.length new)%nat.
Proof.
  induction fuel as [|fuel IH]; intros k ds Hfuel.
  - exists []. rewrite app_nil_r. cbn [refillDots fst snd List.length].
    repeat split; auto; lia.
  - cbn [refillDots]. destruct (List.length ds <? dotCount)%nat eqn:E.
    + apply Nat.ltb_lt in E.
      destruct (IH (k + 3)%nat (ds ++ [randomDot tr w h rs k]))
        as (new & H1 & H2 & H3 & H4).
      { rewrite length_app. cbn [List.length]. lia. }
      exists (randomDot tr w h rs k :: new).
      rewrite <- app_assoc in H1, H2. cbn [app] in H1, H2.
      rewrite !length_app in H2. cbn [List.length] in H2.
      split; [exact H1|]. split.
      { rewrite length_app. cbn [List.length]. lia. }
      split; [constructor; [reflexivity | exact H3]|].
      rewrite H4. cbn [List.length]. lia.
    + apply Nat.ltb_ge in E. exists []. rewrite app_nil_r.
      cbn [List.length]. repeat split; auto; lia.
Qed.

Lemma updateDots_spec (tr : Trig) (w h dt : Q) (rs : RandomSource)
    (k : nat) (ds : list Dot.t) :
  Forall (fun d => Dot.eaten d = false) (fst (updateDots tr w h dt rs k ds))
  /\ List.length (fst (updateDots tr w h dt rs k ds))
     = Nat.max (List.length ds - countEaten ds) dotCount.
Proof.
  unfold updateDots.
  set (left := filter (fun d => negb (Dot.eaten d)) (map (pulse dt) ds)).
  destruct (refillDots_spec tr w h rs (dotCount - List.length left) k left
              (le_n _)) as (new & H1 & H2 & H3 & _).
  rewrite H1.
  assert (Hleft : Forall (fun d => Dot.eaten d = false) left).
  { apply Forall_forall. intros d Hd. unfold left in Hd.
    apply filter_In in Hd. destruct Hd as [_ Hd].
    now apply negb_true_iff in Hd. }
  assert (Hlen : (List.length left + countEaten ds = List.length ds)%nat).
  { unfold left, countEaten. clear. induction ds as [|d ds IH]; [reflexivity|].
    cbn [map filter]. unfold pulse at 1.
    destruct (Dot.eaten d) eqn:E; cbn [negb Dot.eaten]; rewrite ?E;
      cbn [negb List.length]; lia. }
  split.
  - apply Forall_app. split; assumption.
  - rewrite H2. f_equal. lia.
Qed.

(** What the inner loop of [checkCollisions] does for one character. *)
Lemma addEatingParticle_length (x y : Q) (rs : RandomSource) (k : nat) :
  List.length (addEatingParticle x y rs k) = 5%nat.
Proof. reflexivity. Qed.

Lemma countEaten_cons (d : Dot.t) (ds : list Dot.t) :
  countEaten (d :: ds)
  = ((if Dot.eaten d then 1 else 0) + countEaten ds)%nat.
Proof. unfold countEaten. cbn [filter]. now destruct (Dot.eaten d). Qed.

(** What the inner loop of [checkCollisions] does for one character. *)
Lemma eatDots_spec (p : Pacman.t) (rs : RandomSource) (ds : list Dot.t) :
  forall k,
  exists n : nat,
    countEaten (fst (fst (eatDots p rs k ds))) = (countEaten ds + n)%nat
    /\ List.length (snd (fst (eatDots p rs k ds))) = (5 * n)%nat
    /\ snd (eatDots p rs k ds) = (k + 25 * n)%nat
    /\ Forall2 (fun d d' =>
                  d' = d
                  \/ (Dot.eaten d = false /\ near p d = true /\ d' = eat d))
               ds (fst (fst (eatDots p rs k ds))).
Proof.
  induction ds as [|d ds IH]; intros k.
  - exists 0%nat. cbn [eatDots fst snd List.length]. repeat split; auto.
  - cbn [eatDots]. destruct (negb (Dot.eaten d) && near p d) eqn:E.
    + destruct (IH (k + 25)%nat) as (n & H1 & H2 & H3 & H4).
      destruct (eatDots p rs (k + 25) ds) as [[rest' ps] k'].
      cbn [fst snd] in *. exists (S n).
      apply andb_true_iff in E. destruct E as [E1 E2].
      apply negb_true_iff in E1.
      split.
      { rewrite !countEaten_cons, H1, E1. cbn [eat Dot.eaten]. lia. }
      split.
      { rewrite length_app, addEatingParticle_length, H2. lia. }
      split; [lia|]. constructor; [right; auto | exact H4].
    + destruct (IH k) as (n & H1 & H2 & H3 & H4).
      destruct (eatDots p rs k ds) as [[rest' ps] k'].
      cbn [fst snd] in *. exists n.
      split; [rewrite !countEaten_cons, H1; lia|].
      split; [exact H2|]. split; [exact H3|].
      constructor; [left; reflexivity | exact H4].
Qed.

Lemma near_eat (p : Pacman.t) (d : Dot.t) : near p (eat d) = near p d.
Proof. reflexivity. Qed.

(** [checkCollisions] over the characters [pacmen], all of them among
    [everyone]. *)
Lemma checkCollisions_spec (everyone : list Pacman.t) (rs : RandomSource)
    (pacmen : list Pacman.t) :
  forall (k : nat) (ds : list Dot.t) (ps : list Particle.t),
  incl pacmen everyone ->
  Forall (fun d => Dot.eaten d = true ->
                   exists p, In p everyone /\ near p d = true) ds ->
  let r := checkCollisions pacmen rs k ds ps in
  exists n : nat,
    List.length (fst (fst r)) = List.length ds
    /\ countEaten (fst (fst r)) = (countEaten ds + n)%nat
    /\ List.length (snd (fst r)) = (List.length ps + 5 * n)%nat
    /\ firstn (List.length ps) (snd (fst r)) = ps
    /\ Forall (fun d => Dot.eaten d = true ->
                        exists p, In p everyone /\ near p d = true)
              (fst (fst r)).
Proof.
  induction pacmen as [|p pacmen IH]; intros k ds ps Hincl Hinv; cbv zeta.
  - exists 0%nat. cbn [checkCollisions fst snd]. rewrite firstn_all.
    repeat split; auto; lia.
  - cbn [checkCollisions].
    destruct (eatDots_spec p rs ds k) as (n1 & E1 & E2 & E3 & E4).
    destruct (eatDots p rs k ds) as [[ds1 new] k1]. cbn [fst snd] in *.
    assert (Hinv1 : Forall (fun d => Dot.eaten d = true ->
                              exists p, In p everyone /\ near p d = true)
                           ds1).
    { clear - E4 Hinv Hincl. induction E4 as [|d d' l l' Hd _ IHl];
        [constructor|].
      inversion Hinv as [|? ? Hd0 Hl0]; subst.
      constructor; [|now apply IHl].
      destruct Hd as [-> | (He & Hn & ->)]; [exact Hd0|].
      intros _. exists p. split; [apply Hincl; now left|].
      now rewrite near_eat. }
    assert (Hlen1 : List.length ds1 = List.length ds).
    { symmetry. eapply Forall2_length. exact E4. }
    destruct (IH k1 ds1 (ps ++ new)) as (n & H1 & H2 & H3 & H4 & H5).
    { intros x Hx. apply Hincl. now right. }
    { exact Hinv1. }
    cbv zeta in H1, H2, H3, H4, H5.
    exists (n1 + n)%nat.
    split; [rewrite H1; exact Hlen1|].
    split; [rewrite H2, E1; lia|].
    split; [rewrite H3, length_app, E2; lia|].
    split; [|exact H5].
    apply (f_equal (firstn (List.length ps))) in H4.
    rewrite firstn_firstn in H4.
    rewrite length_app in H4.
    replace (Nat.min (List.length ps) (List.length ps + List.length new))
      with (List.length ps) in H4 by lia.
    rewrite H4, firstn_app, Nat.sub_diag, firstn_all. simpl.
    apply app_nil_r.
Qed.

Lemma update_parts (tr : Trig) (dt : Q) (rs : RandomSource) (s : World) :
  let pacmen := map (Animation.updatePacman (atan2 tr) (width s) (height s)
                       dt) (pacmanCharacters s) in
  let gk := updateGhostList tr (width s) (height s) dt rs 0 (ghosts s) in
  let dk := updateDots tr (width s) (height s) dt rs (snd gk) (dots s) in
  let r := checkCollisions pacmen rs (snd dk) (fst dk)
             (updateParticles tr dt (particles s)) in
  pacmanCharacters (fst (update tr dt rs s)) = pacmen
  /\ ghosts (fst (update tr dt rs s)) = fst gk
  /\ dots (fst (update tr dt rs s)) = fst (fst r)
  /\ particles (fst (update tr dt rs s)) = snd (fst r)
  /\ isRunning (fst (update tr dt rs s)) = isRunning s
  /\ lastFrameTime (fst (update tr dt rs s)) = lastFrameTime s.
Proof.
  cbv zeta. unfold update.
  destruct (updateGhostList _ _ _ _ _ _ _) as [gs k1]. cbn [fst snd].
  destruct (updateDots _ _ _ _ _ _ _) as [ds k2]. cbn [fst snd].
  destruct (checkCollisions _ _ _ _ _) as [[ds' ps'] k3].
  repeat split.
Qed.

Lemma updateGhostList_length (tr : Trig) (w h dt : Q) (rs : RandomSource)
    (gs : list Ghost.t) :
  forall k,
  List.length (fst (updateGhostList tr w h dt rs k gs)) = List.length gs.
Proof.
  induction gs as [|g gs IH]; intros k; [reflexivity|].
  cbn [updateGhostList].
  destruct (updateGhost tr w h dt rs k g) as [g' k1].
  specialize (IH k1).
  destruct (updateGhostList tr w h dt rs k1 gs) as [rest k2].
  cbn [fst List.length] in *. now rewrite IH.
Qed.


Lemma frames_counts (tr : Trig) (l : list (Q * RandomSource)) :
  forall s : World,
  List.length (pacmanCharacters (frames tr l s))
  = List.length (pacmanCharacters s)
  /\ List.length (ghosts (frames tr l s)) = List.length (ghosts s)
  /\ ((List.length (dots s) <= dotCount)%nat ->
      (List.length (dots (frames tr l s)) <= dotCount)%nat
      /\ (l <> [] -> List.length (dots (frames tr l s)) = dotCount)).
Proof.
  induction l as [|[dt rs] l IH]; intros s.
  - cbn [frames]. repeat split; auto. intros Hne. congruence.
  - change (frames tr ((dt, rs) :: l) s)
      with (frames tr l (fst (update tr dt rs s))).
    destruct (IH (fst (update tr dt rs s))) as (Hp & Hg & Hd).
    destruct (update_parts tr dt rs s) as (Ep & Eg & Ed & _).
    cbv zeta in Ep, Eg, Ed.
    assert (Hdots : (List.length (dots s) <= dotCount)%nat ->
              List.length (dots (fst (update tr dt rs s))) = dotCount).
    { intros Hle. cbv zeta.
      destruct (updateDots_spec tr (width s) (height s) dt rs
                  (snd (updateGhostList tr (width s) (height s) dt rs 0
                          (ghosts s))) (dots s)) as (Hfresh & Hlen).
      rewrite Ed.
      destruct (checkCollisions_spec
                  (map (Animation.updatePacman (atan2 tr) (width s)
                          (height s) dt) (pacmanCharacters s)) rs
                  (map (Animation.updatePacman (atan2 tr) (width s)
                          (height s) dt) (pacmanCharacters s))
                  (snd (updateDots tr (width s) (height s) dt rs
                          (snd (updateGhostList tr (width s) (height s) dt
                                  rs 0 (ghosts s))) (dots s)))
                  (fst (updateDots tr (width s) (height s) dt rs
                          (snd (updateGhostList tr (width s) (height s) dt
                                  rs 0 (ghosts s))) (dots s)))
                  (updateParticles tr dt (particles s)))
        as (n & H1 & _).
      { apply incl_refl. }
      { eapply Forall_impl; [|exact Hfresh]. intros d Hd0 He. congruence. }
      cbv zeta in H1. rewrite H1, Hlen. lia. }
    split; [rewrite Hp, Ep; apply length_map|].
    split; [rewrite Hg, Eg; apply updateGhostList_length|].
    intros Hle. specialize (Hdots Hle).
    destruct Hd as (Hd1 & Hd2); [lia|].
    split; [exact Hd1|]. intros _.
    destruct l as [|x l']; [exact Hdots | apply Hd2; discriminate].
Qed.

(** X18: the numbers of entities are kept.  [createEntities] makes
    four characters, four ghosts and fifty dots; every frame keeps the
    numbers of characters and of ghosts, and leaves exactly fifty dots
    in a world that had fifty or fewer. *)
Theorem entity_counts_are_kept (tr : Trig) (rs : RandomSource)
    (l : list (Q * RandomSource)) (s : World) :
  List.length (pacmanCharacters (createEntities tr rs s)) = 4%nat
  /\ List.length (ghosts (createEntities tr rs s)) = 4%nat
  /\ List.length (dots (createEntities tr rs s)) = 50%nat
  /\ List.length (pacmanCharacters (frames tr l s))
     = List.length (pacmanCharacters s)
  /\ List.length (ghosts (frames tr l s)) = List.length (ghosts s)
  /\ ((List.length (dots s) <= 50)%nat -> l <> [] ->
      List.length (dots (frames tr l s)) = 50%nat).
Proof.
  split; [reflexivity|]. split; [reflexivity|].
  split.
  { unfold createEntities. cbn [dots].
    destruct (refillDots_spec tr (width s) (height s) rs dotCount 40 [])
      as (new & H1 & H2 & _); [cbn [List.length]; lia|].
    rewrite H1, H2. reflexivity. }
  destruct (frames_counts tr l s) as (Hp & Hg & Hd).
  split; [exact Hp|]. split; [exact Hg|].
  intros Hle Hne. now apply Hd.
Qed.

End EntityFacts.

(** ** The ghosts and the frame clock *)

Section GhostFacts.

Import Simulation.

Lemma round_integer (f : Q -> Q) (z : Z) :
  rounding f -> Z.abs z <= 2 ^ 53 -> (f (inject_Z z) == inject_Z z)%Q.
Proof. intros [_ H]. apply H. Qed.

Lemma round_between (f : Q -> Q) (lo hi : Z) (q : Q) :
  rounding f -> Z.abs lo <= 2 ^ 53 -> Z.abs hi <= 2 ^ 53 ->
  (inject_Z lo <= q <= inject_Z hi)%Q ->
  (inject_Z lo <= f q <= inject_Z hi)%Q.
Proof.
  intros Hr Hlo Hhi [H1 H2].
  pose proof (round_integer f lo Hr Hlo) as Elo.
  pose proof (round_integer f hi Hr Hhi) as Ehi.
  destruct Hr as [Hmono _]. split.
  - apply Qle_trans with (f (inject_Z lo));
      [apply Qle_lteq; right; symmetry; exact Elo | now apply Hmono].
  - apply Qle_trans with (f (inject_Z hi));
      [now apply Hmono | apply Qle_lteq; right; exact Ehi].
Qed.

(** The right (lower) edge of the band, as the code computes it, is not
    left of (above) the other edge. *)
Lemma band_has_room (f : Q -> Q) (w : Q) :
  rounding f -> (0 <= w)%Q -> (-14 <= f (w + 14))%Q.
Proof.
  intros Hr Hw.
  apply Qle_trans with (f (inject_Z (-14))).
  - apply Qle_lteq. right. symmetry. apply (round_integer f (-14) Hr).
    simpl. lia.
  - destruct Hr as [Hmono _]. apply Hmono.
    apply (Qle_trans _ (0 + 14)%Q); [discriminate|].
    apply Qplus_le_compat; [exact Hw | apply Qle_refl].
Qed.

(** The two wrap-around tests of [updateGhosts], one after the other,
    with [edge] for the width (height) plus 14. *)
Lemma wrap_twice (edge x : Q) :
  (-14 <= edge)%Q ->
  (-14 <= (if Qltb edge (if Qltb x (-14) then edge else x)
           then -14 else (if Qltb x (-14) then edge else x))
   <= edge)%Q.
Proof.
  intros Hroom.
  destruct (Qltb x (-14)) eqn:E1.
  - destruct (Qltb edge edge) eqn:E2.
    + apply Qltb_lt in E2. now apply Qlt_irrefl in E2.
    + split; [exact Hroom | apply Qle_refl].
  - apply Qltb_ge in E1.
    destruct (Qltb edge x) eqn:E3.
    + split; [apply Qle_refl | exact Hroom].
    + apply Qltb_ge in E3. split; [exact E1 | exact E3].
Qed.

(** The time after which a ghost turns, as the code computes it, is
    from 2000 to 5000: the rounding can reach 5000. *)
Lemma threshold_range (f : Q -> Q) (r : Random01) :
  rounding f ->
  (2000 <= f (2000 + f (rval r * 3000)) <= 5000)%Q.
Proof.
  intros Hr. destruct (random_range r) as [H0 H1].
  assert (Hin : (inject_Z 0 <= f (rval r * 3000) <= inject_Z 3000)%Q).
  { apply round_between; [exact Hr | simpl; lia | simpl; lia |].
    split.
    - apply Qmult_le_0_compat; [exact H0 | discriminate].
    - apply Qle_trans with (1 * 3000)%Q; [|discriminate].
      apply Qmult_le_compat_r; [now apply Qlt_le_weak | discriminate]. }
  destruct Hin as [Hlo Hhi].
  apply (round_between f 2000 5000); [exact Hr | simpl; lia | simpl; lia |].
  split.
  - apply (Qle_trans _ (2000 + 0)%Q); [discriminate|].
    apply Qplus_le_compat; [apply Qle_refl | exact Hlo].
  - apply (Qle_trans _ (2000 + 3000)%Q); [|discriminate].
    apply Qplus_le_compat; [apply Qle_refl | exact Hhi].
Qed.

(** X19: one ghost in one frame of a canvas of width and height 0 or
    more, however the sums and products are rounded, as long as the
    rounding keeps the order and the integers.  The ghost ends inside
    the band from -14 to the width (height) plus 14; its speed, size
    and colour are never changed; its timer ends at 5000 or below.
    While the timer, with the frame's time added, is 2000 or less the
    ghost keeps its direction and velocity; once it is above 5000 the
    ghost turns: a new direction is drawn, the velocity is the speed
    along it, and the timer is back at 0. *)
Theorem ghost_turns_between_two_and_five_seconds
    (tr : Trig) (w h deltaTime : Q) (rs : RandomSource) (k : nat)
    (g : Ghost.t) (Hround : rounding (round tr))
    (Hw : (0 <= w)%Q) (Hh : (0 <= h)%Q) :
  let g' := fst (updateGhost tr w h deltaTime rs k g) in
  let timer := round tr (Ghost.changeDirectionTimer g + deltaTime) in
  inBand tr w h g'
  /\ Ghost.speed g' = Ghost.speed g
  /\ Ghost.size g' = Ghost.size g
  /\ Ghost.color g' = Ghost.color g
  /\ (Ghost.changeDirectionTimer g' <= 5000)%Q
  /\ ((timer <= 2000)%Q ->
      Ghost.direction g' = Ghost.direction g
      /\ Ghost.vx g' = Ghost.vx g /\ Ghost.vy g' = Ghost.vy g
      /\ Ghost.changeDirectionTimer g' = timer
      /\ snd (updateGhost tr w h deltaTime rs k g) = S k)
  /\ ((5000 < timer)%Q ->
      Ghost.direction g'
      = round tr (round tr (rval (rs (S k)) * (twoPi tr / 2)) * 2)
      /\ Ghost.vx g'
         = round tr (cos tr (Ghost.direction g') * Ghost.speed g)
      /\ Ghost.vy g'
         = round tr (sin tr (Ghost.direction g') * Ghost.speed g)
      /\ Ghost.changeDirectionTimer g' = 0%Q
      /\ snd (updateGhost tr w h deltaTime rs k g) = S (S k)).
Proof.
  cbv zeta. destruct (threshold_range (round tr) (rs k) Hround) as [Hlo Hhi].
  unfold updateGhost, inBand.
  cbn [fst snd Ghost.x Ghost.y Ghost.vx Ghost.vy Ghost.speed Ghost.size
       Ghost.color Ghost.direction Ghost.changeDirectionTimer].
  split.
  { split; apply wrap_twice, band_has_room; assumption. }
  split; [reflexivity|]. split; [reflexivity|]. split; [reflexivity|].
  destruct (Qltb (round tr (2000 + round tr (rval (rs k) * 3000)))
              (round tr (Ghost.changeDirectionTimer g + deltaTime))) eqn:E.
  - apply Qltb_lt in E. split; [discriminate|]. split.
    + intros Hle. exfalso.
      apply (Qlt_irrefl 2000).
      apply (Qle_lt_trans _ _ _ Hlo).
      apply (Qlt_le_trans _ _ _ E Hle).
    + intros _. repeat split.
  - apply Qltb_ge in E. split.
    + apply (Qle_trans _ _ _ E Hhi).
    + split.
      * intros _. repeat split.
      * intros Hgt. exfalso.
        apply (Qlt_irrefl 5000).
        apply (Qlt_le_trans _ _ _ Hgt).
        apply (Qle_trans _ _ _ E Hhi).
Qed.

Lemma ghost_turns_between_two_and_five_seconds_witness :
  rounding (round gridTrig) /\ (0 <= 800)%Q /\ (0 <= 600)%Q
  /\ inBand gridTrig 800 600
       (fst (updateGhost gridTrig 800 600 (1000 / 60)
               (fun _ => halfRandom) 0
               (createGhost gridTrig 800 600 (fun _ => halfRandom) 20 0))).
Proof.
  assert (Hround : rounding (round gridTrig)) by exact rounding_toGrid.
  assert (Hw : (0 <= 800)%Q) by discriminate.
  assert (Hh : (0 <= 600)%Q) by discriminate.
  split; [exact Hround|]. split; [exact Hw|]. split; [exact Hh|].
  exact (proj1 (ghost_turns_between_two_and_five_seconds gridTrig 800 600
                  (1000 / 60) (fun _ => halfRandom) 0%nat
                  (createGhost gridTrig 800 600 (fun _ => halfRandom) 20 0)
                  Hround Hw Hh)).
Defined.

(** The rounding matters: with a draw next to 1 and a rounding to
    multiples of [1 / 1024] the time to turn is 5000 itself, and a
    ghost whose timer reaches exactly 5000 does not turn. *)
Example ghost_at_five_seconds_may_go_on :
  let r := mkRandom01 (1 - (1 # 10000000)) eq_refl in
  let g := {| Ghost.x := 100; Ghost.y := 100; Ghost.vx := 1;
              Ghost.vy := 0; Ghost.color := "red"; Ghost.colorIndex := 3;
              Ghost.size := 28; Ghost.speed := 17 # 10;
              Ghost.direction := 0;
              Ghost.changeDirectionTimer := 4990 |}%Q in
  let g' := fst (updateGhost gridTrig 800 600 10 (fun _ => r) 0 g) in
  (Ghost.changeDirectionTimer g' == 5000)%Q
  /\ Ghost.direction g' = Ghost.direction g.
Proof. vm_compute. split; reflexivity. Qed.

Lemma animate_cases (tr : Trig) (t : Q) (rs : RandomSource) (s : World) :
  (snd (animate tr t rs s) = true
   /\ isRunning s = true
   /\ (lastFrameTime s + frameInterval <= t)%Q
   /\ lastFrameTime (fst (animate tr t rs s)) = t
   /\ isRunning (fst (animate tr t rs s)) = true
   /\ animationId (fst (animate tr t rs s)) = true)
  \/ (snd (animate tr t rs s) = false
      /\ lastFrameTime (fst (animate tr t rs s)) = lastFrameTime s
      /\ isRunning (fst (animate tr t rs s)) = isRunning s
      /\ pacmanCharacters (fst (animate tr t rs s)) = pacmanCharacters s
      /\ ghosts (fst (animate tr t rs s)) = ghosts s
      /\ dots (fst (animate tr t rs s)) = dots s
      /\ particles (fst (animate tr t rs s)) = particles s
      /\ (isRunning s = false -> fst (animate tr t rs s) = s)
      /\ (isRunning s = true ->
          (t < lastFrameTime s + frameInterval)%Q)).
Proof.
  unfold animate. destruct (isRunning s) eqn:Er; cbn [negb].
  - destruct (Qle_bool frameInterval (t - lastFrameTime s)) eqn:E.
    + left. cbn [fst snd lastFrameTime isRunning animationId].
      destruct (update_parts tr (t - lastFrameTime s) rs s)
        as (_ & _ & _ & _ & Hr & _).
      apply Qle_bool_iff in E.
      repeat split.
      * apply (Qplus_le_r _ _ (- lastFrameTime s)).
        setoid_replace (- lastFrameTime s + (lastFrameTime s + frameInterval))%Q
          with frameInterval by ring.
        setoid_replace (- lastFrameTime s + t)%Q
          with (t - lastFrameTime s)%Q by ring.
        exact E.
      * rewrite Hr. exact Er.
    + right. cbn [fst snd lastFrameTime isRunning pacmanCharacters ghosts
                  dots particles].
      repeat split; try congruence.
      intros _. apply Qnot_le_lt. intros Hle.
      assert (Qle_bool frameInterval (t - lastFrameTime s) = true).
      { apply Qle_bool_iff.
        apply (Qplus_le_r _ _ (lastFrameTime s)).
        setoid_replace (lastFrameTime s + (t - lastFrameTime s))%Q
          with t by ring.
        exact Hle. }
      congruence.
  - right. cbn [fst snd]. repeat split; congruence.
Qed.

Lemma last_of_nonempty (A : Type) (l : list A) :
  forall a d1 d2 : A, last (a :: l) d1 = last (a :: l) d2.
Proof.
  induction l as [|b l IH]; intros a d1 d2; [reflexivity|].
  change (last (b :: l) d1 = last (b :: l) d2). apply IH.
Qed.

Lemma animateAll_spaced (tr : Trig) (calls : list (Q * RandomSource)) :
  forall s : World,
  spaced frameInterval (lastFrameTime s) (snd (animateAll tr calls s))
  /\ lastFrameTime (fst (animateAll tr calls s))
     = last (snd (animateAll tr calls s)) (lastFrameTime s)
  /\ incl (snd (animateAll tr calls s)) (map fst calls)
  /\ isRunning (fst (animateAll tr calls s)) = isRunning s
  /\ (isRunning s = false -> animateAll tr calls s = (s, [])).
Proof.
  induction calls as [|[t rs] calls IH]; intros s.
  - cbn [animateAll fst snd spaced last map]. repeat split; auto.
    apply incl_refl.
  - cbn [animateAll map fst].
    destruct (animate_cases tr t rs s)
      as [(Hc & Hr & Hgap & Hl & Hr1 & _)
         | (Hc & Hl & Hr1 & _ & _ & _ & _ & Hoff & _)].
    + destruct (animate tr t rs s) as [s1 c]. cbn [fst snd] in *. subst c.
      destruct (IH s1) as (H1 & H2 & H3 & H4 & _).
      destruct (animateAll tr calls s1) as [s2 times]. cbn [fst snd] in *.
      split; [cbn [spaced]; split; [exact Hgap | now rewrite <- Hl]|].
      split.
      { rewrite H2, Hl. destruct times as [|q times]; [reflexivity|].
        change (last (t :: q :: times) (lastFrameTime s))
          with (last (q :: times) (lastFrameTime s)).
        apply last_of_nonempty. }
      split.
      { intros x [<- | Hx]; [now left | right; now apply H3]. }
      split; [congruence|]. intros Hoff. congruence.
    + destruct (animate tr t rs s) as [s1 c]. cbn [fst snd] in *. subst c.
      destruct (IH s1) as (H1 & H2 & H3 & H4 & H5).
      assert (H6 : isRunning s = false ->
                   (let (s2, times) := animateAll tr calls s1 in (s2, times))
                   = (s, [])).
      { intros Hr. rewrite (Hoff Hr) in *. now rewrite (H5 Hr). }
      destruct (animateAll tr calls s1) as [s2 times]. cbn [fst snd] in *.
      split; [now rewrite <- Hl|].
      split; [now rewrite H2, Hl|].
      split; [intros x Hx; right; now apply H3|].
      split; [congruence | exact H6].
Qed.

(** X20: the frame clock.  However often [animate()] is called, the
    frames it computes are at least a sixtieth of a second apart, the
    first one that long after the last frame before; the time of the
    last frame computed is what [lastFrameTime] holds afterwards; a
    stopped animation computes nothing and is left as it is, also
    right after [stop()]; and [start()] does nothing to a running
    one. *)
Theorem frames_are_a_sixtieth_apart (tr : Trig)
    (calls : list (Q * RandomSource)) (now later : Q) (rs : RandomSource)
    (s : World) :
  spaced (1000 / 60) (lastFrameTime s) (snd (animateAll tr calls s))
  /\ lastFrameTime (fst (animateAll tr calls s))
     = last (snd (animateAll tr calls s)) (lastFrameTime s)
  /\ (isRunning s = false -> animateAll tr calls s = (s, []))
  /\ animateAll tr calls (stop s) = (stop s, [])
  /\ (isRunning s = true -> start tr now later rs s = s)
  /\ isRunning (start tr now later rs s) = true.
Proof.
  destruct (animateAll_spaced tr calls s) as (H1 & H2 & _ & _ & H5).
  split; [exact H1|]. split; [exact H2|]. split; [exact H5|].
  split.
  { destruct (animateAll_spaced tr calls (stop s)) as (_ & _ & _ & _ & H).
    now apply H. }
  split.
  { intros Hr. unfold start. now rewrite Hr. }
  unfold start. destruct (isRunning s) eqn:Er; [exact Er|].
  match goal with
  | |- isRunning (fst (animate tr later rs ?s0)) = true =>
      destruct (animate_cases tr later rs s0)
        as [(_ & _ & _ & _ & Hr1 & _) | (_ & _ & Hr1 & _)];
        [exact Hr1 | rewrite Hr1; reflexivity]
  end.
Qed.

End GhostFacts.
